(** * Commission, wallet-ledger and withdrawal engine

    A shallow embedding of the commission engine of the marketplace back
    office:

    - [services/commissionService.ts]: [getSellerCommissionRate],
      [getDeliveryBoyCommissionRate], [calculateOrderCommissions],
      [distributeCommissions], [getCommissionSummary],
      [reverseCommissions];
    - [services/orderService.ts]: [processOrderStatusTransition],
      [reserveInventory], [restoreInventory], [createCommissions] (the
      eager per-item path run when an order becomes Delivered),
      [validateStatusTransition], [calculateOrderTotals];
    - [modules/admin/controllers/adminCommissionController.ts]:
      [updateCommissionRates], [getCommissionReport],
      [getCommissionSettings], [processWithdrawal].

    Conventions of the embedding.

    - The MongoDB collections are the fields of one record [DB]; a
      collection read by [findById] is a [gmap] from ids to documents, a
      collection that is appended to and scanned is a list.
    - A JavaScript [number] is an exact rational ([Q]): the arithmetic of
      the source is the arithmetic of the model without binary rounding, and
      there is no NaN.  [x && x > 0] on a number is therefore [0 < x], and
      [Math.round x] is [Qfloor (x + 1/2)].  Where the binary rounding of
      the source decides the result, at a half-cent tie of the delivery
      amount, the expression is also given on IEEE 754 doubles (module
      [Double]), and the statements about the rational model claim nothing
      that the doubles contradict.
    - An [async] function that runs inside
      [session.startTransaction () ... commitTransaction / abortTransaction]
      is a function [DB -> result DB]: the writes of the body are kept when
      it returns ([Ok]) and dropped when it throws ([Throw]).
    - [new Date ()] is an argument [now].  *)

From Stdlib Require Import QArith Qround Lqa ZArith String List.
From Stdlib Require Floats Uint63.
From stdpp Require Import base option list gmap strings.

Local Open Scope string_scope.
Local Open Scope list_scope.

(** ** Errors and transactions *)

Inductive result (A : Type) : Type :=
| Ok (a : A)
| Throw (message : string).
Arguments Ok {A} a.
Arguments Throw {A} message.

Global Instance result_ret : MRet result := fun A a => Ok a.

Global Instance result_bind : MBind result := fun A B k r =>
  match r with
  | Ok a => k a
  | Throw m => Throw m
  end.

(** ** Data model *)

Definition Id := string.
Definition Date := Z.

Inductive UserType := SELLER | DELIVERY_BOY.

Global Instance UserType_eq_dec : EqDecision UserType.
Proof. solve_decision. Defined.

Module Seller.
(** [commissionRate] is the field read by [getSellerCommissionRate],
    [commission] the one read by [createCommissions]. *)
Record t := mk {
  commissionRate : option Q;
  commission : option Q;
  balance : Q
}.
Definition with_balance (b : Q) (s : t) : t :=
  mk (commissionRate s) (commission s) b.
End Seller.

Module Delivery.
Record t := mk {
  commissionRate : option Q;
  balance : Q
}.
Definition with_balance (b : Q) (d : t) : t :=
  mk (commissionRate d) b.
End Delivery.

Module Category.
(** Documents of the [Category] and of the [SubCategory] collections. *)
Record t := mk {
  name : string;
  commissionRate : option Q
}.
End Category.

Module Product.
Record t := mk {
  productName : string;
  subSubCategory : option Id;
  subcategory : option Id;
  category : option Id
}.
End Product.

Module OrderItem.
Record t := mk {
  _id : Id;
  order : Id;
  seller : Id;
  product : Id;
  total : Q
}.
End OrderItem.

Module Order.
Record t := mk {
  orderNumber : string;
  status : string;
  items : list Id;
  deliveryBoy : option Id;
  subtotal : Q;
  deliveryDistanceKm : option Q
}.
End Order.

Module AppSettings.
Record DeliveryConfig := mkConfig {
  isDistanceBased : option bool;
  deliveryBoyKmRate : option Q
}.
Record t := mk {
  deliveryConfig : option DeliveryConfig
}.
End AppSettings.

Inductive CommissionStatus := Pending | Paid | Cancelled.

Global Instance CommissionStatus_eq_dec : EqDecision CommissionStatus.
Proof. solve_decision. Defined.

Module Commission.
(** [_id] is the position of the record in the collection.  [type] is
    absent on the records of the eager path, which does not set it. *)
Record t := mk {
  _id : nat;
  order : Id;
  orderItem : option Id;
  seller : option Id;
  deliveryBoy : option Id;
  type : option UserType;
  orderAmount : Q;
  commissionRate : Q;
  commissionAmount : Q;
  status : CommissionStatus;
  paidAt : option Date
}.
Definition with_status (st : CommissionStatus) (c : t) : t :=
  mk (_id c) (order c) (orderItem c) (seller c) (deliveryBoy c) (type c)
     (orderAmount c) (commissionRate c) (commissionAmount c) st (paidAt c).
End Commission.

Inductive Direction := Credit | Debit.

Global Instance Direction_eq_dec : EqDecision Direction.
Proof. solve_decision. Defined.

(** The template strings of the descriptions, with their holes. *)
Inductive Description :=
| SaleProceeds (orderNumber : string) (commission : Q)
| CommissionForOrder (orderNumber : string)
| CommissionReversal
| WithdrawalRejected (requestId : Id)
| EarningsFromOrder (orderNumber : string).

Module WalletTransaction.
Record t := mk {
  userId : Id;
  userType : UserType;
  amount : Q;
  type : Direction;
  description : Description;
  relatedOrder : option Id;
  relatedCommission : option nat
}.
End WalletTransaction.

Inductive WithdrawStatus := WPending | WApproved | WRejected | WCompleted.

Global Instance WithdrawStatus_eq_dec : EqDecision WithdrawStatus.
Proof. solve_decision. Defined.

Module WithdrawRequest.
Record t := mk {
  userId : Id;
  userType : UserType;
  amount : Q;
  status : WithdrawStatus;
  remarks : option string;
  processedAt : option Date
}.
End WithdrawRequest.

(** The database. [settings] is [None] when [AppSettings.getSettings]
    yields nothing or throws: both cases take the same path in
    [calculateOrderCommissions]. *)
Record DB := mkDB {
  orders : gmap Id Order.t;
  orderItems : gmap Id OrderItem.t;
  sellers : gmap Id Seller.t;
  deliveries : gmap Id Delivery.t;
  products : gmap Id Product.t;
  categories : gmap Id Category.t;
  subCategories : gmap Id Category.t;
  settings : option AppSettings.t;
  commissions : list Commission.t;
  walletTransactions : list WalletTransaction.t;
  withdrawRequests : gmap Id WithdrawRequest.t
}.

Definition set_sellers (v : gmap Id Seller.t) (db : DB) : DB :=
  mkDB (orders db) (orderItems db) v (deliveries db) (products db)
       (categories db) (subCategories db) (settings db) (commissions db)
       (walletTransactions db) (withdrawRequests db).

Definition set_deliveries (v : gmap Id Delivery.t) (db : DB) : DB :=
  mkDB (orders db) (orderItems db) (sellers db) v (products db)
       (categories db) (subCategories db) (settings db) (commissions db)
       (walletTransactions db) (withdrawRequests db).

Definition set_commissions (v : list Commission.t) (db : DB) : DB :=
  mkDB (orders db) (orderItems db) (sellers db) (deliveries db) (products db)
       (categories db) (subCategories db) (settings db) v
       (walletTransactions db) (withdrawRequests db).

Definition set_walletTransactions (v : list WalletTransaction.t) (db : DB) : DB :=
  mkDB (orders db) (orderItems db) (sellers db) (deliveries db) (products db)
       (categories db) (subCategories db) (settings db) (commissions db)
       v (withdrawRequests db).

Definition set_withdrawRequests (v : gmap Id WithdrawRequest.t) (db : DB) : DB :=
  mkDB (orders db) (orderItems db) (sellers db) (deliveries db) (products db)
       (categories db) (subCategories db) (settings db) (commissions db)
       (walletTransactions db) v.

(** ** Wallet ledger ([services/walletManagementService]) *)

(** The balance of a subject, [None] when the subject has no record. *)
Definition balanceOf (userId : Id) (userType : UserType) (db : DB) : option Q :=
  match userType with
  | SELLER => Seller.balance <$> sellers db !! userId
  | DELIVERY_BOY => Delivery.balance <$> deliveries db !! userId
  end.

Definition setBalance (userId : Id) (userType : UserType) (b : Q) (db : DB) : DB :=
  match userType with
  | SELLER => set_sellers (alter (Seller.with_balance b) userId (sellers db)) db
  | DELIVERY_BOY =>
      set_deliveries (alter (Delivery.with_balance b) userId (deliveries db)) db
  end.

(** Modelled from the spec: [creditWallet] of walletManagementService,
    which is imported by the services but is not among the sources.  Spec
    4.3: within the transactional context the operation appends one
    WalletTransaction row and increments the subject's cached balance, both
    or neither.  The balance is a field of the Seller / DeliveryPartner
    record (spec 3), so for a subject without a record neither write can
    happen and the operation throws. *)
Definition creditWallet (userId : Id) (userType : UserType) (amount : Q)
    (description : Description) (relatedOrder : option Id)
    (relatedCommission : option nat) (db : DB) : result DB :=
  match balanceOf userId userType db with
  | None => Throw "User not found"
  | Some b =>
      let tx := WalletTransaction.mk userId userType amount Credit description
                  relatedOrder relatedCommission in
      Ok (set_walletTransactions (walletTransactions db ++ [tx])
            (setBalance userId userType (b + amount)%Q db))
  end.

(** Modelled from the spec: [debitWallet] of walletManagementService (not
    among the sources).  Spec 4.3: symmetric to credit, and it fails with
    InsufficientFunds when the amount exceeds the current balance. *)
Definition debitWallet (userId : Id) (userType : UserType) (amount : Q)
    (description : Description) (relatedOrder : option Id) (db : DB) : result DB :=
  match balanceOf userId userType db with
  | None => Throw "User not found"
  | Some b =>
      if Qlt_le_dec b amount then Throw "Insufficient balance"
      else
        let tx := WalletTransaction.mk userId userType amount Debit description
                    relatedOrder None in
        Ok (set_walletTransactions (walletTransactions db ++ [tx])
              (setBalance userId userType (b - amount)%Q db))
  end.

(** ** JavaScript helpers *)

(** Truthiness of a number: every number but [0]. *)
Definition truthy (x : Q) : bool := negb (Qeq_bool x 0).

(** [x > 0] on numbers. *)
Definition positive (x : Q) : bool := negb (Qle_bool x 0).

(** [Math.round]: the nearest integer, a tie going up. *)
Definition Math_round (x : Q) : Q := inject_Z (Qfloor (x + (1 # 2))).

(** A JavaScript [Map] with string keys: the entries in insertion order.
    [Map_set] on a key that is present replaces the value where it stands,
    as mutating the object returned by [get] does. *)
Fixpoint Map_get {V} (k : Id) (m : list (Id * V)) : option V :=
  match m with
  | [] => None
  | (k', v) :: m' => if decide (k' = k) then Some v else Map_get k m'
  end.

Fixpoint Map_set {V} (k : Id) (v : V) (m : list (Id * V)) : list (Id * V) :=
  match m with
  | [] => [(k, v)]
  | (k', v') :: m' =>
      if decide (k' = k) then (k', v) :: m' else (k', v') :: Map_set k v m'
  end.

(** ** commissionService.ts *)

(** The [try] block of [getSellerCommissionRate]. *)
Definition getSellerCommissionRate_try (db : DB) (sellerId : Id) : result Q :=
  match sellers db !! sellerId with
  | None => Throw "Seller not found"
  | Some seller =>
      match Seller.commissionRate seller with
      | Some rate => Ok rate
      | None => Ok 10%Q
      end
  end.

Definition getSellerCommissionRate (db : DB) (sellerId : Id) : Q :=
  match getSellerCommissionRate_try db sellerId with
  | Ok rate => rate
  | Throw _ => 10%Q
  end.

(** The [try] block of [getDeliveryBoyCommissionRate]. *)
Definition getDeliveryBoyCommissionRate_try (db : DB) (deliveryBoyId : Id)
    : result Q :=
  match deliveries db !! deliveryBoyId with
  | None => Throw "Delivery boy not found"
  | Some deliveryBoy =>
      match Delivery.commissionRate deliveryBoy with
      | Some rate => Ok rate
      | None => Ok 5%Q
      end
  end.

Definition getDeliveryBoyCommissionRate (db : DB) (deliveryBoyId : Id) : Q :=
  match getDeliveryBoyCommissionRate_try db deliveryBoyId with
  | Ok rate => rate
  | Throw _ => 5%Q
  end.

(** The values of the [sellerCommissions] map, and with [id] the entries of
    [commissions.seller] and [commissions.deliveryBoy]. *)
Record Share := mkShare {
  amount : Q;
  rate : Q;
  orderAmount : Q
}.

Record Commissions := mkCommissions {
  seller : list (Id * Share);
  deliveryBoy : option (Id * Share)
}.

(** Rate and amount of one order item on the batched path. *)
Definition itemCommission (db : DB) (orderItem : OrderItem.t) : Q * Q :=
  let commissionRate := getSellerCommissionRate db (OrderItem.seller orderItem) in
  (commissionRate, (OrderItem.total orderItem * commissionRate / 100)%Q).

(** One turn of the loop over [order.items]. *)
Definition accumulate (db : DB) (sellerCommissions : list (Id * Share))
    (itemId : Id) : list (Id * Share) :=
  match orderItems db !! itemId with
  | None => sellerCommissions
  | Some orderItem =>
      let sellerId := OrderItem.seller orderItem in
      let itemTotal := OrderItem.total orderItem in
      let '(commissionRate, commissionAmount) := itemCommission db orderItem in
      match Map_get sellerId sellerCommissions with
      | Some existing =>
          Map_set sellerId
            (mkShare (amount existing + commissionAmount)%Q (rate existing)
                     (orderAmount existing + itemTotal)%Q)
            sellerCommissions
      | None =>
          Map_set sellerId (mkShare commissionAmount commissionRate itemTotal)
            sellerCommissions
      end
  end.

(** The distance-based branch: the per-km rate and the unrounded amount
    when the branch is taken. *)
Definition distanceCommission (db : DB) (order : Order.t) : option (Q * Q) :=
  match settings db with
  | None => None
  | Some settings =>
      match AppSettings.deliveryConfig settings with
      | None => None
      | Some config =>
          match AppSettings.isDistanceBased config,
                AppSettings.deliveryBoyKmRate config,
                Order.deliveryDistanceKm order with
          | Some true, Some kmRate, Some distance =>
              if truthy kmRate && truthy distance && positive distance
              then Some (kmRate, (distance * kmRate)%Q)
              else None
          | _, _, _ => None
          end
      end
  end.

Definition deliveryBoyCommission (db : DB) (order : Order.t)
    : option (Id * Share) :=
  match Order.deliveryBoy order with
  | None => None
  | Some deliveryBoyId =>
      let '(usedDistanceBased, commissionRate, commissionAmount) :=
        match distanceCommission db order with
        | Some (commissionRate, commissionAmount) =>
            (true, commissionRate, commissionAmount)
        | None =>
            let commissionRate := getDeliveryBoyCommissionRate db deliveryBoyId in
            (false, commissionRate, (Order.subtotal order * commissionRate / 100)%Q)
        end in
      Some (deliveryBoyId,
            mkShare (Math_round (commissionAmount * 100) / 100)%Q
                    commissionRate
                    (if usedDistanceBased
                     then default 0%Q (Order.deliveryDistanceKm order)
                     else Order.subtotal order))
  end.

Definition calculateOrderCommissions (db : DB) (orderId : Id)
    : result Commissions :=
  match orders db !! orderId with
  | None => Throw "Order not found"
  | Some order =>
      Ok (mkCommissions
            (fold_left (accumulate db) (Order.items order) [])
            (deliveryBoyCommission db order))
  end.

(** [commission.save ({ session })] of a new document. *)
Definition insertCommission (c : Commission.t) (db : DB) : DB :=
  set_commissions (commissions db ++ [c]) db.

(** [commission.save ({ session })] of a document that was read. *)
Definition saveCommission (c : Commission.t) (db : DB) : DB :=
  set_commissions
    (map (fun c' => if decide (Commission._id c' = Commission._id c) then c else c')
         (commissions db))
    db.

(** [Commission.find ({ order: orderId })]. *)
Definition findCommissions (orderId : Id) (db : DB) : list Commission.t :=
  filter (fun c => Commission.order c = orderId) (commissions db).

(** The body of the loop over the seller commissions. *)
Definition distributeSeller (orderId : Id) (order : Order.t) (now : Date)
    (st : DB * list Commission.t) (sellerComm : Id * Share)
    : result (DB * list Commission.t) :=
  let '(db, createdCommissions) := st in
  let '(sellerId, share) := sellerComm in
  let commission :=
    Commission.mk (length (commissions db)) orderId None (Some sellerId) None
      (Some SELLER) (orderAmount share) (rate share) (amount share) Paid
      (Some now) in
  let db := insertCommission commission db in
  let netAmount := (orderAmount share - amount share)%Q in
  db ← creditWallet sellerId SELLER netAmount
         (SaleProceeds (Order.orderNumber order) (amount share))
         (Some orderId) (Some (Commission._id commission)) db;
  Ok (db, createdCommissions ++ [commission]).

Fixpoint distributeSellers (orderId : Id) (order : Order.t) (now : Date)
    (sellerCommissions : list (Id * Share)) (st : DB * list Commission.t)
    : result (DB * list Commission.t) :=
  match sellerCommissions with
  | [] => Ok st
  | sellerComm :: rest =>
      st ← distributeSeller orderId order now st sellerComm;
      distributeSellers orderId order now rest st
  end.

Definition distributeDeliveryBoy (orderId : Id) (order : Order.t) (now : Date)
    (st : DB * list Commission.t) (deliveryBoyCommission : option (Id * Share))
    : result (DB * list Commission.t) :=
  match deliveryBoyCommission with
  | None => Ok st
  | Some (deliveryBoyId, share) =>
      let '(db, createdCommissions) := st in
      let commission :=
        Commission.mk (length (commissions db)) orderId None None
          (Some deliveryBoyId) (Some DELIVERY_BOY) (orderAmount share)
          (rate share) (amount share) Paid (Some now) in
      let db := insertCommission commission db in
      db ← creditWallet deliveryBoyId DELIVERY_BOY (amount share)
             (CommissionForOrder (Order.orderNumber order))
             (Some orderId) (Some (Commission._id commission)) db;
      Ok (db, createdCommissions ++ [commission])
  end.

(** The [try] block of [distributeCommissions], run in the transaction. *)
Definition distributeCommissions_try (orderId : Id) (now : Date) (db : DB)
    : result (DB * list Commission.t) :=
  match orders db !! orderId with
  | None => Throw "Order not found"
  | Some order =>
      if decide (Order.status order ≠ "Delivered")
      then Throw "Commissions can only be distributed for delivered orders"
      else
        let existingCommissions := findCommissions orderId db in
        if decide (0 < length existingCommissions)%nat
        then Throw "Commissions already distributed for this order"
        else
          match calculateOrderCommissions db orderId with
          | Throw _ => Throw "Failed to calculate commissions"
          | Ok data =>
              st ← distributeSellers orderId order now (seller data) (db, []);
              distributeDeliveryBoy orderId order now st (deliveryBoy data)
          end
  end.

Record Response := mkResponse {
  success : bool;
  message : string;
  data : option (list Commission.t)
}.

(** [error.message || fallback]. *)
Definition orElse (m fallback : string) : string :=
  if decide (m = "") then fallback else m.

(** Commit on [Ok], abort on [Throw]. *)
Definition distributeCommissions (db : DB) (now : Date) (orderId : Id)
    : DB * Response :=
  match distributeCommissions_try orderId now db with
  | Ok (db', createdCommissions) =>
      (db', mkResponse true "Commissions distributed successfully"
              (Some createdCommissions))
  | Throw m =>
      (db, mkResponse false (orElse m "Failed to distribute commissions") None)
  end.

(** The body of the loop of [reverseCommissions].  A Paid record without
    [type] has no subject kind to hand to the ledger; no path of the
    services writes such a record. *)
Definition reverseOne (orderId : Id) (db : DB) (commission : Commission.t)
    : result DB :=
  if decide (Commission.status commission = Paid) then
    let db := saveCommission (Commission.with_status Cancelled commission) db in
    let userId :=
      if decide (Commission.type commission = Some SELLER)
      then Commission.seller commission
      else Commission.deliveryBoy commission in
    match userId, Commission.type commission with
    | Some userId, Some userType =>
        debitWallet userId userType (Commission.commissionAmount commission)
          CommissionReversal (Some orderId) db
    | Some _, None => Throw "Invalid user type"
    | None, _ => Ok db
    end
  else Ok db.

Fixpoint reverseAll (orderId : Id) (commissions : list Commission.t) (db : DB)
    : result DB :=
  match commissions with
  | [] => Ok db
  | commission :: rest =>
      db ← reverseOne orderId db commission;
      reverseAll orderId rest db
  end.

Definition reverseCommissions (db : DB) (orderId : Id) : DB * Response :=
  let commissions := findCommissions orderId db in
  if decide (length commissions = 0)%nat
  then (db, mkResponse true "No commissions to reverse" None)
  else
    match reverseAll orderId commissions db with
    | Ok db' => (db', mkResponse true "Commissions reversed successfully" None)
    | Throw m =>
        (db, mkResponse false (orElse m "Failed to reverse commissions") None)
    end.

(** ** orderService.ts: the eager path *)

(** [doc && doc.commissionRate && doc.commissionRate > 0]: the rate of a
    classification level when the test passes. *)
Definition levelRate (doc : option Category.t) : option Q :=
  match doc with
  | None => None
  | Some doc =>
      match Category.commissionRate doc with
      | None => None
      | Some r => if truthy r && positive r then Some r else None
      end
  end.

(** The rate priority of [createCommissions], steps 1 to 5. *)
Definition resolveCommissionRate (db : DB) (seller : Seller.t) (productId : Id)
    : Q :=
  let commissionRate := 0%Q in
  let commissionRate :=
    match products db !! productId with
    | None => commissionRate
    | Some product =>
        let commissionRate :=
          match Product.subSubCategory product with
          | None => commissionRate
          | Some ref =>
              match levelRate (categories db !! ref) with
              | Some r => r
              | None => commissionRate
              end
          end in
        let commissionRate :=
          match Qeq_bool commissionRate 0, Product.subcategory product with
          | true, Some ref =>
              match levelRate (subCategories db !! ref) with
              | Some r => r
              | None => commissionRate
              end
          | _, _ => commissionRate
          end in
        match Qeq_bool commissionRate 0, Product.category product with
        | true, Some ref =>
            match levelRate (categories db !! ref) with
            | Some r => r
            | None => commissionRate
            end
        | _, _ => commissionRate
        end
    end in
  let commissionRate :=
    match Qeq_bool commissionRate 0, Seller.commission seller with
    | true, Some r => if positive r then r else commissionRate
    | _, _ => commissionRate
    end in
  if Qeq_bool commissionRate 0 then 10%Q else commissionRate.

(** Rate and amount of one order item on the eager path; [None] when the
    seller is missing and the item is skipped. *)
Definition eagerItemCommission (db : DB) (item : OrderItem.t) : option (Q * Q) :=
  match sellers db !! OrderItem.seller item with
  | None => None
  | Some seller =>
      let commissionRate := resolveCommissionRate db seller (OrderItem.product item) in
      Some (commissionRate, (OrderItem.total item * commissionRate / 100)%Q)
  end.

Module Earnings.
(** The values of [sellerEarningsMap]. *)
Record t := mk {
  totalAmount : Q;
  commissionAmount : Q;
  netEarning : Q;
  items : list OrderItem.t
}.
End Earnings.

(** First pass of [createCommissions], one item. *)
Definition createCommission (st : DB * list (Id * Earnings.t)) (item : OrderItem.t)
    : DB * list (Id * Earnings.t) :=
  let '(db, sellerEarningsMap) := st in
  let sellerId := OrderItem.seller item in
  match eagerItemCommission db item with
  | None => st
  | Some (commissionRate, commissionAmount) =>
      let netEarning := (OrderItem.total item - commissionAmount)%Q in
      let db :=
        insertCommission
          (Commission.mk (length (commissions db)) (OrderItem.order item)
             (Some (OrderItem._id item)) (Some sellerId) None None
             (OrderItem.total item) commissionRate commissionAmount Pending None)
          db in
      let sellerData :=
        default (Earnings.mk 0 0 0 []) (Map_get sellerId sellerEarningsMap) in
      (db,
       Map_set sellerId
         (Earnings.mk (Earnings.totalAmount sellerData + OrderItem.total item)%Q
                      (Earnings.commissionAmount sellerData + commissionAmount)%Q
                      (Earnings.netEarning sellerData + netEarning)%Q
                      (Earnings.items sellerData ++ [item]))
         sellerEarningsMap)
  end.

(** Second pass of [createCommissions], one seller.  [x || 0] on the
    balance is the balance itself. *)
Definition creditEarnings (items : list OrderItem.t) (db : DB)
    (entry : Id * Earnings.t) : DB :=
  let '(sellerId, earnings) := entry in
  match sellers db !! sellerId, items with
  | Some seller, item0 :: _ =>
      let db :=
        set_sellers
          (<[sellerId := Seller.with_balance
                           (Seller.balance seller + Earnings.netEarning earnings)%Q seller]>
             (sellers db)) db in
      let orderNumber :=
        match orders db !! OrderItem.order item0 with
        | Some order =>
            orElse (Order.orderNumber order) ("ORDER-" +:+ OrderItem.order item0)
        | None => "ORDER-" +:+ OrderItem.order item0
        end in
      set_walletTransactions
        (walletTransactions db ++
           [WalletTransaction.mk sellerId SELLER (Earnings.netEarning earnings) Credit
              (EarningsFromOrder orderNumber) None None])
        db
  | _, _ => db
  end.

Definition createCommissions (db : DB) (items : list OrderItem.t) : DB :=
  let '(db, sellerEarningsMap) := fold_left createCommission items (db, []) in
  fold_left (creditEarnings items) sellerEarningsMap db.

(** ** adminCommissionController.ts: processWithdrawal *)

Record Body := mkBody {
  action : option string;
  remark : option string;
  requestId : option string;
  id : option string
}.

Record Reply := mkReply {
  statusCode : nat;
  json : Response
}.

(** Truthiness of an optional string. *)
Definition truthyS (s : option string) : option string :=
  match s with
  | Some s => if decide (s = "") then None else Some s
  | None => None
  end.

(** What the handler holds when it reaches [mongoose.startSession ()]. *)
Inductive Checked :=
| Respond (r : Reply)
| Proceed (idToProcess : Id) (action : string) (request : WithdrawRequest.t).

(** [requestId || req.body.id], kept when it is truthy. *)
Definition idToProcess (body : Body) : option Id :=
  truthyS (match truthyS (requestId body) with
           | Some i => Some i
           | None => id body
           end).

(** The handler up to the transaction: the request is read and its status
    is tested outside of any session. *)
Definition processWithdrawal_check (db : DB) (body : Body) : Checked :=
  match idToProcess body, truthyS (action body) with
  | Some idToProcess, Some action =>
      match withdrawRequests db !! idToProcess with
      | None => Respond (mkReply 404 (mkResponse false "Request not found" None))
      | Some request =>
          if decide (WithdrawRequest.status request ≠ WPending)
          then Respond (mkReply 400
                          (mkResponse false "Request is already processed" None))
          else Proceed idToProcess action request
      end
  | _, _ =>
      Respond (mkReply 400
                 (mkResponse false "Request ID and Action are required" None))
  end.

(** [request.save ({ session })]: the paths assigned on the in-memory
    document are written to the stored one. *)
Definition saveRequest (idToProcess : Id)
    (assign : WithdrawRequest.t -> WithdrawRequest.t) (db : DB) : DB :=
  set_withdrawRequests (alter assign idToProcess (withdrawRequests db)) db.

Definition approve (now : Date) (r : WithdrawRequest.t) : WithdrawRequest.t :=
  WithdrawRequest.mk (WithdrawRequest.userId r) (WithdrawRequest.userType r)
    (WithdrawRequest.amount r) WApproved (WithdrawRequest.remarks r) (Some now).

Definition reject (remark : option string) (now : Date) (r : WithdrawRequest.t)
    : WithdrawRequest.t :=
  WithdrawRequest.mk (WithdrawRequest.userId r) (WithdrawRequest.userType r)
    (WithdrawRequest.amount r) WRejected remark (Some now).

(** The [try] block of [processWithdrawal], run in the transaction on the
    document [request] read before it. *)
Definition processWithdrawal_try (idToProcess : Id) (action : string)
    (remark : option string) (now : Date) (request : WithdrawRequest.t) (db : DB)
    : result DB :=
  if decide (action = "Approve") then
    Ok (saveRequest idToProcess (approve now) db)
  else if decide (action = "Reject") then
    db ← creditWallet (WithdrawRequest.userId request)
           (WithdrawRequest.userType request) (WithdrawRequest.amount request)
           (WithdrawalRejected idToProcess) None None db;
    Ok (saveRequest idToProcess (reject remark now) db)
  else Ok (saveRequest idToProcess (fun r => r) db).

Definition processWithdrawal_txn (idToProcess : Id) (action : string)
    (remark : option string) (now : Date) (request : WithdrawRequest.t) (db : DB)
    : DB * Reply :=
  match processWithdrawal_try idToProcess action remark now request db with
  | Ok db' =>
      (db', mkReply 200
              (mkResponse true ("Withdrawal " +:+ action +:+ "ed successfully")
                 None))
  | Throw m =>
      (db, mkReply 500 (mkResponse false (orElse m "Processing failed") None))
  end.

Definition processWithdrawal (db : DB) (now : Date) (body : Body) : DB * Reply :=
  match processWithdrawal_check db body with
  | Respond r => (db, r)
  | Proceed idToProcess action request =>
      processWithdrawal_txn idToProcess action (remark body) now request db
  end.

(** Two calls that both pass the status test before either transaction
    starts; the transactions then run one after the other. *)
Definition processWithdrawal_racing (db : DB) (now1 now2 : Date)
    (body1 body2 : Body) : DB * Reply * Reply :=
  let checked1 := processWithdrawal_check db body1 in
  let checked2 := processWithdrawal_check db body2 in
  let '(db1, reply1) :=
    match checked1 with
    | Respond r => (db, r)
    | Proceed idToProcess action request =>
        processWithdrawal_txn idToProcess action (remark body1) now1 request db
    end in
  let '(db2, reply2) :=
    match checked2 with
    | Respond r => (db1, r)
    | Proceed idToProcess action request =>
        processWithdrawal_txn idToProcess action (remark body2) now2 request db1
    end in
  (db2, reply1, reply2).

(** * Specification-side definitions and worked databases *)

(** A database used by the worked examples: one delivered order of one
    item of 100, sold by a seller without override, no delivery partner. *)
Definition db_one_item : DB :=
  mkDB {[ "o1" := Order.mk "N1" "Delivered" ["i1"] None 100%Q None ]}
       {[ "i1" := OrderItem.mk "i1" "o1" "s1" "p1" 100%Q ]}
       {[ "s1" := Seller.mk None None 0%Q ]}
       ∅ ∅ ∅ ∅ None [] [] ∅.

(** The priority in the words of the specification: the candidates are
    tried in order, the first positive one wins, else the fallback. *)
Fixpoint firstPositive (candidates : list (option Q)) (fallback : Q) : Q :=
  match candidates with
  | [] => fallback
  | Some r :: rest =>
      if Qlt_le_dec 0 r then r else firstPositive rest fallback
  | None :: rest => firstPositive rest fallback
  end.

(** The override rate carried by a classification level of a product, when
    the product names the level and the level has a document and a rate. *)
Definition overrideOf (ref : option Id) (collection : gmap Id Category.t)
    : option Q :=
  match ref with
  | None => None
  | Some ref =>
      match collection !! ref with
      | None => None
      | Some doc => Category.commissionRate doc
      end
  end.

(** Sub-sub-category, sub-category, category: most specific first. *)
Definition classificationCandidates (db : DB) (productId : Id)
    : list (option Q) :=
  match products db !! productId with
  | None => []
  | Some product =>
      [ overrideOf (Product.subSubCategory product) (categories db);
        overrideOf (Product.subcategory product) (subCategories db);
        overrideOf (Product.category product) (categories db) ]
  end.

(** The classification levels, then the seller's own rate. *)
Definition rateCandidates (db : DB) (seller : Seller.t) (productId : Id)
    : list (option Q) :=
  classificationCandidates db productId ++ [Seller.commission seller].

(** One level of the priority: a level is consulted only while the rate
    is still [0]. *)
Definition levelStep (cur : Q) (ref : option Id) (collection : gmap Id Category.t)
    : Q :=
  match Qeq_bool cur 0, ref with
  | true, Some ref =>
      match levelRate (collection !! ref) with
      | Some r => r
      | None => cur
      end
  | _, _ => cur
  end.

Definition sellerStep (cur : Q) (seller : Seller.t) : Q :=
  match Qeq_bool cur 0, Seller.commission seller with
  | true, Some r => if positive r then r else cur
  | _, _ => cur
  end.

(** A product classified at three levels: sub-sub-category at 8 percent,
    sub-category at 12, category without rate; its seller overrides at 15
    in both of the fields that the two paths read. *)
Definition db_priority : DB :=
  mkDB {[ "o1" := Order.mk "N1" "Delivered" ["i1"] None 100%Q None ]}
       {[ "i1" := OrderItem.mk "i1" "o1" "s1" "p1" 100%Q ]}
       {[ "s1" := Seller.mk (Some 15%Q) (Some 15%Q) 0%Q ]}
       ∅
       {[ "p1" := Product.mk "Tea" (Some "c3") (Some "c2") (Some "c1") ]}
       {[ "c3" := Category.mk "Green tea" (Some 8%Q);
          "c1" := Category.mk "Grocery" None ]}
       {[ "c2" := Category.mk "Beverages" (Some 12%Q) ]}
       None [] [] ∅.

Definition item_priority : OrderItem.t := OrderItem.mk "i1" "o1" "s1" "p1" 100%Q.

(** [y] is [x] rounded to two decimal places, a tie going up: [y] is a
    whole number of hundredths and [x] lies in [[y - 0.005, y + 0.005)]. *)
Definition roundedHalfUp2 (x y : Q) : Prop :=
  (∃ n : Z, y == inject_Z n / 100)%Q ∧
  (y - (1 # 200) <= x)%Q ∧ (x < y + (1 # 200))%Q.

(** Distance-based pricing applies: the mode is on, a per-km rate other
    than [0] is configured and the order carries a positive distance. *)
Definition distanceMode (db : DB) (order : Order.t) (kmRate distance : Q)
    : Prop :=
  ∃ appSettings config,
    settings db = Some appSettings ∧
    AppSettings.deliveryConfig appSettings = Some config ∧
    AppSettings.isDistanceBased config = Some true ∧
    AppSettings.deliveryBoyKmRate config = Some kmRate ∧
    Order.deliveryDistanceKm order = Some distance ∧
    ¬ (kmRate == 0)%Q ∧ (0 < distance)%Q.

(** Distance-based settings at 10 per km, and an order of 7.5 km. *)
Definition db_distance : DB :=
  mkDB {[ "o1" := Order.mk "N1" "Delivered" [] (Some "d1") 200%Q (Some (75 # 10)%Q) ]}
       ∅ ∅
       {[ "d1" := Delivery.mk None 0%Q ]}
       ∅ ∅ ∅
       (Some (AppSettings.mk
                (Some (AppSettings.mkConfig (Some true) (Some 10%Q)))))
       [] [] ∅.

Definition order_distance : Order.t :=
  Order.mk "N1" "Delivered" [] (Some "d1") 200%Q (Some (75 # 10)%Q).

(** Percentage pricing (no settings), a subtotal of 33.33 and a delivery
    partner without override, hence at 5 percent. *)
Definition order_percentage : Order.t :=
  Order.mk "N2" "Delivered" [] (Some "d1") (3333 # 100)%Q None.

Definition db_percentage : DB :=
  mkDB {[ "o2" := order_percentage ]} ∅ ∅
       {[ "d1" := Delivery.mk None 0%Q ]}
       ∅ ∅ ∅ None [] [] ∅.

(** One Pending request of 500 by a seller whose balance is 0. *)
Definition request_500 : WithdrawRequest.t :=
  WithdrawRequest.mk "s1" SELLER 500%Q WPending None None.

Definition db_withdraw : DB :=
  mkDB ∅ ∅ {[ "s1" := Seller.mk None None 0%Q ]} ∅ ∅ ∅ ∅ None [] []
       {[ "w1" := request_500 ]}.

Definition body_reject : Body := mkBody (Some "Reject") (Some "No KYC") (Some "w1") None.

Definition body_approve : Body := mkBody (Some "Approve") None (Some "w1") None.

(** The items of an order that have a document, and those of one seller. *)
Definition foundItems (db : DB) (ids : list Id) : list OrderItem.t :=
  omap (λ itemId, orderItems db !! itemId) ids.

Definition sellerItems (db : DB) (ids : list Id) (sellerId : Id)
    : list OrderItem.t :=
  filter (λ item, OrderItem.seller item = sellerId) (foundItems db ids).

Definition Qsum (l : list Q) : Q := fold_right Qplus 0%Q l.

Definition sumTotals (l : list OrderItem.t) : Q := Qsum (OrderItem.total <$> l).

Definition sumCommissions (r : Q) (l : list OrderItem.t) : Q :=
  Qsum ((λ item, OrderItem.total item * r / 100)%Q <$> l).

Definition signed (tx : WalletTransaction.t) : Q :=
  match WalletTransaction.type tx with
  | Credit => WalletTransaction.amount tx
  | Debit => (- WalletTransaction.amount tx)%Q
  end.

(** The net amount that the transactions [txs] move to one subject. *)
Definition movement (userId : Id) (userType : UserType)
    (txs : list WalletTransaction.t) : Q :=
  Qsum (signed <$>
          filter (λ tx, WalletTransaction.userId tx = userId ∧
                        WalletTransaction.userType tx = userType) txs).

(** Between [db] and [db'] every balance has moved by what [txs] say. *)
Definition balanceMoved (db db' : DB) (txs : list WalletTransaction.t) : Prop :=
  ∀ userId userType,
    match balanceOf userId userType db, balanceOf userId userType db' with
    | Some b, Some b' => (b' == b + movement userId userType txs)%Q
    | None, None => True
    | _, _ => False
    end.

(** The collections that the distribution only reads. *)
Definition sameCatalogue (db db' : DB) : Prop :=
  orders db' = orders db ∧ orderItems db' = orderItems db ∧
  products db' = products db ∧ categories db' = categories db ∧
  subCategories db' = subCategories db ∧ settings db' = settings db ∧
  withdrawRequests db' = withdrawRequests db.

(** The wallet credit that the distribution pairs with a record. *)
Definition creditOf (order : Order.t) (c : Commission.t)
    : option WalletTransaction.t :=
  match Commission.type c, Commission.seller c, Commission.deliveryBoy c with
  | Some SELLER, Some sellerId, _ =>
      Some (WalletTransaction.mk sellerId SELLER
              (Commission.orderAmount c - Commission.commissionAmount c)%Q Credit
              (SaleProceeds (Order.orderNumber order) (Commission.commissionAmount c))
              (Some (Commission.order c)) (Some (Commission._id c)))
  | Some DELIVERY_BOY, _, Some deliveryBoyId =>
      Some (WalletTransaction.mk deliveryBoyId DELIVERY_BOY
              (Commission.commissionAmount c) Credit
              (CommissionForOrder (Order.orderNumber order))
              (Some (Commission.order c)) (Some (Commission._id c)))
  | _, _, _ => None
  end.

(** The records of a distribution: Paid, of the order, stamped [now]. *)
Definition sellerRecord (orderId : Id) (now : Date) (n : nat)
    (entry : Id * Share) : Commission.t :=
  Commission.mk n orderId None (Some entry.1) None (Some SELLER)
    (orderAmount entry.2) (rate entry.2) (amount entry.2) Paid (Some now).

Definition deliveryRecord (orderId : Id) (now : Date) (n : nat)
    (entry : Id * Share) : Commission.t :=
  Commission.mk n orderId None None (Some entry.1) (Some DELIVERY_BOY)
    (orderAmount entry.2) (rate entry.2) (amount entry.2) Paid (Some now).

(** [db'] is [db] after the records [news] were written and credited. *)
Record Distributed (order : Order.t) (db db' : DB) (news : list Commission.t)
    : Prop := mkDistributed {
  distributed_commissions : commissions db' = commissions db ++ news;
  distributed_ledger :
    walletTransactions db'
    = walletTransactions db ++ omap (creditOf order) news;
  distributed_catalogue : sameCatalogue db db';
  distributed_balances : balanceMoved db db' (omap (creditOf order) news)
}.

(** A record of a distribution and the credit made for it: the seller of a
    SELLER record receives orderAmount minus commissionAmount, and this net
    amount plus the commission is the sum of the totals of that seller's
    items; the partner of a DELIVERY_BOY record receives the
    commissionAmount itself. *)
Definition creditedAsStated (db : DB) (order : Order.t) (c : Commission.t)
    : Prop :=
  ∃ tx, creditOf order c = Some tx ∧ WalletTransaction.type tx = Credit ∧
  match Commission.type c with
  | Some SELLER =>
      ∃ sellerId,
        Commission.seller c = Some sellerId ∧
        WalletTransaction.userId tx = sellerId ∧
        WalletTransaction.userType tx = SELLER ∧
        WalletTransaction.amount tx
          = (Commission.orderAmount c - Commission.commissionAmount c)%Q ∧
        (WalletTransaction.amount tx + Commission.commissionAmount c
         == sumTotals (sellerItems db (Order.items order) sellerId))%Q
  | Some DELIVERY_BOY =>
      ∃ deliveryBoyId,
        Commission.deliveryBoy c = Some deliveryBoyId ∧
        Order.deliveryBoy order = Some deliveryBoyId ∧
        WalletTransaction.userId tx = deliveryBoyId ∧
        WalletTransaction.userType tx = DELIVERY_BOY ∧
        WalletTransaction.amount tx = Commission.commissionAmount c
  | None => False
  end.

(** A delivered order without items and without a delivery partner. *)
Definition db_empty_order : DB :=
  mkDB {[ "o0" := Order.mk "N0" "Delivered" [] None 0%Q None ]}
       ∅ ∅ ∅ ∅ ∅ ∅ None [] [] ∅.

(** A delivered order of one item of 100 (seller at the default 10
    percent) carried by a delivery partner at the default 5 percent of the
    subtotal; both balances start at 0. *)
Definition db_delivered : DB :=
  mkDB {[ "o1" := Order.mk "N1" "Delivered" ["i1"] (Some "d1") 100%Q None ]}
       {[ "i1" := OrderItem.mk "i1" "o1" "s1" "p1" 100%Q ]}
       {[ "s1" := Seller.mk None None 0%Q ]}
       {[ "d1" := Delivery.mk None 0%Q ]}
       ∅ ∅ ∅ None [] [] ∅.

(** * The rest of the services *)

(** ** orderService.ts: status transitions, totals, inventory *)

Module Validation.
(** The object returned by [validateStatusTransition]. *)
Record t := mk {
  valid : bool;
  message : option string
}.
End Validation.

(** The own properties of the object literal [validTransitions]. *)
Definition validTransitions : list (Id * list string) :=
  [ ("Received", ["Pending"; "Cancelled"; "Rejected"]);
    ("Pending", ["Processed"; "Cancelled"; "Rejected"]);
    ("Processed", ["Shipped"; "Cancelled"; "Rejected"]);
    ("Shipped", ["Out for Delivery"; "Cancelled"; "Rejected"]);
    ("Out for Delivery", ["Delivered"; "Cancelled"; "Rejected"]);
    ("Delivered", ["Returned"]);
    ("Cancelled", []);
    ("Rejected", []);
    ("Returned", []) ].

(** The property names that an object literal inherits from
    [Object.prototype]: indexing [validTransitions] with one of them yields
    a function or an object, which is truthy and has no [includes]. *)
Definition Object_prototype_keys : list string :=
  [ "constructor"; "__defineGetter__"; "__defineSetter__"; "hasOwnProperty";
    "__lookupGetter__"; "__lookupSetter__"; "isPrototypeOf";
    "propertyIsEnumerable"; "toString"; "valueOf"; "__proto__";
    "toLocaleString" ].

Definition validateStatusTransition (currentStatus newStatus : string)
    : result Validation.t :=
  allowedStatuses ←
    match Map_get currentStatus validTransitions with
    | Some allowed => Ok allowed
    | None =>
        if decide (currentStatus ∈ Object_prototype_keys)
        then Throw "allowedStatuses.includes is not a function"
        else Ok []
    end;
  if decide (newStatus ∈ allowedStatuses)
  then Ok (Validation.mk true None)
  else Ok (Validation.mk false
             (Some ("Cannot transition from " +:+ currentStatus +:+ " to "
                    +:+ newStatus +:+ ". Valid transitions: "
                    +:+ String.concat ", " allowedStatuses))).

Module Totals.
(** The object returned by [calculateOrderTotals]. *)
Record t := mk {
  subtotal : Q;
  tax : Q;
  shipping : Q;
  discount : Q;
  total : Q
}.
End Totals.

(** The coupon code is tested and then left unused; [0.18] is 18/100. *)
Definition calculateOrderTotals (items : list OrderItem.t)
    (couponCode : option string) : Totals.t :=
  let subtotal :=
    fold_left (λ subtotal item, (subtotal + OrderItem.total item)%Q) items 0%Q in
  let discount := 0%Q in
  let tax := (subtotal * (18 # 100))%Q in
  let shipping := if Qlt_le_dec subtotal 500 then 50%Q else 0%Q in
  Totals.mk subtotal tax shipping discount (subtotal + tax + shipping - discount)%Q.

Module Inventory.
(** A document of the [Inventory] collection, under the product it is
    found by ([Inventory.findOne ({ product })]). *)
Record t := mk {
  currentStock : Q;
  reservedStock : Q;
  availableStock : Q
}.
End Inventory.

Module StockLine.
(** The fields of an order item that the inventory functions read. *)
Record t := mk {
  product : Id;
  quantity : Q
}.
End StockLine.

(** [Math.max (a, b)]. *)
Definition Math_max (a b : Q) : Q := if Qlt_le_dec a b then b else a.

(** One turn of the loop of [reserveInventory]. *)
Definition reserveOne (inventory : gmap Id Inventory.t) (item : StockLine.t)
    : gmap Id Inventory.t :=
  match inventory !! StockLine.product item with
  | None => inventory
  | Some doc =>
      let reservedStock :=
        (Inventory.reservedStock doc + StockLine.quantity item)%Q in
      <[StockLine.product item :=
          Inventory.mk (Inventory.currentStock doc) reservedStock
            (Math_max 0 (Inventory.currentStock doc - reservedStock))]> inventory
  end.

Definition reserveInventory (items : list StockLine.t)
    (inventory : gmap Id Inventory.t) : gmap Id Inventory.t :=
  fold_left reserveOne items inventory.

(** One turn of the loop of [restoreInventory]. *)
Definition restoreOne (inventory : gmap Id Inventory.t) (item : StockLine.t)
    : gmap Id Inventory.t :=
  match inventory !! StockLine.product item with
  | None => inventory
  | Some doc =>
      let reservedStock :=
        Math_max 0 (Inventory.reservedStock doc - StockLine.quantity item) in
      <[StockLine.product item :=
          Inventory.mk (Inventory.currentStock doc) reservedStock
            (Inventory.currentStock doc - reservedStock)%Q]> inventory
  end.

Definition restoreInventory (items : list StockLine.t)
    (inventory : gmap Id Inventory.t) : gmap Id Inventory.t :=
  fold_left restoreOne items inventory.

(** What [processOrderStatusTransition] works on: the database, the
    inventory, the quantity of every order item (a field that the item
    documents of [DB] do not carry) and the log of the calls of
    [clearOrderCache], a function of the socket service. *)
Record World := mkWorld {
  database : DB;
  inventory : gmap Id Inventory.t;
  quantityOf : Id -> Q;
  clearedOrders : list Id
}.

(** [order.items] after [populate ("items")]: the documents that exist. *)
Definition populatedLines (w : World) (order : Order.t) : list StockLine.t :=
  omap (λ itemId,
          (λ item, StockLine.mk (OrderItem.product item) (quantityOf w itemId))
            <$> orderItems (database w) !! itemId)
       (Order.items order).

Definition processOrderStatusTransition (w : World) (orderId : Id)
    (newStatus previousStatus : string) : result (World * Order.t) :=
  match orders (database w) !! orderId with
  | None => Throw "Order not found"
  | Some order =>
      let cleared :=
        if decide (newStatus ∈ ["Delivered"; "Cancelled"; "Returned"; "Failed";
                                "Rejected"])
        then clearedOrders w ++ [orderId]
        else clearedOrders w in
      let w := mkWorld (database w) (inventory w) (quantityOf w) cleared in
      let w :=
        if decide (newStatus = "Cancelled") then
          if decide (previousStatus ∈ ["Processed"; "Shipped"])
          then mkWorld (database w)
                 (restoreInventory (populatedLines w order) (inventory w))
                 (quantityOf w) (clearedOrders w)
          else w
        else if decide (newStatus = "Processed") then
          mkWorld (database w)
            (reserveInventory (populatedLines w order) (inventory w))
            (quantityOf w) (clearedOrders w)
        else if decide (newStatus = "Delivered") then
          mkWorld (createCommissions (database w)
                     (foundItems (database w) (Order.items order)))
            (inventory w) (quantityOf w) (clearedOrders w)
        else w in
      Ok (w, order)
  end.

(** The pairs [(current, next)] that the table allows. *)
Definition transitionEdges : list (string * string) :=
  flat_map (λ entry, pair entry.1 <$> entry.2) validTransitions.

(** [validateStatusTransition] answers [{ valid: true }]. *)
Definition validTransition (currentStatus newStatus : string) : Prop :=
  validateStatusTransition currentStatus newStatus
  = Ok (Validation.mk true None).

(** A sequence of statuses, each reached from the one before by a valid
    transition. *)
Fixpoint validPath (statuses : list string) : Prop :=
  match statuses with
  | current :: (next :: _) as rest =>
      validTransition current next ∧ validPath rest
  | _ => True
  end.

(** How far a status is along the life of an order. *)
Definition statusRank (status : string) : nat :=
  default 0%nat
    (Map_get status
       [ ("Received", 0%nat); ("Pending", 1%nat); ("Processed", 2%nat);
         ("Shipped", 3%nat); ("Out for Delivery", 4%nat); ("Delivered", 5%nat);
         ("Cancelled", 6%nat); ("Rejected", 6%nat); ("Returned", 6%nat) ]).

(** The quantity that the lines [items] hold of one product. *)
Definition lineQuantity (product : Id) (items : list StockLine.t) : Q :=
  Qsum (StockLine.quantity <$>
          filter (λ item, StockLine.product item = product) items).

(** ** Reading [createCommissions] as two passes *)

(** The record that the first pass writes for an item. *)
Definition eagerRecord (n : nat) (item : OrderItem.t)
    (commissionRate commissionAmount : Q) : Commission.t :=
  Commission.mk n (OrderItem.order item) (Some (OrderItem._id item))
    (Some (OrderItem.seller item)) None None (OrderItem.total item)
    commissionRate commissionAmount Pending None.

(** The records of the first pass, numbered from [n]: one for every item
    whose seller has a record. *)
Fixpoint eagerRecords (db : DB) (n : nat) (items : list OrderItem.t)
    : list Commission.t :=
  match items with
  | [] => []
  | item :: rest =>
      match eagerItemCommission db item with
      | None => eagerRecords db n rest
      | Some (commissionRate, commissionAmount) =>
          eagerRecord n item commissionRate commissionAmount
          :: eagerRecords db (S n) rest
      end
  end.

(** What the first pass does to [sellerEarningsMap] for an item. *)
Definition earningsStep (db : DB) (sellerEarningsMap : list (Id * Earnings.t))
    (item : OrderItem.t) : list (Id * Earnings.t) :=
  match eagerItemCommission db item with
  | None => sellerEarningsMap
  | Some (_, commissionAmount) =>
      let sellerData :=
        default (Earnings.mk 0 0 0 [])
                (Map_get (OrderItem.seller item) sellerEarningsMap) in
      Map_set (OrderItem.seller item)
        (Earnings.mk (Earnings.totalAmount sellerData + OrderItem.total item)%Q
                     (Earnings.commissionAmount sellerData + commissionAmount)%Q
                     (Earnings.netEarning sellerData
                      + (OrderItem.total item - commissionAmount))%Q
                     (Earnings.items sellerData ++ [item]))
        sellerEarningsMap
  end.

(** The wallet transaction that the second pass writes for an entry of
    the map. *)
Definition earningsTx (db : DB) (items : list OrderItem.t)
    (entry : Id * Earnings.t) : option WalletTransaction.t :=
  match sellers db !! entry.1, items with
  | Some _, item0 :: _ =>
      let orderNumber :=
        match orders db !! OrderItem.order item0 with
        | Some order =>
            orElse (Order.orderNumber order) ("ORDER-" +:+ OrderItem.order item0)
        | None => "ORDER-" +:+ OrderItem.order item0
        end in
      Some (WalletTransaction.mk entry.1 SELLER (Earnings.netEarning entry.2)
              Credit (EarningsFromOrder orderNumber) None None)
  | _, _ => None
  end.

(** The credits of a run of [createCommissions]. *)
Definition eagerCredits (db : DB) (items : list OrderItem.t)
    : list WalletTransaction.t :=
  omap (earningsTx db items) (fold_left (earningsStep db) items []).

(** [db'] differs from [db] at most in the balances of the sellers. *)
Definition sameUpToSellerBalances (db db' : DB) : Prop :=
  sameCatalogue db db' ∧ deliveries db' = deliveries db ∧
  ∀ sellerId,
    match sellers db !! sellerId, sellers db' !! sellerId with
    | Some s, Some s' =>
        Seller.commission s' = Seller.commission s ∧
        Seller.commissionRate s' = Seller.commissionRate s
    | None, None => True
    | _, _ => False
    end.

(** The items of one seller, and the commission that the eager path takes
    on a list of items. *)
Definition itemsOf (sellerId : Id) (items : list OrderItem.t)
    : list OrderItem.t :=
  filter (λ item, OrderItem.seller item = sellerId) items.

Definition eagerCommission (db : DB) (items : list OrderItem.t) : Q :=
  Qsum ((λ item, default 0%Q (snd <$> eagerItemCommission db item)) <$> items).

(** ** Reading [reverseCommissions] *)

(** The debit that the reversal makes for a record: none unless the record
    is Paid and names its subject. *)
Definition debitOf (orderId : Id) (c : Commission.t)
    : option WalletTransaction.t :=
  if decide (Commission.status c = Paid) then
    match (if decide (Commission.type c = Some SELLER)
           then Commission.seller c else Commission.deliveryBoy c),
          Commission.type c with
    | Some userId, Some userType =>
        Some (WalletTransaction.mk userId userType
                (Commission.commissionAmount c) Debit CommissionReversal
                (Some orderId) None)
    | _, _ => None
    end
  else None.

(** What a distribution followed by a reversal moves to one subject on
    account of one record. *)
Definition recordNet (order : Order.t) (orderId : Id) (userId : Id)
    (userType : UserType) (c : Commission.t) : Q :=
  (movement userId userType (omap (creditOf order) [c])
   + movement userId userType (omap (debitOf orderId) [c]))%Q.

(** The subject a record of a distribution stands for. *)
Definition subjectOf (c : Commission.t)
    : option UserType * option Id * option Id :=
  (Commission.type c, Commission.seller c, Commission.deliveryBoy c).

(** ** adminCommissionController.ts: settings and reports *)

Module RateSettings.
(** The fields of the settings document that the commission settings
    handlers read and write; [None] is [undefined]. *)
Record t := mk {
  sellerCommissionRate : option Q;
  deliveryBoyCommissionRate : option Q;
  minimumWithdrawalAmount : option Q
}.
End RateSettings.

Record SettingsReply := mkSettingsReply {
  settingsStatus : nat;
  settingsSuccess : bool;
  settingsMessage : option string;
  settingsData : option RateSettings.t
}.

(** [x < y] on numbers. *)
Definition lessThan (x y : Q) : bool := negb (Qle_bool y x).

(** [x || fallback] on an optional number. *)
Definition orNumber (x : option Q) (fallback : Q) : Q :=
  match x with
  | Some r => if truthy r then r else fallback
  | None => fallback
  end.

Section Settings.

(** The document that [AppSettings.create ({ appName, contactEmail,
    contactPhone })] stores: the three fields take the defaults of the
    schema, which is not among the sources. *)
Variable created : RateSettings.t.

(** [AppSettings.findOne ()], creating the document when there is none:
    the document in hand and the collection after the read. *)
Definition findOrCreateSettings (stored : option RateSettings.t)
    : RateSettings.t * option RateSettings.t :=
  match stored with
  | Some settingsDoc => (settingsDoc, Some settingsDoc)
  | None => (created, Some created)
  end.

Definition updateCommissionRates (stored : option RateSettings.t)
    (body : RateSettings.t) : option RateSettings.t * SettingsReply :=
  let '(settingsDoc, stored) := findOrCreateSettings stored in
  let bad m := (stored, mkSettingsReply 400 false (Some m) None) in
  let check (supplied : option Q) (outOfRange : Q -> bool) (m : string)
        (k : unit -> option RateSettings.t * SettingsReply) :=
    match supplied with
    | Some r => if outOfRange r then bad m else k tt
    | None => k tt
    end in
  check (RateSettings.sellerCommissionRate body)
    (λ r, lessThan r 0 || lessThan 100 r)
    "Seller commission rate must be between 0 and 100"
    (λ _,
  check (RateSettings.deliveryBoyCommissionRate body)
    (λ r, lessThan r 0 || lessThan 100 r)
    "Delivery boy commission rate must be between 0 and 100"
    (λ _,
  check (RateSettings.minimumWithdrawalAmount body)
    (λ r, lessThan r 0)
    "Minimum withdrawal amount cannot be negative"
    (λ _,
  let pick (supplied previous : option Q) :=
    match supplied with Some r => Some r | None => previous end in
  let saved :=
    RateSettings.mk
      (pick (RateSettings.sellerCommissionRate body)
            (RateSettings.sellerCommissionRate settingsDoc))
      (pick (RateSettings.deliveryBoyCommissionRate body)
            (RateSettings.deliveryBoyCommissionRate settingsDoc))
      (pick (RateSettings.minimumWithdrawalAmount body)
            (RateSettings.minimumWithdrawalAmount settingsDoc)) in
  (Some saved,
   mkSettingsReply 200 true (Some "Commission rates updated successfully")
     (Some saved))))).

Definition getCommissionSettings (stored : option RateSettings.t)
    : option RateSettings.t * SettingsReply :=
  let '(settingsDoc, stored) := findOrCreateSettings stored in
  (stored,
   mkSettingsReply 200 true None
     (Some (RateSettings.mk
              (Some (orNumber (RateSettings.sellerCommissionRate settingsDoc) 10))
              (Some (orNumber (RateSettings.deliveryBoyCommissionRate settingsDoc) 5))
              (Some (orNumber (RateSettings.minimumWithdrawalAmount settingsDoc)
                              100))))).

End Settings.

(** The body of an update passes validation: a supplied rate lies in
    [[0, 100]], a supplied minimum is not negative. *)
Definition ratesInRange (body : RateSettings.t) : Prop :=
  (∀ r, RateSettings.sellerCommissionRate body = Some r →
        (0 <= r)%Q ∧ (r <= 100)%Q) ∧
  (∀ r, RateSettings.deliveryBoyCommissionRate body = Some r →
        (0 <= r)%Q ∧ (r <= 100)%Q) ∧
  (∀ r, RateSettings.minimumWithdrawalAmount body = Some r → (0 <= r)%Q).

(** A supplied value fails its range test. *)
Definition suppliedBad (supplied : option Q) (outOfRange : Q → bool) : bool :=
  match supplied with
  | Some r => outOfRange r
  | None => false
  end.

Module ReportSummary.
(** The [summary] object of [getCommissionReport]. *)
Record t := mk {
  totalCommissions : Q;
  sellerCommissions : Q;
  deliveryBoyCommissions : Q;
  paidCommissions : Q;
  pendingCommissions : Q;
  count : nat
}.
End ReportSummary.

(** The summary that [getCommissionReport] computes over the records its
    query returned: the [forEach] over [commissions]. *)
Definition commissionReportSummary (commissions : list Commission.t)
    : ReportSummary.t :=
  fold_left
    (λ summary c,
       let amount := Commission.commissionAmount c in
       let isSeller := bool_decide (Commission.type c = Some SELLER) in
       ReportSummary.mk
         (ReportSummary.totalCommissions summary + amount)%Q
         (if isSeller then (ReportSummary.sellerCommissions summary + amount)%Q
          else ReportSummary.sellerCommissions summary)
         (if isSeller then ReportSummary.deliveryBoyCommissions summary
          else (ReportSummary.deliveryBoyCommissions summary + amount)%Q)
         (match Commission.status c with
          | Paid => (ReportSummary.paidCommissions summary + amount)%Q
          | _ => ReportSummary.paidCommissions summary
          end)
         (match Commission.status c with
          | Pending => (ReportSummary.pendingCommissions summary + amount)%Q
          | _ => ReportSummary.pendingCommissions summary
          end)
         (ReportSummary.count summary))
    commissions
    (ReportSummary.mk 0 0 0 0 0 (length commissions)).

Module CommissionSummary.
(** An element of [summary.commissions] and the summary of
    [getCommissionSummary]. *)
Record entry := mkEntry {
  id : nat;
  orderId : Id;
  amount : Q;
  rate : Q;
  orderAmount : Q;
  status : CommissionStatus;
  paidAt : option Date
}.
Record t := mk {
  total : Q;
  paid : Q;
  pending : Q;
  count : nat;
  commissions : list entry
}.
End CommissionSummary.

(** [Commission.find (query).sort ({ createdAt: -1 })]: the records of the
    subject, newest first; records are appended as they are created, so
    this is the collection filtered and reversed. *)
Definition commissionsOf (db : DB) (userId : Id) (userType : UserType)
    : list Commission.t :=
  reverse
    (filter (λ c, match userType with
                  | SELLER => Commission.seller c
                  | DELIVERY_BOY => Commission.deliveryBoy c
                  end = Some userId)
            (commissions db)).

Definition getCommissionSummary (db : DB) (userId : Id) (userType : UserType)
    : CommissionSummary.t :=
  let found := commissionsOf db userId userType in
  fold_left
    (λ summary c,
       let amount := Commission.commissionAmount c in
       CommissionSummary.mk
         (CommissionSummary.total summary + amount)%Q
         (match Commission.status c with
          | Paid => (CommissionSummary.paid summary + amount)%Q
          | _ => CommissionSummary.paid summary
          end)
         (match Commission.status c with
          | Pending => (CommissionSummary.pending summary + amount)%Q
          | _ => CommissionSummary.pending summary
          end)
         (CommissionSummary.count summary)
         (CommissionSummary.commissions summary))
    found
    (CommissionSummary.mk 0 0 0 (length found)
       ((λ c, CommissionSummary.mkEntry (Commission._id c) (Commission.order c)
                (Commission.commissionAmount c) (Commission.commissionRate c)
                (Commission.orderAmount c) (Commission.status c)
                (Commission.paidAt c)) <$> found)).

(** The sum of the commission amounts of the records with a property. *)
Definition amountWhere (P : Commission.t → Prop) `{∀ c, Decision (P c)}
    (cs : list Commission.t) : Q :=
  Qsum (Commission.commissionAmount <$> filter P cs).


(** The sum of one field of the shares held in a map of seller shares. *)
Definition sumOver (f : Share → Q) (m : list (Id * Share)) : Q :=
  Qsum ((λ entry, f entry.2) <$> m).

(** The commission the batched path takes on the items [l], each at the
    rate of its own seller. *)
Definition platformCut (db : DB) (l : list OrderItem.t) : Q :=
  Qsum ((λ item, OrderItem.total item
                 * getSellerCommissionRate db (OrderItem.seller item) / 100)%Q
          <$> l).

(** ** The delivery amount on doubles

    [calculateOrderCommissions] computes the amount of the delivery share
    with the arithmetic of JavaScript numbers, IEEE 754 binary64.  The
    three expressions are given here on the kernel's binary64 floats, whose
    operations round to nearest, ties to even, as those of the source. *)

Module Double.
Import PrimFloat SpecFloat FloatOps.

(** [Math.round] on a double: the integer nearest to [x], a tie going up.
    A value that is integral already (every double of exponent [0] or
    more), a zero, an infinity and NaN are returned as they are; a value
    that rounds to zero keeps its sign. *)
Definition Math_round (x : float) : float :=
  match Prim2SF x with
  | S754_finite s m e =>
      if (0 <=? e)%Z then x
      else
        let twice := (if s then - (2 * Z.pos m) else 2 * Z.pos m)%Z in
        let n := ((twice + 2 ^ (- e)) / 2 ^ (1 - e))%Z in
        if (n =? 0)%Z then (if s then neg_zero else zero)
        else if (n <? 0)%Z then opp (of_uint63 (Uint63.of_Z (- n)))
        else of_uint63 (Uint63.of_Z n)
  | _ => x
  end.

(** [Math.round (commissionAmount * 100) / 100]. *)
Definition roundedAmount (commissionAmount : float) : float :=
  div (Math_round (mul commissionAmount 100%float)) 100%float.

(** The percentage branch: [(order.subtotal * commissionRate) / 100],
    then rounded. *)
Definition percentageAmount (subtotal commissionRate : float) : float :=
  roundedAmount (div (mul subtotal commissionRate) 100%float).

(** The distance branch: [order.deliveryDistanceKm * commissionRate], then
    rounded. *)
Definition distanceAmount (deliveryDistanceKm commissionRate : float) : float :=
  roundedAmount (mul deliveryDistanceKm commissionRate).
End Double.

(** [y] is [x] rounded to the nearest cent: [y] is a whole number of
    hundredths at most half a cent away from [x].  At a half-cent tie both
    neighbours qualify. *)
Definition roundedToCent (x y : Q) : Prop :=
  (∃ n : Z, y == inject_Z n / 100)%Q ∧
  (y - (1 # 200) <= x)%Q ∧ (x <= y + (1 # 200))%Q.

(** Distance-based settings with a negative rate of -3 per km, and an order
    of 2 km with a subtotal of 200. *)
Definition order_negative_rate : Order.t :=
  Order.mk "N3" "Delivered" [] (Some "d1") 200%Q (Some 2%Q).

Definition db_negative_rate : DB :=
  mkDB {[ "o3" := order_negative_rate ]} ∅ ∅
       {[ "d1" := Delivery.mk None 0%Q ]}
       ∅ ∅ ∅
       (Some (AppSettings.mk
                (Some (AppSettings.mkConfig (Some true) (Some (-3)%Q)))))
       [] [] ∅.

(** An item of order "o1" sold by "s2", a seller without a record in
    [db_one_item]. *)
Definition item_missing_seller : OrderItem.t :=
  OrderItem.mk "i2" "o1" "s2" "p1" 100%Q.

(** [db_one_item] with the order still stored as Out for Delivery. *)
Definition db_out_for_delivery : DB :=
  mkDB {[ "o1" := Order.mk "N1" "Out for Delivery" ["i1"] None 100%Q None ]}
       {[ "i1" := OrderItem.mk "i1" "o1" "s1" "p1" 100%Q ]}
       {[ "s1" := Seller.mk None None 0%Q ]}
       ∅ ∅ ∅ ∅ None [] [] ∅.
(** * Properties *)

(** ** Numbers *)

Lemma positive_true (x : Q) : positive x = true ↔ (0 < x)%Q.
Proof.
  unfold positive. rewrite negb_true_iff, <- not_true_iff_false, Qle_bool_iff.
  split; [apply Qnot_le_lt | apply Qlt_not_le].
Qed.

Lemma positive_false (x : Q) : positive x = false ↔ (x <= 0)%Q.
Proof.
  unfold positive. rewrite negb_false_iff, Qle_bool_iff. reflexivity.
Qed.

Lemma truthy_true (x : Q) : truthy x = true ↔ ¬ (x == 0)%Q.
Proof.
  unfold truthy. rewrite negb_true_iff, <- not_true_iff_false, Qeq_bool_iff.
  reflexivity.
Qed.

Lemma positive_truthy (x : Q) : positive x = true → truthy x = true.
Proof.
  rewrite positive_true, truthy_true. intros H E. rewrite E in H.
  exact (Qlt_irrefl 0 H).
Qed.

Lemma positive_nonzero (x : Q) : positive x = true → Qeq_bool x 0 = false.
Proof.
  intros H. apply positive_truthy in H. unfold truthy in H.
  now apply negb_true_iff in H.
Qed.

(** ** Rate resolution on a missing record (C9) *)

Lemma getSellerCommissionRate_missing (db : DB) (sellerId : Id) :
  sellers db !! sellerId = None → getSellerCommissionRate db sellerId = 10%Q.
Proof.
  intros H. unfold getSellerCommissionRate, getSellerCommissionRate_try.
  now rewrite H.
Qed.

Lemma getDeliveryBoyCommissionRate_missing (db : DB) (deliveryBoyId : Id) :
  deliveries db !! deliveryBoyId = None →
  getDeliveryBoyCommissionRate db deliveryBoyId = 5%Q.
Proof.
  intros H. unfold getDeliveryBoyCommissionRate, getDeliveryBoyCommissionRate_try.
  now rewrite H.
Qed.

(** C9, as the code has it.  When the record of a seller or of a delivery
    partner cannot be found, [getSellerCommissionRate] returns the default
    10 and [getDeliveryBoyCommissionRate] the default 5: the error thrown
    inside is caught.  On the batched path an item of a missing seller is
    computed at 10 percent and [calculateOrderCommissions] succeeds for
    every order that exists.  On the eager path no default applies: an item
    of a missing seller is passed over, no rate is resolved, no record is
    written and nobody is credited for it, and the pass goes on without an
    error. *)
Theorem C9_missing_subject_fails_soft (db : DB) :
  (∀ sellerId, sellers db !! sellerId = None →
     getSellerCommissionRate_try db sellerId = Throw "Seller not found" ∧
     getSellerCommissionRate db sellerId = 10%Q) ∧
  (∀ deliveryBoyId, deliveries db !! deliveryBoyId = None →
     getDeliveryBoyCommissionRate_try db deliveryBoyId
       = Throw "Delivery boy not found" ∧
     getDeliveryBoyCommissionRate db deliveryBoyId = 5%Q) ∧
  (∀ orderItem, sellers db !! OrderItem.seller orderItem = None →
     itemCommission db orderItem
       = (10%Q, (OrderItem.total orderItem * 10 / 100)%Q)) ∧
  (∀ orderId order, orders db !! orderId = Some order →
     ∃ data, calculateOrderCommissions db orderId = Ok data) ∧
  (∀ item sellerEarningsMap, sellers db !! OrderItem.seller item = None →
     eagerItemCommission db item = None ∧
     createCommission (db, sellerEarningsMap) item = (db, sellerEarningsMap)).
Proof.
  split; [| split; [| split; [| split]]].
  - intros sellerId H. split.
    + unfold getSellerCommissionRate_try. now rewrite H.
    + now apply getSellerCommissionRate_missing.
  - intros deliveryBoyId H. split.
    + unfold getDeliveryBoyCommissionRate_try. now rewrite H.
    + now apply getDeliveryBoyCommissionRate_missing.
  - intros orderItem H. unfold itemCommission.
    now rewrite (getSellerCommissionRate_missing _ _ H).
  - intros orderId order H. unfold calculateOrderCommissions. rewrite H. eauto.
  - intros item m H. unfold createCommission, eagerItemCommission.
    now rewrite H.
Qed.

Lemma C9_missing_subject_fails_soft_witness :
  getSellerCommissionRate db_one_item "s2" = 10%Q ∧
  getDeliveryBoyCommissionRate db_one_item "d1" = 5%Q ∧
  (∃ data, calculateOrderCommissions db_one_item "o1" = Ok data).
Proof.
  destruct (C9_missing_subject_fails_soft db_one_item) as (Hs & Hd & _ & Hc & _).
  split; [apply (Hs "s2"); reflexivity |].
  split; [apply (Hd "d1"); reflexivity |].
  apply (Hc "o1" (Order.mk "N1" "Delivered" ["i1"] None 100%Q None)).
  reflexivity.
Defined.

(** C9 as stated fails on the eager path: for an item whose seller has no
    record, [createCommissions] resolves no rate at all; it writes no
    Commission record at the default 10 percent and credits nobody, and the
    database is left as it was.  The batched path, for the same item,
    computes a commission at 10 percent. *)
Lemma C9_counterexample :
  sellers db_one_item !! OrderItem.seller item_missing_seller = None ∧
  eagerItemCommission db_one_item item_missing_seller = None ∧
  createCommissions db_one_item [item_missing_seller] = db_one_item ∧
  commissions (createCommissions db_one_item [item_missing_seller]) = [] ∧
  itemCommission db_one_item item_missing_seller = (10%Q, (100 * 10 / 100)%Q).
Proof. repeat split. Qed.

(** ** Rate priority of the eager path (C3) *)

Lemma levelRate_Some (collection : gmap Id Category.t) (ref : Id) (r : Q) :
  levelRate (collection !! ref) = Some r ↔
  overrideOf (Some ref) collection = Some r ∧ (0 < r)%Q.
Proof.
  unfold levelRate, overrideOf.
  destruct (collection !! ref) as [doc|]; [| now split; [| intros []]].
  destruct (Category.commissionRate doc) as [x|]; [| now split; [| intros []]].
  destruct (positive x) eqn:Hp.
  - rewrite (positive_truthy _ Hp). simpl. apply positive_true in Hp.
    split; [intros [= <-]; auto | now intros []].
  - rewrite andb_false_r. apply positive_false in Hp.
    split; [discriminate |]. intros [[= <-] H].
    exfalso. exact (Qlt_not_le _ _ H Hp).
Qed.

Lemma levelRate_None (collection : gmap Id Category.t) (ref : Id) :
  levelRate (collection !! ref) = None →
  ∀ rest fallback,
    firstPositive (overrideOf (Some ref) collection :: rest) fallback
    = firstPositive rest fallback.
Proof.
  intros H rest fallback.
  destruct (overrideOf (Some ref) collection) as [r|] eqn:Ho; [| reflexivity].
  simpl. destruct (Qlt_le_dec 0 r) as [Hr|]; [| reflexivity].
  assert (levelRate (collection !! ref) = Some r) as E
    by (apply levelRate_Some; auto).
  congruence.
Qed.

Lemma firstPositive_hit (r : Q) (rest : list (option Q)) (fallback : Q) :
  (0 < r)%Q → firstPositive (Some r :: rest) fallback = r.
Proof.
  intros H. simpl. destruct (Qlt_le_dec 0 r) as [|Hle]; [reflexivity |].
  exfalso. exact (Qlt_not_le _ _ H Hle).
Qed.

Lemma firstPositive_pos (candidates : list (option Q)) (fallback : Q) :
  (0 < fallback)%Q → (0 < firstPositive candidates fallback)%Q.
Proof.
  intros H. induction candidates as [|[r|] rest IH]; simpl; auto.
  destruct (Qlt_le_dec 0 r); auto.
Qed.

Lemma resolveCommissionRate_steps (db : DB) (seller : Seller.t) (productId : Id) :
  resolveCommissionRate db seller productId
  = let cur :=
      match products db !! productId with
      | None => 0%Q
      | Some product =>
          levelStep
            (levelStep
               (levelStep 0 (Product.subSubCategory product) (categories db))
               (Product.subcategory product) (subCategories db))
            (Product.category product) (categories db)
      end in
    let cur := sellerStep cur seller in
    if Qeq_bool cur 0 then 10%Q else cur.
Proof.
  unfold resolveCommissionRate. destruct (products db !! productId); reflexivity.
Qed.

Lemma levelStep_zero (ref : option Id) (collection : gmap Id Category.t)
    (rest : list (option Q)) (fallback : Q) :
  (levelStep 0 ref collection = 0%Q ∧
   firstPositive (overrideOf ref collection :: rest) fallback
   = firstPositive rest fallback) ∨
  ((0 < levelStep 0 ref collection)%Q ∧
   firstPositive (overrideOf ref collection :: rest) fallback
   = levelStep 0 ref collection).
Proof.
  unfold levelStep. simpl Qeq_bool. cbv iota.
  destruct ref as [ref|]; [| left; auto].
  destruct (levelRate (collection !! ref)) as [r|] eqn:Hl.
  - right. apply levelRate_Some in Hl as [Ho Hr]. split; [exact Hr |].
    rewrite Ho. now apply firstPositive_hit.
  - left. split; [reflexivity |]. now apply levelRate_None.
Qed.

Lemma levelStep_pos (cur : Q) (ref : option Id) (collection : gmap Id Category.t) :
  (0 < cur)%Q → levelStep cur ref collection = cur.
Proof.
  intros H. unfold levelStep.
  now rewrite positive_nonzero by (now apply positive_true).
Qed.

Lemma sellerStep_zero (seller : Seller.t) :
  (if Qeq_bool (sellerStep 0 seller) 0 then 10%Q else sellerStep 0 seller)
  = firstPositive [Seller.commission seller] 10.
Proof.
  unfold sellerStep. simpl Qeq_bool. cbv iota.
  destruct (Seller.commission seller) as [r|]; [| reflexivity].
  simpl. destruct (positive r) eqn:Hp.
  - rewrite (positive_nonzero _ Hp). apply positive_true in Hp.
    destruct (Qlt_le_dec 0 r) as [|Hle]; [reflexivity |].
    exfalso. exact (Qlt_not_le _ _ Hp Hle).
  - apply positive_false in Hp. simpl.
    destruct (Qlt_le_dec 0 r) as [Hlt|]; [| reflexivity].
    exfalso. exact (Qlt_not_le _ _ Hlt Hp).
Qed.

Lemma sellerStep_pos (cur : Q) (seller : Seller.t) :
  (0 < cur)%Q →
  (if Qeq_bool (sellerStep cur seller) 0 then 10%Q else sellerStep cur seller)
  = cur.
Proof.
  intros H. pose proof (proj2 (positive_true cur) H) as Hp.
  unfold sellerStep. now rewrite !(positive_nonzero _ Hp).
Qed.

Lemma resolveCommissionRate_priority (db : DB) (seller : Seller.t)
    (productId : Id) :
  resolveCommissionRate db seller productId
  = firstPositive (rateCandidates db seller productId) 10.
Proof.
  rewrite resolveCommissionRate_steps.
  unfold rateCandidates, classificationCandidates. cbv zeta.
  destruct (products db !! productId) as [product|]; [| apply sellerStep_zero].
  set (rs := Seller.commission seller). simpl app.
  destruct (levelStep_zero (Product.subSubCategory product) (categories db)
              [overrideOf (Product.subcategory product) (subCategories db);
               overrideOf (Product.category product) (categories db); rs] 10)
    as [[E1 F1]|[P1 F1]]; rewrite F1.
  2:{ rewrite !(levelStep_pos _ _ _ P1). now apply sellerStep_pos. }
  rewrite E1.
  destruct (levelStep_zero (Product.subcategory product) (subCategories db)
              [overrideOf (Product.category product) (categories db); rs] 10)
    as [[E2 F2]|[P2 F2]]; rewrite F2.
  2:{ rewrite !(levelStep_pos _ _ _ P2). now apply sellerStep_pos. }
  rewrite E2.
  destruct (levelStep_zero (Product.category product) (categories db) [rs] 10)
    as [[E3 F3]|[P3 F3]]; rewrite F3.
  2:{ now apply sellerStep_pos. }
  rewrite E3. apply sellerStep_zero.
Qed.

(** C3, as the code has it.  The two resolvers cited by the claim differ.
    On the eager path ([createCommissions]) the rate of an order item is the
    first positive value among: the override of the product's
    sub-sub-category, of its sub-category, of its category, the seller's own
    override ([commission]); and 10 when none is positive.  The batched
    resolver [getSellerCommissionRate] never looks at the product: it
    returns the seller's [commissionRate] whenever that field is set,
    whatever its sign, and 10 otherwise.  With a sub-sub-category at 8, a
    sub-category at 12 and a seller override at 15 the eager path resolves
    8 and the batched resolver 15. *)
Theorem C3_rate_priority (db : DB) (item : OrderItem.t) (seller : Seller.t) :
  sellers db !! OrderItem.seller item = Some seller →
  let rate := firstPositive (rateCandidates db seller (OrderItem.product item)) 10 in
  let batched := default 10%Q (Seller.commissionRate seller) in
  eagerItemCommission db item
    = Some (rate, (OrderItem.total item * rate / 100)%Q) ∧
  getSellerCommissionRate db (OrderItem.seller item) = batched ∧
  itemCommission db item = (batched, (OrderItem.total item * batched / 100)%Q) ∧
  (∀ product,
     products db !! OrderItem.product item = Some product →
     overrideOf (Product.subSubCategory product) (categories db) = Some 8%Q →
     overrideOf (Product.subcategory product) (subCategories db) = Some 12%Q →
     Seller.commission seller = Some 15%Q →
     Seller.commissionRate seller = Some 15%Q →
     rate = 8%Q ∧ batched = 15%Q).
Proof.
  intros Hs rate batched.
  assert (getSellerCommissionRate db (OrderItem.seller item) = batched) as Hb.
  { unfold getSellerCommissionRate, getSellerCommissionRate_try. rewrite Hs.
    subst batched. now destruct (Seller.commissionRate seller). }
  split; [| split; [exact Hb | split]].
  - unfold eagerItemCommission. rewrite Hs.
    now rewrite resolveCommissionRate_priority.
  - unfold itemCommission. now rewrite Hb.
  - intros product Hp H8 H12 H15 H15'. subst rate batched. split.
    + unfold rateCandidates, classificationCandidates.
      rewrite Hp, H8. reflexivity.
    + now rewrite H15'.
Qed.

Lemma C3_rate_priority_witness :
  eagerItemCommission db_priority item_priority
    = Some (8%Q, (100 * 8 / 100)%Q) ∧
  getSellerCommissionRate db_priority "s1" = 15%Q ∧
  firstPositive
    (rateCandidates db_priority (Seller.mk (Some 15%Q) (Some 15%Q) 0%Q) "p1") 10
    = 8%Q.
Proof.
  destruct (C3_rate_priority db_priority item_priority
              (Seller.mk (Some 15%Q) (Some 15%Q) 0%Q) eq_refl)
    as (H1 & H2 & _ & H3).
  split; [exact H1 |]. split; [exact H2 |].
  exact (proj1 (H3 (Product.mk "Tea" (Some "c3") (Some "c2") (Some "c1"))
                   eq_refl eq_refl eq_refl eq_refl eq_refl)).
Defined.

(** C3 as stated fails on the batched path: for the product of the claim's
    example (sub-sub-category 8, sub-category 12, seller override 15)
    [getSellerCommissionRate] resolves 15, not 8, and
    [calculateOrderCommissions] charges the seller's share at 15 percent;
    a seller whose [commissionRate] is set to 0 or below is charged that
    rate, not the default. *)
Lemma C3_counterexample :
  firstPositive
    (rateCandidates db_priority (Seller.mk (Some 15%Q) (Some 15%Q) 0%Q) "p1") 10
    = 8%Q ∧
  getSellerCommissionRate db_priority "s1" = 15%Q ∧
  calculateOrderCommissions db_priority "o1"
    = Ok (mkCommissions [("s1", mkShare (100 * 15 / 100) 15 100)] None) ∧
  ¬ (15 == 8)%Q ∧
  getSellerCommissionRate
    (set_sellers {[ "s1" := Seller.mk (Some 0%Q) None 0%Q ]} db_priority) "s1"
    = 0%Q.
Proof.
  split; [reflexivity |]. split; [reflexivity |]. split; [reflexivity |].
  split; [intros H; discriminate H | reflexivity].
Qed.

(** ** The two paths compared (C4) *)

Lemma firstPositive_app (l1 l2 : list (option Q)) (fallback : Q) :
  firstPositive (l1 ++ l2) fallback
  = firstPositive l1 (firstPositive l2 fallback).
Proof.
  induction l1 as [|[r|] l1 IH]; simpl; [reflexivity | | exact IH].
  destruct (Qlt_le_dec 0 r); [reflexivity | exact IH].
Qed.

Lemma firstPositive_none (l : list (option Q)) (fallback : Q) :
  Forall (λ c, ∀ r, c = Some r → (r <= 0)%Q) l →
  firstPositive l fallback = fallback.
Proof.
  induction 1 as [|[r|] l Hc _ IH]; simpl; [reflexivity | | exact IH].
  destruct (Qlt_le_dec 0 r) as [Hlt|]; [| exact IH].
  exfalso. exact (Qlt_not_le _ _ Hlt (Hc r eq_refl)).
Qed.

(** C4, as the code has it.  Both paths compute the amount of an item as
    [total * rate / 100] and neither rounds it; they resolve the same rate
    when the seller's record exists, no classification level of the product
    carries a positive rate, and the seller's two override fields
    ([commission], read by the eager path, and [commissionRate], read by the
    batched one) hold the same value, positive or unset. *)
Theorem C4_paths_agree_without_overrides (db : DB) (item : OrderItem.t)
    (seller : Seller.t) :
  sellers db !! OrderItem.seller item = Some seller →
  Forall (λ c, ∀ r, c = Some r → (r <= 0)%Q)
         (classificationCandidates db (OrderItem.product item)) →
  Seller.commission seller = Seller.commissionRate seller →
  (∀ r, Seller.commissionRate seller = Some r → (0 < r)%Q) →
  eagerItemCommission db item = Some (itemCommission db item) ∧
  snd (itemCommission db item)
    = (OrderItem.total item * fst (itemCommission db item) / 100)%Q.
Proof.
  intros Hs Hc Hf Hr. split; [| reflexivity].
  unfold eagerItemCommission, itemCommission. rewrite Hs.
  rewrite resolveCommissionRate_priority. unfold rateCandidates.
  rewrite firstPositive_app, (firstPositive_none _ _ Hc).
  unfold getSellerCommissionRate, getSellerCommissionRate_try.
  rewrite Hs, Hf.
  destruct (Seller.commissionRate seller) as [r|]; [| reflexivity].
  now rewrite (firstPositive_hit r [] 10 (Hr r eq_refl)).
Qed.

Lemma C4_paths_agree_without_overrides_witness :
  eagerItemCommission db_one_item item_priority
    = Some (itemCommission db_one_item item_priority).
Proof.
  refine (proj1 (C4_paths_agree_without_overrides db_one_item item_priority
                   (Seller.mk None None 0%Q) eq_refl _ eq_refl _)).
  - constructor.
  - intros r H. discriminate H.
Defined.

(** C4 as stated fails: for the item of [db_priority] the eager path
    resolves 8 percent (the sub-sub-category) and a commission of 8, the
    batched path 15 percent (the seller) and a commission of 15. *)
Lemma C4_counterexample :
  eagerItemCommission db_priority item_priority
    = Some (8%Q, (100 * 8 / 100)%Q) ∧
  itemCommission db_priority item_priority = (15%Q, (100 * 15 / 100)%Q) ∧
  ¬ (8 == 15)%Q ∧
  ¬ (100 * 8 / 100 == 100 * 15 / 100)%Q.
Proof.
  split; [reflexivity |]. split; [reflexivity |].
  split; intros H; discriminate H.
Qed.

(** ** Delivery commission (C6) *)

Lemma Math_round_hundredths (x : Q) :
  roundedHalfUp2 x (Math_round (x * 100) / 100).
Proof.
  unfold roundedHalfUp2, Math_round.
  set (n := Qfloor (x * 100 + (1 # 2))).
  pose proof (Qfloor_le (x * 100 + (1 # 2))) as Hle.
  pose proof (Qlt_floor (x * 100 + (1 # 2))) as Hlt.
  fold n in Hle, Hlt. rewrite inject_Z_plus in Hlt.
  change (inject_Z 1) with 1%Q in Hlt.
  split; [exists n; reflexivity |].
  generalize dependent (inject_Z n). intros q Hle Hlt.
  unfold Qdiv. change (/ 100)%Q with (1 # 100)%Q. split; lra.
Qed.

Lemma Math_round_cent (x : Q) :
  roundedToCent x (Math_round (x * 100) / 100).
Proof.
  destruct (Math_round_hundredths x) as (Hn & Hle & Hlt).
  split; [exact Hn |]. split; [exact Hle | now apply Qlt_le_weak].
Qed.

Lemma distanceCommission_Some (db : DB) (order : Order.t) (kmRate distance : Q) :
  distanceMode db order kmRate distance →
  distanceCommission db order = Some (kmRate, (distance * kmRate)%Q).
Proof.
  intros (s & config & Hs & Hc & Hb & Hk & Hd & Hnz & Hpos).
  unfold distanceCommission. rewrite Hs, Hc, Hb, Hk, Hd.
  apply truthy_true in Hnz. apply positive_true in Hpos.
  now rewrite Hnz, Hpos, (positive_truthy _ Hpos).
Qed.

Lemma distanceCommission_None (db : DB) (order : Order.t) :
  (∀ kmRate distance, ¬ distanceMode db order kmRate distance) →
  distanceCommission db order = None.
Proof.
  intros Hno. unfold distanceCommission.
  destruct (settings db) as [s|] eqn:Hs; [| reflexivity].
  destruct (AppSettings.deliveryConfig s) as [config|] eqn:Hc; [| reflexivity].
  destruct (AppSettings.isDistanceBased config) as [[]|] eqn:Hb;
    [| reflexivity | reflexivity].
  destruct (AppSettings.deliveryBoyKmRate config) as [kmRate|] eqn:Hk;
    [| reflexivity].
  destruct (Order.deliveryDistanceKm order) as [distance|] eqn:Hd;
    [| reflexivity].
  destruct (truthy kmRate) eqn:Ht; [| reflexivity].
  destruct (positive distance) eqn:Hp; [| now rewrite andb_false_r].
  exfalso. apply (Hno kmRate distance). exists s, config.
  apply truthy_true in Ht. apply positive_true in Hp. auto 10.
Qed.

(** C6, as the code has it.  For an order with a delivery partner: when
    distance-based mode is on, the per-km rate is not zero (a negative rate
    counts) and the distance is positive, the commission is distance times
    rate rounded to the nearest cent and the recorded orderAmount is the
    distance; otherwise the commission is subtotal times the percentage
    rate divided by 100, rounded to the nearest cent as well, and the
    orderAmount is the subtotal.  Rounded to the nearest cent: a whole
    number of cents at most half a cent away; which way an exact half-cent
    tie goes is not claimed, since the doubles of the source decide it.
    With rate 10 per km and 7.5 km the commission is 75 and the orderAmount
    7.5. *)
Theorem C6_delivery_commission (db : DB) (order : Order.t) (deliveryBoyId : Id) :
  Order.deliveryBoy order = Some deliveryBoyId →
  ∃ share,
    deliveryBoyCommission db order = Some (deliveryBoyId, share) ∧
    (∀ kmRate distance, distanceMode db order kmRate distance →
       roundedToCent (distance * kmRate) (amount share) ∧
       rate share = kmRate ∧ orderAmount share = distance) ∧
    ((∀ kmRate distance, ¬ distanceMode db order kmRate distance) →
       let percentage := getDeliveryBoyCommissionRate db deliveryBoyId in
       roundedToCent (Order.subtotal order * percentage / 100) (amount share) ∧
       rate share = percentage ∧ orderAmount share = Order.subtotal order) ∧
    (distanceMode db order 10 (75 # 10) →
       (amount share == 75)%Q ∧ (orderAmount share == 75 # 10)%Q).
Proof.
  intros Hd. unfold deliveryBoyCommission. rewrite Hd.
  destruct (distanceCommission db order) as [[r a]|] eqn:Hdc.
  - eexists. split; [reflexivity |]. simpl. split; [| split].
    + intros kmRate distance Hm.
      pose proof Hm as (_ & _ & _ & _ & _ & _ & Hdist & _).
      rewrite (distanceCommission_Some _ _ _ _ Hm) in Hdc.
      injection Hdc as <- <-. rewrite Hdist. simpl.
      split; [apply Math_round_cent | auto].
    + intros Hno. rewrite (distanceCommission_None _ _ Hno) in Hdc.
      discriminate Hdc.
    + intros Hm. pose proof Hm as (_ & _ & _ & _ & _ & _ & Hdist & _).
      rewrite (distanceCommission_Some _ _ _ _ Hm) in Hdc.
      injection Hdc as <- <-. rewrite Hdist. split; reflexivity.
  - eexists. split; [reflexivity |]. simpl. split; [| split].
    + intros kmRate distance Hm.
      rewrite (distanceCommission_Some _ _ _ _ Hm) in Hdc. discriminate Hdc.
    + intros _. split; [apply Math_round_cent | auto].
    + intros Hm.
      rewrite (distanceCommission_Some _ _ _ _ Hm) in Hdc. discriminate Hdc.
Qed.

Lemma C6_delivery_commission_witness :
  ∃ share,
    deliveryBoyCommission db_distance order_distance = Some ("d1", share) ∧
    (amount share == 75)%Q ∧ (orderAmount share == 75 # 10)%Q.
Proof.
  destruct (C6_delivery_commission db_distance order_distance "d1" eq_refl)
    as (share & Hshare & _ & _ & H75).
  exists share. split; [exact Hshare |]. apply H75.
  exists (AppSettings.mk (Some (AppSettings.mkConfig (Some true) (Some 10%Q)))),
         (AppSettings.mkConfig (Some true) (Some 10%Q)).
  repeat split; try reflexivity. intros H; discriminate H.
Defined.

Section DoubleTie.
Import PrimFloat.

(** C6 as stated fails in three ways.  On the percentage branch the amount
    is rounded too: on a subtotal of 33.33 at 5 percent the code records
    1.67, not 33.33 * 5 / 100 = 1.6665.  A per-km rate that is not positive
    but negative still selects the distance branch: at -3 per km and 2 km
    the share is -6 with orderAmount 2, where the claim has 5 percent of
    the subtotal.  And a half-cent tie does not always go up: on a subtotal
    of 20.5 at 5 percent the product is 1.025, half up would be 1.03, but
    on doubles [(20.5 * 5) / 100 * 100] falls below 102.5, so that
    [Math.round] gives 102 and the code records 102 / 100. *)
Lemma C6_counterexample :
  (distanceCommission db_percentage order_percentage = None ∧
   getDeliveryBoyCommissionRate db_percentage "d1" = 5%Q ∧
   deliveryBoyCommission db_percentage order_percentage
     = Some ("d1", mkShare (167 # 100) 5 (3333 # 100)) ∧
   ¬ (167 # 100 == (3333 # 100) * 5 / 100)%Q) ∧
  (¬ (0 < -3)%Q ∧
   ∃ share,
     deliveryBoyCommission db_negative_rate order_negative_rate
       = Some ("d1", share) ∧
     (amount share == -6)%Q ∧ rate share = (-3)%Q ∧ orderAmount share = 2%Q ∧
     ¬ (amount share
        == Order.subtotal order_negative_rate
           * getDeliveryBoyCommissionRate db_negative_rate "d1" / 100)%Q) ∧
  (roundedHalfUp2 ((205 # 10) * 5 / 100) (103 # 100) ∧
   PrimFloat.ltb
     (PrimFloat.mul (PrimFloat.div (PrimFloat.mul 20.5 5) 100) 100)%float
     102.5%float = true ∧
   Double.Math_round
     (PrimFloat.mul (PrimFloat.div (PrimFloat.mul 20.5 5) 100) 100)%float
     = 102%float ∧
   Double.percentageAmount 20.5 5 = PrimFloat.div 102 100 ∧
   PrimFloat.ltb (Double.percentageAmount 20.5 5) (PrimFloat.div 103 100)
     = true).
Proof.
  split; [| split].
  - split; [reflexivity |]. split; [reflexivity |]. split; [reflexivity |].
    intros H; discriminate H.
  - split; [intros H; discriminate H |].
    eexists. split; [reflexivity |].
    split; [reflexivity |]. split; [reflexivity |]. split; [reflexivity |].
    intros H; discriminate H.
  - split.
    + split; [exists 103%Z; reflexivity |].
      split; [intros H; discriminate H | reflexivity].
    + repeat split; vm_compute; reflexivity.
Qed.

End DoubleTie.

(** ** The ledger *)

Lemma DB_eta (db : DB) :
  mkDB (orders db) (orderItems db) (sellers db) (deliveries db) (products db)
       (categories db) (subCategories db) (settings db) (commissions db)
       (walletTransactions db) (withdrawRequests db) = db.
Proof. now destruct db. Qed.

Lemma balanceOf_setBalance (userId : Id) (userType : UserType) (b b' : Q) (db : DB) :
  balanceOf userId userType db = Some b →
  balanceOf userId userType (setBalance userId userType b' db) = Some b'.
Proof.
  destruct userType; simpl; rewrite lookup_alter_eq;
    destruct (_ !! userId); simpl; congruence.
Qed.

Lemma balanceOf_setBalance_other (userId userId' : Id) (userType userType' : UserType)
    (b : Q) (db : DB) :
  (userId, userType) ≠ (userId', userType') →
  balanceOf userId' userType' (setBalance userId userType b db)
  = balanceOf userId' userType' db.
Proof.
  intros Hne. destruct userType, userType'; simpl; try reflexivity;
    rewrite lookup_alter_ne; congruence.
Qed.

Lemma creditWallet_Ok (userId : Id) (userType : UserType) (amount b : Q)
    (description : Description) (relatedOrder : option Id)
    (relatedCommission : option nat) (db : DB) :
  balanceOf userId userType db = Some b →
  creditWallet userId userType amount description relatedOrder relatedCommission db
  = Ok (set_walletTransactions
          (walletTransactions db ++
             [WalletTransaction.mk userId userType amount Credit description
                relatedOrder relatedCommission])
          (setBalance userId userType (b + amount)%Q db)).
Proof. intros H. unfold creditWallet. now rewrite H. Qed.

Lemma creditWallet_Throw (userId : Id) (userType : UserType) (amount : Q)
    (description : Description) (relatedOrder : option Id)
    (relatedCommission : option nat) (db : DB) :
  balanceOf userId userType db = None →
  creditWallet userId userType amount description relatedOrder relatedCommission db
  = Throw "User not found".
Proof. intros H. unfold creditWallet. now rewrite H. Qed.

(** ** Withdrawals (C7, C8, C10) *)

Lemma truthyS_Some (a : string) : a ≠ "" → truthyS (Some a) = Some a.
Proof. intros H. unfold truthyS. now destruct (decide (a = "")). Qed.

Lemma processWithdrawal_check_pending (db : DB) (body : Body) (i : Id)
    (a : string) (request : WithdrawRequest.t) :
  idToProcess body = Some i → action body = Some a → a ≠ "" →
  withdrawRequests db !! i = Some request →
  WithdrawRequest.status request = WPending →
  processWithdrawal_check db body = Proceed i a request.
Proof.
  intros Hi Ha Hne Hr Hs. unfold processWithdrawal_check.
  rewrite Hi, Ha, (truthyS_Some _ Hne), Hr, Hs.
  now destruct (decide (WPending ≠ WPending)).
Qed.

(** A request that is no longer Pending is refused, and nothing changes. *)
Lemma processWithdrawal_not_pending (db : DB) (now : Date) (body : Body) (i : Id)
    (a : string) (request : WithdrawRequest.t) :
  idToProcess body = Some i → action body = Some a → a ≠ "" →
  withdrawRequests db !! i = Some request →
  WithdrawRequest.status request ≠ WPending →
  processWithdrawal db now body
  = (db, mkReply 400 (mkResponse false "Request is already processed" None)).
Proof.
  intros Hi Ha Hne Hr Hs. unfold processWithdrawal, processWithdrawal_check.
  rewrite Hi, Ha, (truthyS_Some _ Hne), Hr.
  now destruct (decide (WithdrawRequest.status request ≠ WPending)).
Qed.

Lemma saveRequest_unchanged (i : Id) (db : DB) : saveRequest i (λ r, r) db = db.
Proof.
  unfold saveRequest, set_withdrawRequests.
  rewrite alter_id by auto. apply DB_eta.
Qed.

(** C10, as the code has it.  On a Pending request, an action that is not
    empty and is neither Approve nor Reject is answered with a success
    while the database is left as it was: the request stays Pending and
    no balance or wallet transaction is written. *)
Theorem C10_unknown_action_is_a_noop (db : DB) (now : Date) (body : Body)
    (i : Id) (a : string) (request : WithdrawRequest.t) :
  idToProcess body = Some i →
  action body = Some a → a ≠ "" → a ≠ "Approve" → a ≠ "Reject" →
  withdrawRequests db !! i = Some request →
  WithdrawRequest.status request = WPending →
  processWithdrawal db now body
  = (db, mkReply 200
           (mkResponse true ("Withdrawal " +:+ a +:+ "ed successfully") None)).
Proof.
  intros Hi Ha Hne HnA HnR Hr Hs. unfold processWithdrawal.
  rewrite (processWithdrawal_check_pending _ _ _ _ _ Hi Ha Hne Hr Hs).
  unfold processWithdrawal_txn, processWithdrawal_try.
  destruct (decide (a = "Approve")); [contradiction |].
  destruct (decide (a = "Reject")); [contradiction |].
  now rewrite saveRequest_unchanged.
Qed.

Lemma C10_unknown_action_is_a_noop_witness :
  processWithdrawal db_withdraw 7%Z (mkBody (Some "Hold") None (Some "w1") None)
  = (db_withdraw,
     mkReply 200 (mkResponse true "Withdrawal Holded successfully" None)).
Proof.
  apply (C10_unknown_action_is_a_noop db_withdraw 7%Z
           (mkBody (Some "Hold") None (Some "w1") None) "w1" "Hold" request_500);
    first [reflexivity | discriminate].
Defined.

(** C10 as stated fails for the empty action, which is an action other
    than Approve and Reject: the handler answers 400 without success. *)
Lemma C10_counterexample :
  processWithdrawal db_withdraw 7%Z (mkBody (Some "") None (Some "w1") None)
  = (db_withdraw,
     mkReply 400
       (mkResponse false "Request ID and Action are required" None)).
Proof. reflexivity. Qed.

(** C8. Rejecting a Pending request credits the requester with the amount
    of the request (the balance grows by it and one Credit transaction of
    that amount is appended) and marks the request Rejected with the remark
    and the time of processing, the other requests being untouched; when
    the credit cannot be made nothing is written at all. *)
Theorem C8_reject_refunds (db : DB) (now : Date) (body : Body) (i : Id)
    (request : WithdrawRequest.t) :
  idToProcess body = Some i →
  action body = Some "Reject" →
  withdrawRequests db !! i = Some request →
  WithdrawRequest.status request = WPending →
  let userId := WithdrawRequest.userId request in
  let userType := WithdrawRequest.userType request in
  let amount := WithdrawRequest.amount request in
  let '(db', reply) := processWithdrawal db now body in
  match balanceOf userId userType db with
  | Some b =>
      reply = mkReply 200
                (mkResponse true "Withdrawal Rejected successfully" None) ∧
      balanceOf userId userType db' = Some (b + amount)%Q ∧
      (∀ userId' userType', (userId, userType) ≠ (userId', userType') →
         balanceOf userId' userType' db' = balanceOf userId' userType' db) ∧
      walletTransactions db'
        = walletTransactions db ++
            [WalletTransaction.mk userId userType amount Credit
               (WithdrawalRejected i) None None] ∧
      withdrawRequests db' !! i
        = Some (WithdrawRequest.mk userId userType amount WRejected
                  (remark body) (Some now)) ∧
      (∀ j, j ≠ i → withdrawRequests db' !! j = withdrawRequests db !! j)
  | None =>
      db' = db ∧ statusCode reply = 500 ∧ success (json reply) = false
  end.
Proof.
  intros Hi Ha Hr Hs. cbv zeta. unfold processWithdrawal.
  rewrite (processWithdrawal_check_pending _ _ _ _ _ Hi Ha ltac:(discriminate) Hr Hs).
  unfold processWithdrawal_txn, processWithdrawal_try.
  destruct (decide ("Reject" = "Approve")) as [E|_]; [discriminate E |].
  destruct (decide ("Reject" = "Reject")) as [_|N]; [| contradiction].
  destruct (balanceOf _ _ db) as [b|] eqn:Hb.
  - rewrite (creditWallet_Ok _ _ _ _ _ _ _ _ Hb). simpl.
    split; [reflexivity |].
    split; [exact (balanceOf_setBalance _ _ _ _ _ Hb) |].
    split; [intros u t Hne; now apply balanceOf_setBalance_other |].
    split; [now destruct (WithdrawRequest.userType request) |].
    split.
    + destruct (WithdrawRequest.userType request) eqn:Ht; simpl;
        rewrite lookup_alter_eq, Hr; simpl; unfold reject; now rewrite Ht.
    + intros j Hj.
      destruct (WithdrawRequest.userType request); simpl;
        now rewrite lookup_alter_ne.
  - rewrite (creditWallet_Throw _ _ _ _ _ _ _ Hb). simpl. auto.
Qed.

Lemma C8_reject_refunds_witness :
  let '(db', reply) := processWithdrawal db_withdraw 7%Z body_reject in
  success (json reply) = true ∧
  balanceOf "s1" SELLER db' = Some (0 + 500)%Q ∧
  walletTransactions db'
    = [WalletTransaction.mk "s1" SELLER 500%Q Credit (WithdrawalRejected "w1")
         None None] ∧
  withdrawRequests db' !! "w1"
    = Some (WithdrawRequest.mk "s1" SELLER 500%Q WRejected (Some "No KYC")
              (Some 7%Z)).
Proof.
  pose proof (C8_reject_refunds db_withdraw 7%Z body_reject "w1" request_500
                eq_refl eq_refl eq_refl eq_refl) as H.
  cbv zeta in H.
  destruct (processWithdrawal db_withdraw 7%Z body_reject) as [db' reply].
  change (balanceOf (WithdrawRequest.userId request_500)
            (WithdrawRequest.userType request_500) db_withdraw)
    with (Some 0%Q) in H.
  destruct H as (Hreply & Hb & _ & Htx & Hw & _).
  split; [now rewrite Hreply |].
  split; [exact Hb |]. split; [exact Htx | exact Hw].
Defined.

(** C7. The handler tests the status of the request on a document read
    before the transaction starts, and the transaction does not test it
    again.  Two calls for the same Pending request that both read it before
    either commits are both answered with a success: with Approve the
    request is approved twice, with Reject the requester is refunded twice
    (500 twice on a balance of 0).  Run one after the other, the second call
    is refused. *)
Theorem C7_racing_calls_both_succeed :
  (let '(db', reply1, reply2) :=
     processWithdrawal_racing db_withdraw 1%Z 2%Z body_approve body_approve in
   statusCode reply1 = 200 ∧ success (json reply1) = true ∧
   statusCode reply2 = 200 ∧ success (json reply2) = true ∧
   WithdrawRequest.processedAt <$> withdrawRequests db' !! "w1" = Some (Some 2%Z)) ∧
  (let '(db', reply1, reply2) :=
     processWithdrawal_racing db_withdraw 1%Z 2%Z body_reject body_reject in
   statusCode reply1 = 200 ∧ success (json reply1) = true ∧
   statusCode reply2 = 200 ∧ success (json reply2) = true ∧
   balanceOf "s1" SELLER db' = Some (0 + 500 + 500)%Q ∧
   length (walletTransactions db') = 2) ∧
  (let '(db1, reply1) := processWithdrawal db_withdraw 1%Z body_reject in
   let '(db2, reply2) := processWithdrawal db1 2%Z body_reject in
   statusCode reply1 = 200 ∧ statusCode reply2 = 400 ∧
   message (json reply2) = "Request is already processed" ∧
   balanceOf "s1" SELLER db2 = Some (0 + 500)%Q).
Proof.
  vm_compute. repeat split; reflexivity.
Qed.

(** ** The seller shares of an order (C5) *)

Lemma Map_get_set {V} (k : Id) (v : V) (m : list (Id * V)) :
  Map_get k (Map_set k v m) = Some v.
Proof.
  induction m as [|[k' v'] m IH]; simpl.
  - now destruct (decide (k = k)).
  - destruct (decide (k' = k)) as [->|Hne]; simpl.
    + now destruct (decide (k = k)).
    + now destruct (decide (k' = k)).
Qed.

Lemma Map_get_set_other {V} (k k' : Id) (v : V) (m : list (Id * V)) :
  k ≠ k' → Map_get k' (Map_set k v m) = Map_get k' m.
Proof.
  intros Hne. induction m as [|[k0 v0] m IH]; simpl.
  - now destruct (decide (k = k')).
  - destruct (decide (k0 = k)) as [->|Hk]; simpl.
    + now destruct (decide (k = k')).
    + destruct (decide (k0 = k')); [reflexivity | exact IH].
Qed.

Lemma Map_set_keys {V} (k : Id) (v : V) (m : list (Id * V)) :
  (Map_set k v m).*1
  = match Map_get k m with
    | Some _ => m.*1
    | None => m.*1 ++ [k]
    end.
Proof.
  induction m as [|[k' v'] m IH]; [reflexivity |].
  cbn [Map_set Map_get].
  destruct (decide (k' = k)) as [->|Hne]; [reflexivity |].
  rewrite !fmap_cons, IH. now destruct (Map_get k m).
Qed.

Lemma Map_get_None {V} (k : Id) (m : list (Id * V)) :
  Map_get k m = None ↔ k ∉ m.*1.
Proof.
  induction m as [|[k' v'] m IH]; simpl.
  - split; [intros _; apply not_elem_of_nil | reflexivity].
  - rewrite not_elem_of_cons.
    destruct (decide (k' = k)) as [->|Hne].
    + split; [discriminate | intros [H _]; contradiction].
    + rewrite IH. split; [intros H; split; [congruence | exact H] | now intros []].
Qed.

Lemma Map_set_NoDup {V} (k : Id) (v : V) (m : list (Id * V)) :
  NoDup m.*1 → NoDup (Map_set k v m).*1.
Proof.
  intros Hm. rewrite Map_set_keys.
  destruct (Map_get k m) eqn:Hg; [exact Hm |].
  apply NoDup_app. split; [exact Hm |]. split; [| apply NoDup_singleton].
  intros x Hx Hk. apply list_elem_of_singleton in Hk as ->.
  now apply Map_get_None in Hg.
Qed.

Lemma Map_get_elem {V} (k : Id) (v : V) (m : list (Id * V)) :
  NoDup m.*1 → (k, v) ∈ m → Map_get k m = Some v.
Proof.
  induction m as [|[k' v'] m IH]; simpl; intros Hnd Hin.
  - now apply elem_of_nil in Hin.
  - apply NoDup_cons in Hnd as [Hk' Hnd].
    apply elem_of_cons in Hin as [[= <- <-]|Hin].
    + now destruct (decide (k = k)).
    + destruct (decide (k' = k)) as [->|Hne]; [| now apply IH].
      exfalso. apply Hk'. apply list_elem_of_fmap. now exists (k, v).
Qed.

Lemma Map_get_Some_elem {V} (k : Id) (v : V) (m : list (Id * V)) :
  Map_get k m = Some v → (k, v) ∈ m.
Proof.
  induction m as [|[k' v'] m IH]; simpl; [discriminate |].
  destruct (decide (k' = k)) as [->|Hne].
  - intros [= ->]. apply elem_of_cons. now left.
  - intros H. apply elem_of_cons. right. now apply IH.
Qed.

Lemma sumCommissions_sumTotals (r : Q) (l : list OrderItem.t) :
  (sumCommissions r l == sumTotals l * r / 100)%Q.
Proof.
  unfold sumCommissions, sumTotals.
  induction l as [|item l IH].
  - reflexivity.
  - rewrite !fmap_cons. unfold Qsum in *. cbn [fold_right]. rewrite IH.
    unfold Qdiv. change (/ 100)%Q with (1 # 100)%Q. ring.
Qed.

Lemma accumulate_get (db : DB) (m : list (Id * Share)) (itemId sellerId : Id) :
  Map_get sellerId (accumulate db m itemId)
  = match orderItems db !! itemId with
    | None => Map_get sellerId m
    | Some item =>
        if decide (OrderItem.seller item = sellerId) then
          let r := getSellerCommissionRate db sellerId in
          let c := (OrderItem.total item * r / 100)%Q in
          Some match Map_get sellerId m with
               | Some e =>
                   mkShare (amount e + c)%Q (rate e)
                           (orderAmount e + OrderItem.total item)%Q
               | None => mkShare c r (OrderItem.total item)
               end
        else Map_get sellerId m
    end.
Proof.
  unfold accumulate. destruct (orderItems db !! itemId) as [item|]; [| reflexivity].
  unfold itemCommission.
  destruct (decide (OrderItem.seller item = sellerId)) as [<-|Hne].
  - destruct (Map_get (OrderItem.seller item) m); now rewrite Map_get_set.
  - destruct (Map_get (OrderItem.seller item) m);
      now rewrite Map_get_set_other.
Qed.

Lemma accumulate_NoDup (db : DB) (m : list (Id * Share)) (itemId : Id) :
  NoDup m.*1 → NoDup (accumulate db m itemId).*1.
Proof.
  intros H. unfold accumulate.
  destruct (orderItems db !! itemId) as [item|]; [| exact H].
  destruct (itemCommission db item).
  destruct (Map_get (OrderItem.seller item) m); now apply Map_set_NoDup.
Qed.

Lemma accumulate_fold_NoDup (db : DB) (ids : list Id) (m : list (Id * Share)) :
  NoDup m.*1 → NoDup (fold_left (accumulate db) ids m).*1.
Proof.
  revert m. induction ids as [|itemId ids IH]; intros m H; simpl; [exact H |].
  apply IH. now apply accumulate_NoDup.
Qed.

Lemma sellerItems_cons (db : DB) (itemId : Id) (ids : list Id) (sellerId : Id) :
  sellerItems db (itemId :: ids) sellerId
  = match orderItems db !! itemId with
    | None => sellerItems db ids sellerId
    | Some item =>
        if decide (OrderItem.seller item = sellerId)
        then item :: sellerItems db ids sellerId
        else sellerItems db ids sellerId
    end.
Proof.
  unfold sellerItems, foundItems. cbn [omap list_omap].
  destruct (orderItems db !! itemId) as [item|]; [| reflexivity].
  rewrite filter_cons. now destruct (decide (OrderItem.seller item = sellerId)).
Qed.

Lemma sumTotals_cons (item : OrderItem.t) (l : list OrderItem.t) :
  sumTotals (item :: l) = (OrderItem.total item + sumTotals l)%Q.
Proof. reflexivity. Qed.

Lemma sumCommissions_cons (r : Q) (item : OrderItem.t) (l : list OrderItem.t) :
  sumCommissions r (item :: l)
  = (OrderItem.total item * r / 100 + sumCommissions r l)%Q.
Proof. reflexivity. Qed.

(** What the loop over the items leaves in the map for one seller. *)
Lemma accumulate_fold (db : DB) (ids : list Id) (sellerId : Id) :
  ∀ m : list (Id * Share),
  let m' := fold_left (accumulate db) ids m in
  let r := getSellerCommissionRate db sellerId in
  let its := sellerItems db ids sellerId in
  match Map_get sellerId m with
  | Some e =>
      ∃ s, Map_get sellerId m' = Some s ∧
           (orderAmount s == orderAmount e + sumTotals its)%Q ∧
           (amount s == amount e + sumCommissions r its)%Q ∧
           rate s = rate e
  | None =>
      (its = [] ∧ Map_get sellerId m' = None) ∨
      (its ≠ [] ∧
       ∃ s, Map_get sellerId m' = Some s ∧
            (orderAmount s == sumTotals its)%Q ∧
            (amount s == sumCommissions r its)%Q ∧
            rate s = r)
  end.
Proof.
  induction ids as [|itemId ids IH]; intros m; cbv zeta.
  - cbn [fold_left]. destruct (Map_get sellerId m) as [e|] eqn:He.
    + exists e. split; [reflexivity |].
      change (sellerItems db [] sellerId) with (@nil OrderItem.t).
      unfold sumTotals, sumCommissions, Qsum. cbn.
      split; [ring | split; [ring | reflexivity]].
    + left. auto.
  - cbn [fold_left].
    specialize (IH (accumulate db m itemId)). cbv zeta in IH.
    rewrite accumulate_get in IH. rewrite sellerItems_cons.
    destruct (orderItems db !! itemId) as [item|]; [| exact IH].
    destruct (decide (OrderItem.seller item = sellerId)) as [Hs|Hs]; [| exact IH].
    cbv zeta in IH. destruct IH as (s & Hget & Hoa & Ham & Hr).
    rewrite sumTotals_cons, sumCommissions_cons.
    destruct (Map_get sellerId m) as [e|]; cbn in Hoa, Ham, Hr.
    + exists s. split; [exact Hget |].
      split; [rewrite Hoa; ring |]. split; [rewrite Ham; ring | exact Hr].
    + right. split; [discriminate |]. exists s. auto.
Qed.

(** ** What a distribution writes (C1, C5) *)

Lemma Qsum_app (l1 l2 : list Q) : (Qsum (l1 ++ l2) == Qsum l1 + Qsum l2)%Q.
Proof.
  unfold Qsum. induction l1 as [|x l1 IH]; cbn [app fold_right].
  - ring.
  - rewrite IH. ring.
Qed.

Lemma movement_app (userId : Id) (userType : UserType)
    (txs1 txs2 : list WalletTransaction.t) :
  (movement userId userType (txs1 ++ txs2)
   == movement userId userType txs1 + movement userId userType txs2)%Q.
Proof. unfold movement. rewrite filter_app, fmap_app. apply Qsum_app. Qed.

Lemma balanceMoved_refl (db : DB) : balanceMoved db db [].
Proof.
  intros u t. destruct (balanceOf u t db); [| exact I].
  unfold movement, Qsum. cbn. ring.
Qed.

Lemma balanceMoved_trans (db db1 db2 : DB) (txs1 txs2 : list WalletTransaction.t) :
  balanceMoved db db1 txs1 → balanceMoved db1 db2 txs2 →
  balanceMoved db db2 (txs1 ++ txs2).
Proof.
  intros H1 H2 u t. specialize (H1 u t). specialize (H2 u t).
  destruct (balanceOf u t db), (balanceOf u t db1), (balanceOf u t db2);
    try contradiction; [| exact I].
  rewrite movement_app, H2, H1. ring.
Qed.

Lemma sameCatalogue_refl (db : DB) : sameCatalogue db db.
Proof. repeat split. Qed.

Lemma sameCatalogue_trans (db db1 db2 : DB) :
  sameCatalogue db db1 → sameCatalogue db1 db2 → sameCatalogue db db2.
Proof.
  unfold sameCatalogue. intros (?&?&?&?&?&?&?) (?&?&?&?&?&?&?).
  repeat split; congruence.
Qed.

Lemma Distributed_refl (order : Order.t) (db : DB) : Distributed order db db [].
Proof.
  split; cbn [omap list_omap].
  - now rewrite app_nil_r.
  - now rewrite app_nil_r.
  - apply sameCatalogue_refl.
  - apply balanceMoved_refl.
Qed.

Lemma Distributed_trans (order : Order.t) (db db1 db2 : DB)
    (news1 news2 : list Commission.t) :
  Distributed order db db1 news1 → Distributed order db1 db2 news2 →
  Distributed order db db2 (news1 ++ news2).
Proof.
  intros [Hc1 Hl1 Hs1 Hb1] [Hc2 Hl2 Hs2 Hb2]. split.
  - now rewrite Hc2, Hc1, app_assoc.
  - now rewrite Hl2, Hl1, omap_app, app_assoc.
  - exact (sameCatalogue_trans _ _ _ Hs1 Hs2).
  - rewrite omap_app. exact (balanceMoved_trans _ _ _ _ _ Hb1 Hb2).
Qed.

(** One record written and credited to its subject. *)
Lemma credit_Distributed (order : Order.t) (db db' : DB) (c : Commission.t)
    (tx : WalletTransaction.t) :
  creditOf order c = Some tx →
  WalletTransaction.type tx = Credit →
  creditWallet (WalletTransaction.userId tx) (WalletTransaction.userType tx)
    (WalletTransaction.amount tx) (WalletTransaction.description tx)
    (WalletTransaction.relatedOrder tx) (WalletTransaction.relatedCommission tx)
    (insertCommission c db) = Ok db' →
  Distributed order db db' [c].
Proof.
  intros Hc Hty Hw. unfold creditWallet in Hw.
  destruct (balanceOf _ _ (insertCommission c db)) as [b|] eqn:Hb;
    [| discriminate Hw].
  injection Hw as <-.
  assert (WalletTransaction.mk (WalletTransaction.userId tx)
            (WalletTransaction.userType tx) (WalletTransaction.amount tx) Credit
            (WalletTransaction.description tx) (WalletTransaction.relatedOrder tx)
            (WalletTransaction.relatedCommission tx) = tx) as Etx
    by (destruct tx; simpl in *; now subst).
  rewrite Etx.
  split; cbn [omap list_omap]; rewrite ?Hc.
  - now destruct (WalletTransaction.userType tx).
  - now destruct (WalletTransaction.userType tx).
  - destruct (WalletTransaction.userType tx); repeat split.
  - intros u t.
    destruct (decide ((WalletTransaction.userId tx, WalletTransaction.userType tx)
                      = (u, t))) as [[= <- <-]|Hne].
    + assert (balanceOf (WalletTransaction.userId tx)
                (WalletTransaction.userType tx) db = Some b) as Hb'
        by (now destruct (WalletTransaction.userType tx)).
      rewrite Hb'.
      assert (∀ x, balanceOf (WalletTransaction.userId tx)
                (WalletTransaction.userType tx)
                (set_walletTransactions x
                   (setBalance (WalletTransaction.userId tx)
                      (WalletTransaction.userType tx)
                      (b + WalletTransaction.amount tx)%Q (insertCommission c db)))
              = Some (b + WalletTransaction.amount tx)%Q) as ->.
      { intros x. rewrite <- (balanceOf_setBalance _ _ _ _ _ Hb).
        now destruct (WalletTransaction.userType tx). }
      unfold movement. rewrite filter_cons.
      destruct (decide _) as [_|N]; [| now destruct N].
      rewrite filter_nil. unfold Qsum, signed. cbn. rewrite Hty. ring.
    + assert (∀ x b', balanceOf u t
                (set_walletTransactions x
                   (setBalance (WalletTransaction.userId tx)
                      (WalletTransaction.userType tx) b' (insertCommission c db)))
              = balanceOf u t db) as ->.
      { intros x b'.
        rewrite <- (balanceOf_setBalance_other _ _ _ _ b' db Hne).
        now destruct t, (WalletTransaction.userType tx). }
      destruct (balanceOf u t db); [| exact I].
      unfold movement. rewrite filter_cons.
      destruct (decide _) as [[E1 E2]|_]; [exfalso; apply Hne; congruence |].
      rewrite filter_nil. unfold Qsum. cbn. ring.
Qed.

Lemma distributeSeller_Ok (orderId : Id) (order : Order.t) (now : Date)
    (db db' : DB) (created created' : list Commission.t) (entry : Id * Share) :
  distributeSeller orderId order now (db, created) entry = Ok (db', created') →
  let c := sellerRecord orderId now (length (commissions db)) entry in
  created' = created ++ [c] ∧ Distributed order db db' [c].
Proof.
  destruct entry as [sellerId share]. unfold distributeSeller.
  intros H. cbv zeta.
  destruct (creditWallet _ _ _ _ _ _ _) as [db1|] eqn:Hw; [| discriminate H].
  injection H as <- <-. split; [reflexivity |].
  eapply credit_Distributed; [reflexivity | reflexivity | exact Hw].
Qed.

Lemma distributeSellers_Ok (orderId : Id) (order : Order.t) (now : Date)
    (l : list (Id * Share)) :
  ∀ (db db' : DB) (created created' : list Commission.t),
  distributeSellers orderId order now l (db, created) = Ok (db', created') →
  ∃ news,
    created' = created ++ news ∧ Distributed order db db' news ∧
    Forall2 (λ c entry, ∃ n, c = sellerRecord orderId now n entry) news l.
Proof.
  induction l as [|entry l IH]; intros db db' created created' H.
  - injection H as <- <-. exists []. rewrite app_nil_r.
    split; [reflexivity |]. split; [apply Distributed_refl | constructor].
  - cbn [distributeSellers] in H.
    destruct (distributeSeller orderId order now (db, created) entry)
      as [[db1 created1]|] eqn:H1; [| discriminate H].
    apply distributeSeller_Ok in H1 as [-> Hd1].
    apply IH in H as (news & -> & Hd & Hf).
    eexists (_ :: news). rewrite <- app_assoc.
    split; [reflexivity |].
    split; [exact (Distributed_trans _ _ _ _ _ _ Hd1 Hd) |].
    constructor; [eauto | exact Hf].
Qed.

Lemma distributeDeliveryBoy_Ok (orderId : Id) (order : Order.t) (now : Date)
    (db db' : DB) (created created' : list Commission.t)
    (entry : option (Id * Share)) :
  distributeDeliveryBoy orderId order now (db, created) entry
    = Ok (db', created') →
  let news :=
    match entry with
    | Some entry => [deliveryRecord orderId now (length (commissions db)) entry]
    | None => []
    end in
  created' = created ++ news ∧ Distributed order db db' news.
Proof.
  destruct entry as [[deliveryBoyId share]|]; unfold distributeDeliveryBoy;
    intros H; cbv zeta.
  - destruct (creditWallet _ _ _ _ _ _ _) as [db1|] eqn:Hw; [| discriminate H].
    injection H as <- <-. split; [reflexivity |].
    eapply credit_Distributed; [reflexivity | reflexivity | exact Hw].
  - injection H as <- <-. rewrite app_nil_r.
    split; [reflexivity | apply Distributed_refl].
Qed.

(** What a successful run of the transaction has read and written. *)
Lemma distributeCommissions_try_Ok (orderId : Id) (now : Date) (db db' : DB)
    (created : list Commission.t) :
  distributeCommissions_try orderId now db = Ok (db', created) →
  ∃ order data sellerNews deliveryNews,
    orders db !! orderId = Some order ∧
    Order.status order = "Delivered" ∧
    findCommissions orderId db = [] ∧
    calculateOrderCommissions db orderId = Ok data ∧
    created = sellerNews ++ deliveryNews ∧
    Distributed order db db' created ∧
    Forall2 (λ c entry, ∃ n, c = sellerRecord orderId now n entry)
            sellerNews (seller data) ∧
    match deliveryBoy data with
    | Some entry => ∃ n, deliveryNews = [deliveryRecord orderId now n entry]
    | None => deliveryNews = []
    end.
Proof.
  unfold distributeCommissions_try. intros H.
  destruct (orders db !! orderId) as [order|] eqn:Ho; [| discriminate H].
  destruct (decide (Order.status order ≠ "Delivered")) as [|Hst];
    [discriminate H |].
  apply dec_stable in Hst.
  destruct (decide (0 < length (findCommissions orderId db))%nat) as [|Hlen];
    [discriminate H |].
  destruct (calculateOrderCommissions db orderId) as [data|] eqn:Hc;
    [| discriminate H].
  destruct (distributeSellers orderId order now (seller data) (db, []))
    as [[db1 created1]|] eqn:Hs; [| discriminate H].
  apply distributeSellers_Ok in Hs as (sellerNews & -> & Hd1 & Hf).
  apply distributeDeliveryBoy_Ok in H as [-> Hd2]. cbn [app] in *.
  eexists order, data, sellerNews, _.
  split; [reflexivity |]. split; [exact Hst |].
  split; [destruct (findCommissions orderId db); [reflexivity | simpl in Hlen; lia] |].
  split; [reflexivity |]. split; [reflexivity |].
  split; [exact (Distributed_trans _ _ _ _ _ _ Hd1 Hd2) |].
  split; [exact Hf |].
  destruct (deliveryBoy data); eauto.
Qed.

Lemma seller_share_sums (db : DB) (ids : list Id) (sellerId : Id) (share : Share) :
  (sellerId, share) ∈ fold_left (accumulate db) ids [] →
  let r := getSellerCommissionRate db sellerId in
  let its := sellerItems db ids sellerId in
  its ≠ [] ∧ (orderAmount share == sumTotals its)%Q ∧
  (amount share == sumCommissions r its)%Q ∧ rate share = r.
Proof.
  intros Hin. cbv zeta.
  apply Map_get_elem in Hin;
    [| apply accumulate_fold_NoDup; cbn; apply NoDup_nil_2].
  pose proof (accumulate_fold db ids sellerId []) as H. cbn [Map_get] in H.
  cbv zeta in H. destruct H as [[_ Hn]|(Hne & s & Hs & Hsums)]; [congruence |].
  rewrite Hin in Hs. injection Hs as <-. auto.
Qed.

Lemma seller_share_exists (db : DB) (ids : list Id) (sellerId : Id) :
  sellerItems db ids sellerId ≠ [] →
  ∃ share, (sellerId, share) ∈ fold_left (accumulate db) ids [].
Proof.
  intros Hne.
  pose proof (accumulate_fold db ids sellerId []) as H. cbn [Map_get] in H.
  cbv zeta in H. destruct H as [[He _]|(_ & s & Hs & _)]; [contradiction |].
  exists s. now apply Map_get_Some_elem.
Qed.

(** C5. After a successful [distributeCommissions] the records returned are
    the ones appended to the collection, the ledger has grown by exactly one
    Credit per record and every balance has moved by these credits; the
    seller of a record is credited orderAmount minus commissionAmount, the
    delivery partner the full commissionAmount; for a seller the net amount
    plus the commission equals the sum of the totals of the seller's items
    in the order; every seller with an item in the order has a record, and
    when the order names a delivery partner there is a DELIVERY_BOY record
    for that partner whose commissionAmount, the amount credited, is the
    one [calculateOrderCommissions] computed. *)
Theorem C5_net_proceeds (db db' : DB) (now : Date) (orderId : Id) (m : string)
    (created : list Commission.t) :
  distributeCommissions db now orderId
    = (db', mkResponse true m (Some created)) →
  ∃ order,
    orders db !! orderId = Some order ∧
    commissions db' = commissions db ++ created ∧
    walletTransactions db'
      = walletTransactions db ++ omap (creditOf order) created ∧
    balanceMoved db db' (omap (creditOf order) created) ∧
    Forall (creditedAsStated db order) created ∧
    (∀ sellerId, sellerItems db (Order.items order) sellerId ≠ [] →
       ∃ c, c ∈ created ∧ Commission.type c = Some SELLER ∧
            Commission.seller c = Some sellerId) ∧
    (∀ deliveryBoyId, Order.deliveryBoy order = Some deliveryBoyId →
       ∃ c share tx,
         c ∈ created ∧ Commission.type c = Some DELIVERY_BOY ∧
         Commission.deliveryBoy c = Some deliveryBoyId ∧
         deliveryBoyCommission db order = Some (deliveryBoyId, share) ∧
         Commission.commissionAmount c = amount share ∧
         creditOf order c = Some tx ∧ tx ∈ walletTransactions db' ∧
         WalletTransaction.userId tx = deliveryBoyId ∧
         WalletTransaction.userType tx = DELIVERY_BOY ∧
         WalletTransaction.type tx = Credit ∧
         WalletTransaction.amount tx = amount share).
Proof.
  unfold distributeCommissions. intros H.
  destruct (distributeCommissions_try orderId now db) as [[db1 created1]|] eqn:Ht;
    [| discriminate H].
  injection H as <- _ <-.
  apply distributeCommissions_try_Ok in Ht
    as (order & data & sellerNews & deliveryNews & Ho & _ & _ & Hc & -> & Hd & Hf & Hdel).
  unfold calculateOrderCommissions in Hc. rewrite Ho in Hc. injection Hc as <-.
  cbn [seller deliveryBoy] in Hf, Hdel.
  exists order. destruct Hd as [Hd1 Hd2 _ Hd4].
  split; [exact Ho |]. split; [exact Hd1 |]. split; [exact Hd2 |].
  split; [exact Hd4 |]. split; [| split].
  - apply Forall_app. split.
    + eapply Forall2_Forall_l; [exact Hf |].
      apply Forall_forall. intros [sellerId share] Hin c [n ->].
      apply seller_share_sums in Hin as (_ & Hoa & _ & _).
      eexists. split; [reflexivity |]. split; [reflexivity |].
      exists sellerId. cbn. repeat split. rewrite <- Hoa. ring.
    + unfold deliveryBoyCommission in Hdel.
      destruct (Order.deliveryBoy order) as [deliveryBoyId|] eqn:Hb.
      * destruct (match distanceCommission db order with
                  | Some _ => _ | None => _ end) as [[used r] a].
        destruct Hdel as [n ->]. apply Forall_singleton.
        eexists. split; [reflexivity |]. split; [reflexivity |].
        exists deliveryBoyId. cbn. auto.
      * subst deliveryNews. constructor.
  - intros sellerId Hne.
    apply seller_share_exists in Hne as [share Hin].
    apply list_elem_of_lookup_1 in Hin as [i Hi].
    destruct (Forall2_lookup_r _ _ _ _ _ Hf Hi) as (c & Hci & n & ->).
    exists (sellerRecord orderId now n (sellerId, share)).
    split; [| split; reflexivity].
    apply elem_of_app. left. exact (list_elem_of_lookup_2 _ _ _ Hci).
  - intros deliveryBoyId Hb.
    assert (∃ share, deliveryBoyCommission db order = Some (deliveryBoyId, share))
      as [share Hshare].
    { unfold deliveryBoyCommission. rewrite Hb.
      destruct (match distanceCommission db order with
                | Some _ => _ | None => _ end) as [[used r] a]. eauto. }
    rewrite Hshare in Hdel. destruct Hdel as [n ->].
    exists (deliveryRecord orderId now n (deliveryBoyId, share)), share.
    eexists. split; [apply elem_of_app; right; now apply list_elem_of_singleton |].
    split; [reflexivity |]. split; [reflexivity |]. split; [exact Hshare |].
    split; [reflexivity |]. split; [reflexivity |].
    split; [| repeat split].
    rewrite Hd2, omap_app. apply elem_of_app. right. apply elem_of_app. right.
    now apply list_elem_of_singleton.
Qed.

Lemma C5_net_proceeds_witness :
  ∃ order,
    orders db_delivered !! "o1" = Some order ∧
    walletTransactions (distributeCommissions db_delivered 1%Z "o1").1
      = omap (creditOf order)
          [sellerRecord "o1" 1%Z 0 ("s1", mkShare (100 * 10 / 100) 10 100);
           deliveryRecord "o1" 1%Z 1
             ("d1", mkShare (Math_round (100 * 5 / 100 * 100) / 100) 5 100)] ∧
    Forall (creditedAsStated db_delivered order)
      [sellerRecord "o1" 1%Z 0 ("s1", mkShare (100 * 10 / 100) 10 100);
       deliveryRecord "o1" 1%Z 1
         ("d1", mkShare (Math_round (100 * 5 / 100 * 100) / 100) 5 100)] ∧
    ∃ c tx,
      Commission.type c = Some DELIVERY_BOY ∧
      Commission.deliveryBoy c = Some "d1" ∧
      (Commission.commissionAmount c == 5)%Q ∧
      tx ∈ walletTransactions (distributeCommissions db_delivered 1%Z "o1").1 ∧
      WalletTransaction.userId tx = "d1" ∧
      WalletTransaction.amount tx = Commission.commissionAmount c.
Proof.
  destruct (C5_net_proceeds db_delivered
              (distributeCommissions db_delivered 1%Z "o1").1 1%Z "o1"
              "Commissions distributed successfully"
              [sellerRecord "o1" 1%Z 0 ("s1", mkShare (100 * 10 / 100) 10 100);
               deliveryRecord "o1" 1%Z 1
                 ("d1", mkShare (Math_round (100 * 5 / 100 * 100) / 100) 5 100)])
    as (order & Ho & _ & Hl & _ & Hf & _ & Hdel).
  - vm_compute. reflexivity.
  - exists order. split; [exact Ho |]. split; [exact Hl |]. split; [exact Hf |].
    assert (Order.deliveryBoy order = Some "d1") as Hb.
    { vm_compute in Ho. injection Ho as <-. reflexivity. }
    destruct (Hdel "d1" Hb)
      as (c & share & tx & _ & Ht & Hd & Hs & Ha & _ & Hin & Hu & _ & _ & Hx).
    exists c, tx. split; [exact Ht |]. split; [exact Hd |].
    split; [| split; [exact Hin | split; [exact Hu | congruence]]].
    rewrite Ha. vm_compute in Ho. injection Ho as <-.
    vm_compute in Hs. injection Hs as <-. reflexivity.
Defined.

(** ** Guards of the distribution (C1) *)

Lemma findCommissions_elem (orderId : Id) (db : DB) (c : Commission.t) :
  c ∈ commissions db → Commission.order c = orderId →
  (0 < length (findCommissions orderId db))%nat.
Proof.
  intros Hin Ho. unfold findCommissions.
  assert (c ∈ filter (λ c, Commission.order c = orderId) (commissions db)) as H
    by (apply list_elem_of_filter; auto).
  destruct (filter _ _); [now apply elem_of_nil in H | simpl; lia].
Qed.

Lemma distributeCommissions_already (db : DB) (now : Date) (orderId : Id)
    (order : Order.t) (c : Commission.t) :
  orders db !! orderId = Some order → Order.status order = "Delivered" →
  c ∈ commissions db → Commission.order c = orderId →
  distributeCommissions db now orderId
  = (db, mkResponse false "Commissions already distributed for this order" None).
Proof.
  intros Ho Hs Hin Hc.
  unfold distributeCommissions, distributeCommissions_try. rewrite Ho.
  destruct (decide (Order.status order ≠ "Delivered")); [contradiction |].
  pose proof (findCommissions_elem _ _ _ Hin Hc).
  now destruct (decide (0 < length (findCommissions orderId db))%nat).
Qed.

(** C1, as the code has it.  [distributeCommissions] fails with its
    order-not-found message when the order is absent, with its invalid-state
    message when the status is not Delivered, and with its
    already-distributed message when a Commission of the order exists; a
    call that fails leaves the database as it was; and after a call that
    succeeded and created at least one record, every further call for the
    order fails as already distributed and changes nothing. *)
Theorem C1_distribution_guards (db : DB) (now : Date) (orderId : Id) :
  let '(db', response) := distributeCommissions db now orderId in
  (orders db !! orderId = None →
     db' = db ∧ response = mkResponse false "Order not found" None) ∧
  (∀ order, orders db !! orderId = Some order →
     Order.status order ≠ "Delivered" →
     db' = db ∧
     response = mkResponse false
                  "Commissions can only be distributed for delivered orders" None) ∧
  (∀ order c, orders db !! orderId = Some order →
     Order.status order = "Delivered" →
     c ∈ commissions db → Commission.order c = orderId →
     db' = db ∧
     response = mkResponse false
                  "Commissions already distributed for this order" None) ∧
  (success response = false → db' = db) ∧
  (success response = true → data response ≠ Some [] →
     ∀ now',
       distributeCommissions db' now' orderId
       = (db', mkResponse false
                 "Commissions already distributed for this order" None)).
Proof.
  destruct (distributeCommissions db now orderId) as [db' response] eqn:Hrun.
  split; [| split; [| split; [| split]]].
  - intros Ho. unfold distributeCommissions, distributeCommissions_try in Hrun.
    rewrite Ho in Hrun. now injection Hrun as <- <-.
  - intros order Ho Hs.
    unfold distributeCommissions, distributeCommissions_try in Hrun.
    rewrite Ho in Hrun.
    destruct (decide (Order.status order ≠ "Delivered")); [| contradiction].
    now injection Hrun as <- <-.
  - intros order c Ho Hs Hin Hc.
    rewrite (distributeCommissions_already _ _ _ _ _ Ho Hs Hin Hc) in Hrun.
    now injection Hrun as <- <-.
  - intros Hf. unfold distributeCommissions in Hrun.
    destruct (distributeCommissions_try orderId now db) as [[db1 created]|];
      injection Hrun as <- <-; [discriminate Hf | reflexivity].
  - intros Hsuccess Hdata now'. unfold distributeCommissions in Hrun.
    destruct (distributeCommissions_try orderId now db) as [[db1 created]|] eqn:Ht;
      injection Hrun as <- <-; [| discriminate Hsuccess].
    apply distributeCommissions_try_Ok in Ht
      as (order & cs & sellerNews & deliveryNews
          & Ho & Hs & _ & _ & -> & [Hc _ Hcat _] & Hf & Hdel).
    assert (Forall (λ c, Commission.order c = orderId)
              (sellerNews ++ deliveryNews)) as Hall.
    { apply Forall_app. split.
      - eapply Forall2_Forall_l; [exact Hf |].
        apply Forall_forall. now intros entry _ c [n ->].
      - destruct (deliveryBoy cs) as [entry|].
        + destruct Hdel as [n ->]. now apply Forall_singleton.
        + subst deliveryNews. constructor. }
    destruct (sellerNews ++ deliveryNews) as [|c rest] eqn:Hnews;
      [now contradiction Hdata |].
    apply Forall_cons in Hall as [Hco _].
    destruct Hcat as (Hord & _).
    apply (distributeCommissions_already db1 now' orderId order c).
    + now rewrite Hord.
    + exact Hs.
    + rewrite Hc. apply elem_of_app. right. apply elem_of_cons. now left.
    + exact Hco.
Qed.

Lemma C1_distribution_guards_witness :
  distributeCommissions (distributeCommissions db_one_item 1%Z "o1").1 2%Z "o1"
  = ((distributeCommissions db_one_item 1%Z "o1").1,
     mkResponse false "Commissions already distributed for this order" None).
Proof.
  pose proof (C1_distribution_guards db_one_item 1%Z "o1") as H.
  destruct (distributeCommissions db_one_item 1%Z "o1") as [db' response] eqn:Hrun.
  destruct H as (_ & _ & _ & _ & H).
  vm_compute in Hrun. injection Hrun as <- <-.
  apply H; [reflexivity | discriminate].
Defined.

(** C1 as stated fails: for a delivered order without items and without a
    delivery partner the distribution succeeds, writes no record, and
    succeeds again. *)
Lemma C1_counterexample :
  let '(db1, response1) := distributeCommissions db_empty_order 1%Z "o0" in
  let '(db2, response2) := distributeCommissions db1 2%Z "o0" in
  success response1 = true ∧ success response2 = true ∧
  commissions db1 = [] ∧ db2 = db_empty_order.
Proof. vm_compute. repeat split; reflexivity. Qed.

(** ** Reversal (C2) *)

(** C2. On [db_delivered] the distribution credits the seller 90 (the total
    of 100 minus the commission of 10) and the delivery partner 5; the
    reversal then cancels both records and debits each subject by the
    commissionAmount of its record: the partner returns to 0, the seller is
    debited 10 and keeps 80 instead of returning to 0. *)
Theorem C2_reversal_leaves_seller_credited :
  let '(db1, response1) := distributeCommissions db_delivered 1%Z "o1" in
  let '(db2, response2) := reverseCommissions db1 "o1" in
  success response1 = true ∧ success response2 = true ∧
  balanceOf "s1" SELLER db_delivered = Some 0%Q ∧
  balanceOf "d1" DELIVERY_BOY db_delivered = Some 0%Q ∧
  (∃ b, balanceOf "s1" SELLER db1 = Some b ∧ (b == 90)%Q) ∧
  (∃ b, balanceOf "d1" DELIVERY_BOY db1 = Some b ∧ (b == 5)%Q) ∧
  (∃ b, balanceOf "s1" SELLER db2 = Some b ∧ (b == 80)%Q ∧ ¬ (b == 0)%Q) ∧
  (∃ b, balanceOf "d1" DELIVERY_BOY db2 = Some b ∧ (b == 0)%Q) ∧
  Commission.status <$> commissions db1 = [Paid; Paid] ∧
  Commission.status <$> commissions db2 = [Cancelled; Cancelled] ∧
  signed <$> walletTransactions db2
    = [(100 - 100 * 10 / 100)%Q; (Math_round (100 * 5 / 100 * 100) / 100)%Q;
       (- (100 * 10 / 100))%Q; (- (Math_round (100 * 5 / 100 * 100) / 100))%Q].
Proof.
  vm_compute.
  repeat split; try reflexivity;
    eexists; repeat split; try reflexivity; discriminate.
Qed.

(** * Properties of the rest of the services *)

(** ** Status transitions *)

Lemma Map_get_flat_map (k x : string) (table : list (Id * list string)) :
  (∃ l, Map_get k table = Some l ∧ x ∈ l) →
  (k, x) ∈ flat_map (λ entry, pair entry.1 <$> entry.2) table.
Proof.
  intros (l & Hg & Hx). apply Map_get_Some_elem in Hg.
  apply list_elem_of_In, in_flat_map. exists (k, l).
  split; [now apply list_elem_of_In |].
  apply list_elem_of_In, list_elem_of_fmap. now exists x.
Qed.

Lemma flat_map_Map_get (k x : string) (table : list (Id * list string)) :
  NoDup table.*1 →
  (k, x) ∈ flat_map (λ entry, pair entry.1 <$> entry.2) table →
  ∃ l, Map_get k table = Some l ∧ x ∈ l.
Proof.
  intros Hnd Hin. apply list_elem_of_In, in_flat_map in Hin as ([k' l] & Hin & Hx).
  apply list_elem_of_In, list_elem_of_fmap in Hx as (y & [= -> ->] & Hy).
  exists l. split; [| exact Hy].
  apply Map_get_elem; [exact Hnd | now apply list_elem_of_In].
Qed.

Lemma validTransition_edges (currentStatus newStatus : string) :
  validTransition currentStatus newStatus ↔
  (currentStatus, newStatus) ∈ transitionEdges.
Proof.
  unfold validTransition, validateStatusTransition, transitionEdges. split.
  - intros H. apply Map_get_flat_map.
    destruct (Map_get currentStatus validTransitions) as [allowed|] eqn:Hg.
    + exists allowed. split; [reflexivity |]. cbn in H.
      destruct (decide (newStatus ∈ allowed)); [assumption | discriminate H].
    + destruct (decide (currentStatus ∈ Object_prototype_keys));
        [discriminate H |]. cbn in H.
      destruct (decide (newStatus ∈ [])) as [Hn|]; [| discriminate H].
      now apply elem_of_nil in Hn.
  - intros H. apply flat_map_Map_get in H as (l & -> & Hx); [| compute_done].
    cbn. now destruct (decide (newStatus ∈ l)).
Qed.

Lemma transitionEdges_all (P : string * string → Prop)
    (currentStatus newStatus : string) :
  Forall P transitionEdges →
  validTransition currentStatus newStatus → P (currentStatus, newStatus).
Proof.
  intros Hall Hv. apply validTransition_edges in Hv.
  exact (proj1 (Forall_forall _ _) Hall _ Hv).
Qed.

(** A decidable fact about every valid transition, checked on the edges. *)
Ltac by_edges P H :=
  let Hall := fresh "Hall" in
  let HP := fresh "HP" in
  assert (Forall P transitionEdges) as Hall
    by (apply (bool_decide_unpack _); vm_compute; exact I);
  pose proof (transitionEdges_all P _ _ Hall H) as HP;
  cbn [fst snd] in HP.

Lemma validTransition_rank (currentStatus newStatus : string) :
  validTransition currentStatus newStatus →
  (statusRank currentStatus < statusRank newStatus ≤ 6)%nat.
Proof.
  intros H.
  by_edges (λ e : string * string,
              (statusRank e.1 < statusRank e.2 ≤ 6)%nat) H.
  exact HP.
Qed.

Lemma validPath_ranks (statuses : list string) (current : string) :
  validPath (current :: statuses) →
  Forall (λ s, (statusRank current < statusRank s)%nat) statuses ∧
  (length statuses ≤ 6 - statusRank current)%nat.
Proof.
  revert current. induction statuses as [|next rest IH]; intros current Hp.
  - split; [constructor | cbn [length]; lia].
  - destruct Hp as [Hv Hp]. apply validTransition_rank in Hv.
    destruct (IH next Hp) as [Hall Hlen]. split.
    + constructor; [lia |].
      eapply Forall_impl; [exact Hall |]. intros s Hs. cbv beta in Hs. lia.
    + cbn [length]. lia.
Qed.

(** X1. The transition table is acyclic: along any sequence of valid
    transitions no status occurs twice, and the sequence has at most seven
    statuses (six transitions). *)
Theorem validateStatusTransition_acyclic (statuses : list string) :
  validPath statuses → NoDup statuses ∧ (length statuses ≤ 7)%nat.
Proof.
  induction statuses as [|current rest IH]; intros Hp.
  - split; [constructor | cbn [length]; lia].
  - destruct (validPath_ranks _ _ Hp) as [Hall Hlen].
    assert (validPath rest) as Hrest
      by (destruct rest; [exact I | exact (proj2 Hp)]).
    destruct (IH Hrest) as [Hnd _]. split; [| cbn [length]; lia].
    constructor; [| exact Hnd].
    intros Hin. pose proof (proj1 (Forall_forall _ _) Hall _ Hin) as Hlt.
    cbv beta in Hlt. lia.
Qed.

Lemma validateStatusTransition_acyclic_witness :
  NoDup ["Received"; "Pending"; "Processed"; "Shipped"; "Out for Delivery";
         "Delivered"; "Returned"].
Proof.
  refine (proj1 (validateStatusTransition_acyclic
                   ["Received"; "Pending"; "Processed"; "Shipped";
                    "Out for Delivery"; "Delivered"; "Returned"] _)).
  vm_compute. repeat split; reflexivity.
Defined.

(** X2. An order becomes Delivered only from Out for Delivery and leaves
    Delivered only to Returned; Cancelled and Rejected are open from exactly
    the five statuses before delivery. *)
Theorem validateStatusTransition_delivery_and_cancellation
    (currentStatus newStatus : string) :
  (validTransition currentStatus "Delivered" ↔
     currentStatus = "Out for Delivery") ∧
  (validTransition "Delivered" newStatus ↔ newStatus = "Returned") ∧
  (validTransition currentStatus "Cancelled" ↔
     currentStatus ∈ ["Received"; "Pending"; "Processed"; "Shipped";
                      "Out for Delivery"]) ∧
  (validTransition currentStatus "Rejected" ↔
     validTransition currentStatus "Cancelled").
Proof.
  split; [| split; [| split]].
  - split; [| intros ->; reflexivity]. intros H.
    by_edges (λ e : string * string,
                e.2 = "Delivered" → e.1 = "Out for Delivery") H.
    now apply HP.
  - split; [| intros ->; reflexivity]. intros H.
    by_edges (λ e : string * string,
                e.1 = "Delivered" → e.2 = "Returned") H.
    now apply HP.
  - split.
    + intros H.
      by_edges (λ e : string * string,
                  e.2 = "Cancelled" →
                  e.1 ∈ ["Received"; "Pending"; "Processed"; "Shipped";
                         "Out for Delivery"]) H.
      now apply HP.
    + intros H. apply validTransition_edges.
      repeat (apply elem_of_cons in H as [->|H]; [compute_done |]).
      now apply elem_of_nil in H.
  - split; intros H; apply validTransition_edges.
    + by_edges (λ e : string * string,
                  e.2 = "Rejected" → (e.1, "Cancelled") ∈ transitionEdges) H.
      now apply HP.
    + by_edges (λ e : string * string,
                  e.2 = "Cancelled" → (e.1, "Rejected") ∈ transitionEdges) H.
      now apply HP.
Qed.

(** X3. Cancelled, Rejected and Returned are dead ends, and so is every
    status that is not a key of the table (such as Failed): from them no
    transition is valid, whatever the target. *)
Theorem validateStatusTransition_dead_ends (currentStatus newStatus : string) :
  currentStatus ∈ ["Cancelled"; "Rejected"; "Returned"] ∨
  currentStatus ∉ validTransitions.*1 →
  ¬ validTransition currentStatus newStatus.
Proof.
  intros Hcur Hv.
  by_edges (λ e : string * string,
              e.1 ∈ validTransitions.*1 ∧
              e.1 ∉ ["Cancelled"; "Rejected"; "Returned"]) Hv.
  destruct HP as [Hkey Hterm].
  destruct Hcur as [Hcur|Hcur]; contradiction.
Qed.

Lemma validateStatusTransition_dead_ends_witness :
  ¬ validTransition "Cancelled" "Pending" ∧ ¬ validTransition "Failed" "Pending".
Proof.
  split; apply validateStatusTransition_dead_ends.
  - left. compute_done.
  - right. compute_done.
Defined.

(** ** Order totals *)

Lemma fold_left_subtotal (items : list OrderItem.t) (start : Q) :
  (fold_left (λ subtotal item, subtotal + OrderItem.total item) items start
   == start + sumTotals items)%Q.
Proof.
  revert start. induction items as [|item items IH]; intros start.
  - unfold sumTotals, Qsum. cbn. ring.
  - cbn [fold_left]. rewrite IH, sumTotals_cons. ring.
Qed.

Lemma calculateOrderTotals_closed_form_facts (items : list OrderItem.t)
    (couponCode : option string) :
  let totals := calculateOrderTotals items couponCode in
  (Totals.subtotal totals == sumTotals items)%Q ∧
  (Totals.tax totals == sumTotals items * (18 # 100))%Q ∧
  ((sumTotals items < 500)%Q ∧ Totals.shipping totals = 50%Q ∨
   (500 <= sumTotals items)%Q ∧ Totals.shipping totals = 0%Q) ∧
  Totals.discount totals = 0%Q ∧
  (Totals.total totals
   == sumTotals items * (118 # 100) + Totals.shipping totals)%Q ∧
  totals = calculateOrderTotals items None.
Proof.
  cbv zeta. unfold calculateOrderTotals. cbn [Totals.subtotal Totals.tax
    Totals.shipping Totals.discount Totals.total].
  pose proof (fold_left_subtotal items 0) as Hs.
  set (s := fold_left _ items 0%Q) in *.
  assert (s == sumTotals items)%Q as E by (rewrite Hs; ring).
  split; [exact E |]. split; [now rewrite E |].
  split; [| split; [reflexivity | split; [| reflexivity]]].
  - destruct (Qlt_le_dec s 500) as [Hlt|Hle]; [left | right];
      (split; [now rewrite <- E | reflexivity]).
  - generalize (if Qlt_le_dec s 500 then 50%Q else 0%Q). intros sh. lra.
Qed.

(** X4. The total of an order is 118 percent of the sum of its item
    totals plus a shipping charge of 50 that applies exactly when that sum
    is below 500; no discount is ever applied and the coupon code has no
    influence on any figure. *)
Theorem calculateOrderTotals_closed_form (items : list OrderItem.t)
    (couponCode : option string) :
  let totals := calculateOrderTotals items couponCode in
  (Totals.subtotal totals == sumTotals items)%Q ∧
  (Totals.tax totals == sumTotals items * (18 # 100))%Q ∧
  ((sumTotals items < 500)%Q ∧ Totals.shipping totals = 50%Q ∨
   (500 <= sumTotals items)%Q ∧ Totals.shipping totals = 0%Q) ∧
  Totals.discount totals = 0%Q ∧
  (Totals.total totals
   == sumTotals items * (118 # 100) + Totals.shipping totals)%Q ∧
  totals = calculateOrderTotals items None.
Proof.
  exact (calculateOrderTotals_closed_form_facts items couponCode).
Qed.

(** X5. Free shipping makes the total drop at the threshold: an order
    whose items sum to 500 or a little more costs less than an order just
    below 500, as long as the difference of the sums is under 50 / 1.18. *)
Theorem calculateOrderTotals_threshold (below above : list OrderItem.t)
    (coupon1 coupon2 : option string) :
  (sumTotals below < 500)%Q → (500 <= sumTotals above)%Q →
  ((sumTotals above - sumTotals below) * (118 # 100) < 50)%Q →
  (Totals.total (calculateOrderTotals above coupon2)
   < Totals.total (calculateOrderTotals below coupon1))%Q.
Proof.
  intros Hb Ha Hd.
  destruct (calculateOrderTotals_closed_form_facts below coupon1)
    as (_ & _ & Hsb & _ & Htb & _).
  destruct (calculateOrderTotals_closed_form_facts above coupon2)
    as (_ & _ & Hsa & _ & Hta & _).
  cbv zeta in *. rewrite Htb, Hta.
  destruct Hsb as [[_ ->]|[Hge _]]; [| exfalso; lra].
  destruct Hsa as [[Hlt _]|[_ ->]]; [exfalso; lra |].
  lra.
Qed.

Lemma calculateOrderTotals_threshold_witness :
  (Totals.total (calculateOrderTotals [OrderItem.mk "i2" "o" "s" "p" 500] None)
   < Totals.total (calculateOrderTotals [OrderItem.mk "i1" "o" "s" "p" 499] None))%Q.
Proof.
  apply calculateOrderTotals_threshold; vm_compute;
    first [reflexivity | discriminate].
Defined.

(** ** Inventory *)

Lemma Math_max_0_nonneg (x : Q) : (0 <= Math_max 0 x)%Q.
Proof. unfold Math_max. destruct (Qlt_le_dec 0 x); lra. Qed.

Lemma Math_max_0_id (x : Q) : (0 <= x)%Q → (Math_max 0 x == x)%Q.
Proof. intros H. unfold Math_max. destruct (Qlt_le_dec 0 x); lra. Qed.

Lemma lineQuantity_cons (product : Id) (item : StockLine.t)
    (items : list StockLine.t) :
  lineQuantity product (item :: items)
  = if decide (StockLine.product item = product)
    then (StockLine.quantity item + lineQuantity product items)%Q
    else lineQuantity product items.
Proof.
  unfold lineQuantity. rewrite filter_cons.
  now destruct (decide (StockLine.product item = product)).
Qed.

Lemma lineQuantity_nonneg (product : Id) (items : list StockLine.t) :
  Forall (λ item, (0 <= StockLine.quantity item)%Q) items →
  (0 <= lineQuantity product items)%Q.
Proof.
  induction 1 as [|item items Hq _ IH].
  - unfold lineQuantity, Qsum. cbn. lra.
  - rewrite lineQuantity_cons. destruct (decide _); lra.
Qed.

Lemma reserveOne_lookup (inventory : gmap Id Inventory.t) (item : StockLine.t)
    (product : Id) :
  reserveOne inventory item !! product
  = if decide (StockLine.product item = product) then
      (λ doc,
         let reservedStock :=
           (Inventory.reservedStock doc + StockLine.quantity item)%Q in
         Inventory.mk (Inventory.currentStock doc) reservedStock
           (Math_max 0 (Inventory.currentStock doc - reservedStock)))
        <$> inventory !! product
    else inventory !! product.
Proof.
  unfold reserveOne.
  destruct (decide (StockLine.product item = product)) as [->|Hne].
  - destruct (inventory !! product) as [doc|] eqn:Hd; cbn.
    + now rewrite lookup_insert_eq.
    + exact Hd.
  - destruct (inventory !! StockLine.product item); [| reflexivity].
    now rewrite lookup_insert_ne.
Qed.

Lemma restoreOne_lookup (inventory : gmap Id Inventory.t) (item : StockLine.t)
    (product : Id) :
  restoreOne inventory item !! product
  = if decide (StockLine.product item = product) then
      (λ doc,
         let reservedStock :=
           Math_max 0 (Inventory.reservedStock doc - StockLine.quantity item) in
         Inventory.mk (Inventory.currentStock doc) reservedStock
           (Inventory.currentStock doc - reservedStock)%Q)
        <$> inventory !! product
    else inventory !! product.
Proof.
  unfold restoreOne.
  destruct (decide (StockLine.product item = product)) as [->|Hne].
  - destruct (inventory !! product) as [doc|] eqn:Hd; cbn.
    + now rewrite lookup_insert_eq.
    + exact Hd.
  - destruct (inventory !! StockLine.product item); [| reflexivity].
    now rewrite lookup_insert_ne.
Qed.

Lemma reserveInventory_reserved (items : list StockLine.t) (product : Id) :
  ∀ inventory : gmap Id Inventory.t,
  match inventory !! product with
  | None => reserveInventory items inventory !! product = None
  | Some doc =>
      ∃ doc', reserveInventory items inventory !! product = Some doc' ∧
              Inventory.currentStock doc' = Inventory.currentStock doc ∧
              (Inventory.reservedStock doc'
               == Inventory.reservedStock doc + lineQuantity product items)%Q
  end.
Proof.
  induction items as [|item items IH]; intros inventory.
  - cbn. destruct (inventory !! product) as [doc|]; [| reflexivity].
    exists doc. repeat split. unfold lineQuantity, Qsum. cbn. ring.
  - unfold reserveInventory. cbn [fold_left].
    specialize (IH (reserveOne inventory item)).
    rewrite reserveOne_lookup in IH. rewrite lineQuantity_cons.
    destruct (decide (StockLine.product item = product)); [| exact IH].
    destruct (inventory !! product) as [doc|]; cbn in IH; [| exact IH].
    destruct IH as (doc' & Hl & Hc & Hr). exists doc'.
    split; [exact Hl |]. split; [exact Hc |]. rewrite Hr. ring.
Qed.

Lemma restoreInventory_reserved (items : list StockLine.t) (product : Id) :
  Forall (λ item, (0 <= StockLine.quantity item)%Q) items →
  ∀ (inventory : gmap Id Inventory.t) (doc : Inventory.t),
  inventory !! product = Some doc →
  (lineQuantity product items <= Inventory.reservedStock doc)%Q →
  ∃ doc', restoreInventory items inventory !! product = Some doc' ∧
          Inventory.currentStock doc' = Inventory.currentStock doc ∧
          (Inventory.reservedStock doc'
           == Inventory.reservedStock doc - lineQuantity product items)%Q.
Proof.
  induction 1 as [|item items Hq Hall IH]; intros inventory doc Hd Hle.
  - exists doc. split; [exact Hd |]. split; [reflexivity |].
    unfold lineQuantity, Qsum. cbn. ring.
  - unfold restoreInventory. cbn [fold_left].
    rewrite lineQuantity_cons in *.
    pose proof (lineQuantity_nonneg product items Hall) as Hn.
    pose proof (restoreOne_lookup inventory item product) as Hone.
    destruct (decide (StockLine.product item = product)).
    + rewrite Hd in Hone. cbn in Hone.
      assert (0 <= Inventory.reservedStock doc - StockLine.quantity item)%Q
        as Hpos by lra.
      pose proof (Math_max_0_id _ Hpos) as Hmax.
      destruct (IH _ _ Hone) as (doc' & Hl & Hc & Hr).
      { cbn. rewrite Hmax. lra. }
      exists doc'. split; [exact Hl |]. split; [exact Hc |].
      rewrite Hr. cbn. rewrite Hmax. ring.
    + rewrite Hd in Hone. exact (IH _ _ Hone Hle).
Qed.

(** The last write to a product decides what its record looks like. *)
Lemma fold_left_touched {A} (step : gmap Id A → StockLine.t → gmap Id A)
    (R : A → Prop) (product : Id) :
  (∀ inventory item doc, StockLine.product item = product →
     step inventory item !! product = Some doc → R doc) →
  (∀ inventory item, StockLine.product item ≠ product →
     step inventory item !! product = inventory !! product) →
  ∀ (items : list StockLine.t) (inventory : gmap Id A) (doc : A),
  product ∈ StockLine.product <$> items →
  fold_left step items inventory !! product = Some doc → R doc.
Proof.
  intros Hhit Hmiss items. induction items as [|item items IH] using rev_ind;
    intros inventory doc Hin Hl.
  - now apply elem_of_nil in Hin.
  - rewrite fold_left_app in Hl. cbn [fold_left] in Hl.
    destruct (decide (StockLine.product item = product)) as [He|Hne].
    + exact (Hhit _ _ _ He Hl).
    + rewrite Hmiss in Hl by exact Hne.
      rewrite fmap_app in Hin. apply elem_of_app in Hin as [Hin|Hin].
      * exact (IH _ _ Hin Hl).
      * apply list_elem_of_singleton in Hin. congruence.
Qed.

Lemma fold_left_untouched {A} (step : gmap Id A → StockLine.t → gmap Id A)
    (product : Id) :
  (∀ inventory item, StockLine.product item ≠ product →
     step inventory item !! product = inventory !! product) →
  ∀ (items : list StockLine.t) (inventory : gmap Id A),
  product ∉ StockLine.product <$> items →
  fold_left step items inventory !! product = inventory !! product.
Proof.
  intros Hmiss items. induction items as [|item items IH]; intros inventory Hin.
  - reflexivity.
  - cbn [fold_left]. rewrite fmap_cons in Hin.
    apply not_elem_of_cons in Hin as [Hne Hin].
    rewrite IH by exact Hin. apply Hmiss. congruence.
Qed.

Lemma reserveInventory_effect_facts (items : list StockLine.t)
    (inventory : gmap Id Inventory.t) (product : Id) :
  match inventory !! product with
  | None => reserveInventory items inventory !! product = None
  | Some doc =>
      ∃ doc',
        reserveInventory items inventory !! product = Some doc' ∧
        Inventory.currentStock doc' = Inventory.currentStock doc ∧
        (Inventory.reservedStock doc'
         == Inventory.reservedStock doc + lineQuantity product items)%Q ∧
        (product ∈ StockLine.product <$> items →
           Inventory.availableStock doc'
             = Math_max 0 (Inventory.currentStock doc'
                           - Inventory.reservedStock doc') ∧
           (0 <= Inventory.availableStock doc')%Q) ∧
        (product ∉ StockLine.product <$> items → doc' = doc)
  end.
Proof.
  pose proof (reserveInventory_reserved items product inventory) as H.
  destruct (inventory !! product) as [doc|] eqn:Hd; [| exact H].
  destruct H as (doc' & Hl & Hc & Hr). exists doc'.
  split; [exact Hl |]. split; [exact Hc |]. split; [exact Hr |]. split.
  - intros Hin.
    assert (Inventory.availableStock doc'
            = Math_max 0 (Inventory.currentStock doc'
                          - Inventory.reservedStock doc')) as E.
    { apply (fold_left_touched reserveOne
               (λ d, Inventory.availableStock d
                     = Math_max 0 (Inventory.currentStock d
                                   - Inventory.reservedStock d))
               product) with (items := items) (inventory := inventory);
        [| | exact Hin | exact Hl].
      - intros inv item d He Hs. rewrite reserveOne_lookup in Hs.
        destruct (decide _); [| contradiction].
        destruct (inv !! product); cbn in Hs; [| discriminate Hs].
        now injection Hs as <-.
      - intros inv item Hne. rewrite reserveOne_lookup.
        now destruct (decide _). }
    split; [exact E |]. rewrite E. apply Math_max_0_nonneg.
  - intros Hin. unfold reserveInventory in Hl.
    rewrite (fold_left_untouched reserveOne product) in Hl; [congruence | | exact Hin].
    intros inv item Hne. rewrite reserveOne_lookup. now destruct (decide _).
Qed.

(** X6. [reserveInventory] creates no inventory record and never changes
    currentStock; the reservedStock of a product grows by the quantity that
    the lines hold of it; a product with a line ends with availableStock
    equal to max (0, currentStock - reservedStock), hence never negative,
    and a product without a line keeps its record. *)
Theorem reserveInventory_effect (items : list StockLine.t)
    (inventory : gmap Id Inventory.t) (product : Id) :
  match inventory !! product with
  | None => reserveInventory items inventory !! product = None
  | Some doc =>
      ∃ doc',
        reserveInventory items inventory !! product = Some doc' ∧
        Inventory.currentStock doc' = Inventory.currentStock doc ∧
        (Inventory.reservedStock doc'
         == Inventory.reservedStock doc + lineQuantity product items)%Q ∧
        (product ∈ StockLine.product <$> items →
           Inventory.availableStock doc'
             = Math_max 0 (Inventory.currentStock doc'
                           - Inventory.reservedStock doc') ∧
           (0 <= Inventory.availableStock doc')%Q) ∧
        (product ∉ StockLine.product <$> items → doc' = doc)
  end.
Proof.
  exact (reserveInventory_effect_facts items inventory product).
Qed.

(** X7. Restoring the lines that were just reserved gives every product its
    reservedStock back, provided the quantities and the reservedStock it
    started from are not negative; currentStock is untouched, a product
    without a line keeps its record, and a product with a line ends with
    availableStock = currentStock - reservedStock. *)
Theorem restoreInventory_after_reserve (items : list StockLine.t)
    (inventory : gmap Id Inventory.t) (product : Id) (doc : Inventory.t) :
  inventory !! product = Some doc →
  Forall (λ item, (0 <= StockLine.quantity item)%Q) items →
  (0 <= Inventory.reservedStock doc)%Q →
  ∃ doc',
    restoreInventory items (reserveInventory items inventory) !! product
      = Some doc' ∧
    Inventory.currentStock doc' = Inventory.currentStock doc ∧
    (Inventory.reservedStock doc' == Inventory.reservedStock doc)%Q ∧
    (product ∈ StockLine.product <$> items →
       (Inventory.availableStock doc'
        == Inventory.currentStock doc - Inventory.reservedStock doc)%Q) ∧
    (product ∉ StockLine.product <$> items → doc' = doc).
Proof.
  intros Hd Hq Hr.
  pose proof (reserveInventory_effect_facts items inventory product) as H1.
  rewrite Hd in H1. destruct H1 as (doc1 & Hl1 & Hc1 & Hr1 & _ & Hu1).
  pose proof (lineQuantity_nonneg product items Hq) as Hn.
  destruct (restoreInventory_reserved items product Hq _ _ Hl1)
    as (doc2 & Hl2 & Hc2 & Hr2); [lra |].
  exists doc2. split; [exact Hl2 |]. split; [congruence |].
  split; [rewrite Hr2, Hr1; ring |]. split.
  - intros Hin.
    assert (Inventory.availableStock doc2
            = (Inventory.currentStock doc2 - Inventory.reservedStock doc2)%Q)
      as E.
    { apply (fold_left_touched restoreOne
               (λ d, Inventory.availableStock d
                     = (Inventory.currentStock d - Inventory.reservedStock d)%Q)
               product) with (items := items)
                             (inventory := reserveInventory items inventory);
        [| | exact Hin | exact Hl2].
      - intros inv item d He Hs. rewrite restoreOne_lookup in Hs.
        destruct (decide _); [| contradiction].
        destruct (inv !! product); cbn in Hs; [| discriminate Hs].
        now injection Hs as <-.
      - intros inv item Hne. rewrite restoreOne_lookup.
        now destruct (decide _). }
    rewrite E, Hr2, Hr1, Hc2, Hc1. ring.
  - intros Hin. specialize (Hu1 Hin). subst doc1.
    unfold restoreInventory in Hl2.
    rewrite (fold_left_untouched restoreOne product) in Hl2;
      [congruence | | exact Hin].
    intros inv item Hne. rewrite restoreOne_lookup. now destruct (decide _).
Qed.

Lemma restoreInventory_after_reserve_witness :
  ∃ doc',
    restoreInventory [StockLine.mk "p1" 3; StockLine.mk "p1" 4]
      (reserveInventory [StockLine.mk "p1" 3; StockLine.mk "p1" 4]
         {[ "p1" := Inventory.mk 5 2 3 ]}) !! "p1" = Some doc' ∧
    (Inventory.reservedStock doc' == 2)%Q.
Proof.
  destruct (restoreInventory_after_reserve
              [StockLine.mk "p1" 3; StockLine.mk "p1" 4]
              {[ "p1" := Inventory.mk 5 2 3 ]} "p1" (Inventory.mk 5 2 3))
    as (doc' & Hl & _ & Hr & _).
  - reflexivity.
  - repeat constructor; vm_compute; discriminate.
  - vm_compute; discriminate.
  - exists doc'. split; [exact Hl | exact Hr].
Defined.

(** X8. [restoreInventory] clamps reservedStock at 0 but does not clamp
    availableStock: a product with a line ends with reservedStock >= 0 and
    availableStock = currentStock - reservedStock, which is negative
    whenever more is still reserved than is in stock. *)
Theorem restoreInventory_clamps_reserved_only (items : list StockLine.t)
    (inventory : gmap Id Inventory.t) (product : Id) (doc' : Inventory.t) :
  product ∈ StockLine.product <$> items →
  restoreInventory items inventory !! product = Some doc' →
  (0 <= Inventory.reservedStock doc')%Q ∧
  Inventory.availableStock doc'
    = (Inventory.currentStock doc' - Inventory.reservedStock doc')%Q ∧
  ((Inventory.currentStock doc' < Inventory.reservedStock doc')%Q →
   (Inventory.availableStock doc' < 0)%Q).
Proof.
  intros Hin Hl.
  assert ((0 <= Inventory.reservedStock doc')%Q ∧
          Inventory.availableStock doc'
            = (Inventory.currentStock doc' - Inventory.reservedStock doc')%Q)
    as [Hr Ha].
  { apply (fold_left_touched restoreOne
             (λ d, (0 <= Inventory.reservedStock d)%Q ∧
                   Inventory.availableStock d
                   = (Inventory.currentStock d - Inventory.reservedStock d)%Q)
             product) with (items := items) (inventory := inventory);
      [| | exact Hin | exact Hl].
    - intros inv item d He Hs. rewrite restoreOne_lookup in Hs.
      destruct (decide _); [| contradiction].
      destruct (inv !! product); cbn in Hs; [| discriminate Hs].
      injection Hs as <-. cbn. split; [apply Math_max_0_nonneg | reflexivity].
    - intros inv item Hne. rewrite restoreOne_lookup.
      now destruct (decide _). }
  split; [exact Hr |]. split; [exact Ha |]. intros Hlt. rewrite Ha. lra.
Qed.

Lemma restoreInventory_clamps_reserved_only_witness :
  ∃ doc',
    restoreInventory [StockLine.mk "p1" 2] {[ "p1" := Inventory.mk 5 10 0 ]}
      !! "p1" = Some doc' ∧
    (Inventory.availableStock doc' < 0)%Q.
Proof.
  eexists. split; [vm_compute; reflexivity |].
  eapply restoreInventory_clamps_reserved_only
    with (items := [StockLine.mk "p1" 2])
         (inventory := {[ "p1" := Inventory.mk 5 10 0 ]}) (product := "p1").
  - compute_done.
  - vm_compute. reflexivity.
  - vm_compute. reflexivity.
Defined.

(** ** The eager path *)

Lemma sameUpToSellerBalances_refl (db : DB) : sameUpToSellerBalances db db.
Proof.
  split; [apply sameCatalogue_refl |]. split; [reflexivity |].
  intros s. now destruct (sellers db !! s).
Qed.

Lemma sameUpToSellerBalances_trans (db db1 db2 : DB) :
  sameUpToSellerBalances db db1 → sameUpToSellerBalances db1 db2 →
  sameUpToSellerBalances db db2.
Proof.
  intros (Hc1 & Hd1 & Hs1) (Hc2 & Hd2 & Hs2).
  split; [exact (sameCatalogue_trans _ _ _ Hc1 Hc2) |].
  split; [congruence |]. intros s. specialize (Hs1 s). specialize (Hs2 s).
  destruct (sellers db !! s), (sellers db1 !! s), (sellers db2 !! s);
    try contradiction; [| exact I].
  destruct Hs1, Hs2. split; congruence.
Qed.

(** The rate of an item reads the sellers only for their [commission]. *)
Lemma eagerItemCommission_ext (db db' : DB) (item : OrderItem.t) :
  sameUpToSellerBalances db db' →
  eagerItemCommission db' item = eagerItemCommission db item.
Proof.
  intros ((_ & _ & Hp & Hc & Hsc & _) & _ & Hs).
  unfold eagerItemCommission. specialize (Hs (OrderItem.seller item)).
  destruct (sellers db !! OrderItem.seller item) as [s|],
           (sellers db' !! OrderItem.seller item) as [s'|];
    try contradiction; [| reflexivity].
  destruct Hs as [Hcom _].
  unfold resolveCommissionRate. now rewrite Hp, Hc, Hsc, Hcom.
Qed.

Lemma eagerRecords_ext (db db' : DB) (items : list OrderItem.t) :
  sameUpToSellerBalances db db' →
  ∀ n, eagerRecords db' n items = eagerRecords db n items.
Proof.
  intros H. induction items as [|item items IH]; intros n; [reflexivity |].
  cbn [eagerRecords]. rewrite (eagerItemCommission_ext _ _ _ H).
  destruct (eagerItemCommission db item) as [[r a]|]; now rewrite IH.
Qed.

Lemma earningsStep_ext (db db' : DB) :
  sameUpToSellerBalances db db' →
  ∀ items m, fold_left (earningsStep db') items m
             = fold_left (earningsStep db) items m.
Proof.
  intros H items. induction items as [|item items IH]; intros m; [reflexivity |].
  cbn [fold_left]. rewrite IH. unfold earningsStep.
  now rewrite (eagerItemCommission_ext _ _ _ H).
Qed.

Lemma earningsTx_ext (db db' : DB) (items : list OrderItem.t)
    (entry : Id * Earnings.t) :
  sameUpToSellerBalances db db' →
  earningsTx db' items entry = earningsTx db items entry.
Proof.
  intros ((Ho & _) & _ & Hs). unfold earningsTx. specialize (Hs entry.1).
  rewrite Ho.
  destruct (sellers db !! entry.1), (sellers db' !! entry.1);
    try contradiction; reflexivity.
Qed.

Lemma insertCommission_same (c : Commission.t) (db : DB) :
  sameUpToSellerBalances db (insertCommission c db).
Proof.
  split; [repeat split |]. split; [reflexivity |].
  intros s. cbn. now destruct (sellers db !! s).
Qed.

(** The first pass: records appended, map filled, nothing else written. *)
Lemma createCommission_fold (items : list OrderItem.t) :
  ∀ (db : DB) (m : list (Id * Earnings.t)),
  fold_left createCommission items (db, m)
  = (set_commissions
       (commissions db ++ eagerRecords db (length (commissions db)) items) db,
     fold_left (earningsStep db) items m).
Proof.
  induction items as [|item items IH]; intros db m.
  - cbn. unfold set_commissions. now rewrite app_nil_r, DB_eta.
  - cbn [fold_left eagerRecords].
    unfold createCommission at 2, earningsStep at 2.
    destruct (eagerItemCommission db item) as [[r a]|] eqn:He.
    + rewrite IH.
      set (c := Commission.mk _ _ _ _ _ _ _ _ _ _ _).
      change c with (eagerRecord (length (commissions db)) item r a).
      clear c. set (c := eagerRecord _ item r a).
      rewrite (eagerRecords_ext _ _ _ (insertCommission_same c db)).
      rewrite (earningsStep_ext _ _ (insertCommission_same c db)).
      f_equal. cbn [insertCommission set_commissions commissions].
      unfold set_commissions. cbn.
      rewrite length_app, Nat.add_1_r, <- app_assoc. reflexivity.
    + apply IH.
Qed.

Lemma balanceMoved_same (db db' : DB) :
  (∀ userId userType,
     balanceOf userId userType db' = balanceOf userId userType db) →
  balanceMoved db db' [].
Proof.
  intros H u t. rewrite H. apply balanceMoved_refl.
Qed.

Lemma balanceMoved_single (db db' : DB) (tx : WalletTransaction.t) (b b' : Q) :
  balanceOf (WalletTransaction.userId tx) (WalletTransaction.userType tx) db
    = Some b →
  balanceOf (WalletTransaction.userId tx) (WalletTransaction.userType tx) db'
    = Some b' →
  (b' == b + signed tx)%Q →
  (∀ userId userType,
     (WalletTransaction.userId tx, WalletTransaction.userType tx)
       ≠ (userId, userType) →
     balanceOf userId userType db' = balanceOf userId userType db) →
  balanceMoved db db' [tx].
Proof.
  intros Hb Hb' Heq Hother u t.
  destruct (decide ((WalletTransaction.userId tx, WalletTransaction.userType tx)
                    = (u, t))) as [[= <- <-]|Hne].
  - rewrite Hb, Hb'. unfold movement. rewrite filter_cons.
    destruct (decide _) as [_|N]; [| now destruct N].
    rewrite filter_nil. unfold Qsum. cbn [fmap list_fmap fold_right].
    rewrite Heq. ring.
  - rewrite (Hother _ _ Hne). destruct (balanceOf u t db); [| exact I].
    unfold movement. rewrite filter_cons.
    destruct (decide _) as [[E1 E2]|_]; [exfalso; apply Hne; congruence |].
    rewrite filter_nil. unfold Qsum. cbn [fmap list_fmap fold_right]. ring.
Qed.

(** The second pass, one seller. *)
Lemma creditEarnings_step (items : list OrderItem.t) (db : DB)
    (entry : Id * Earnings.t) :
  let db' := creditEarnings items db entry in
  let txs := omap (earningsTx db items) [entry] in
  commissions db' = commissions db ∧
  sameUpToSellerBalances db db' ∧
  walletTransactions db' = walletTransactions db ++ txs ∧
  balanceMoved db db' txs.
Proof.
  destruct entry as [sellerId earnings]. cbv zeta.
  unfold creditEarnings, earningsTx. cbn [omap list_omap fst snd].
  destruct (sellers db !! sellerId) as [s|] eqn:Hs.
  2:{ cbn. rewrite app_nil_r.
      split; [reflexivity |]. split; [apply sameUpToSellerBalances_refl |].
      split; [reflexivity | apply balanceMoved_refl]. }
  destruct items as [|item0 rest].
  { cbn. rewrite app_nil_r.
    split; [reflexivity |]. split; [apply sameUpToSellerBalances_refl |].
    split; [reflexivity | apply balanceMoved_refl]. }
  split; [reflexivity |]. split; [| split; [reflexivity |]].
  - split; [repeat split |]. split; [reflexivity |].
    intros s'. cbn. destruct (decide (sellerId = s')) as [<-|Hne].
    + rewrite lookup_insert_eq, Hs. now split.
    + rewrite lookup_insert_ne by exact Hne. now destruct (sellers db !! s').
  - apply (balanceMoved_single _ _ _ (Seller.balance s)
             (Seller.balance s + Earnings.netEarning earnings)%Q).
    + cbn. now rewrite Hs.
    + cbn. now rewrite lookup_insert_eq.
    + reflexivity.
    + intros u t Hne. cbn in Hne. destruct t; cbn; [| reflexivity].
      rewrite lookup_insert_ne; [reflexivity | congruence].
Qed.

(** The second pass: one credit per seller of the map, balances moved by
    these credits, nothing else written. *)
Lemma creditEarnings_fold (items : list OrderItem.t)
    (entries : list (Id * Earnings.t)) :
  ∀ db : DB,
  let db' := fold_left (creditEarnings items) entries db in
  let txs := omap (earningsTx db items) entries in
  commissions db' = commissions db ∧
  sameUpToSellerBalances db db' ∧
  walletTransactions db' = walletTransactions db ++ txs ∧
  balanceMoved db db' txs.
Proof.
  induction entries as [|entry entries IH]; intros db; cbv zeta.
  - cbn. rewrite app_nil_r.
    split; [reflexivity |]. split; [apply sameUpToSellerBalances_refl |].
    split; [reflexivity | apply balanceMoved_refl].
  - cbn [fold_left].
    destruct (creditEarnings_step items db entry) as (Hc1 & Hs1 & Hw1 & Hb1).
    destruct (IH (creditEarnings items db entry)) as (Hc2 & Hs2 & Hw2 & Hb2).
    assert (omap (earningsTx (creditEarnings items db entry) items) entries
            = omap (earningsTx db items) entries) as E.
    { clear -Hs1. induction entries as [|e entries IHe]; [reflexivity |].
      cbn [omap list_omap]. now rewrite (earningsTx_ext _ _ _ _ Hs1), IHe. }
    rewrite E in Hw2, Hb2.
    change (entry :: entries) with ([entry] ++ entries). rewrite omap_app.
    split; [congruence |].
    split; [exact (sameUpToSellerBalances_trans _ _ _ Hs1 Hs2) |].
    split; [rewrite Hw2, Hw1; now rewrite app_assoc |].
    exact (balanceMoved_trans _ _ _ _ _ Hb1 Hb2).
Qed.

Lemma createCommissions_unfold (db : DB) (items : list OrderItem.t) :
  createCommissions db items
  = fold_left (creditEarnings items) (fold_left (earningsStep db) items [])
      (set_commissions
         (commissions db ++ eagerRecords db (length (commissions db)) items) db).
Proof.
  unfold createCommissions. now rewrite createCommission_fold.
Qed.

Lemma eagerRecords_pending (db : DB) (items : list OrderItem.t) :
  ∀ n,
  Forall (λ c, Commission.status c = Pending ∧ Commission.type c = None ∧
               Commission.paidAt c = None ∧
               ∃ item, item ∈ items ∧
                       is_Some (sellers db !! OrderItem.seller item) ∧
                       Commission.order c = OrderItem.order item ∧
                       Commission.seller c = Some (OrderItem.seller item))
         (eagerRecords db n items).
Proof.
  induction items as [|item items IH]; intros n; [constructor |].
  cbn [eagerRecords].
  assert (∀ k, Forall (λ c, Commission.status c = Pending ∧
                            Commission.type c = None ∧
                            Commission.paidAt c = None ∧
                            ∃ item', item' ∈ item :: items ∧
                              is_Some (sellers db !! OrderItem.seller item') ∧
                              Commission.order c = OrderItem.order item' ∧
                              Commission.seller c = Some (OrderItem.seller item'))
                 (eagerRecords db k items)) as IH'.
  { intros k. eapply Forall_impl; [apply IH |].
    intros c (H1 & H2 & H3 & item' & Hin & Hrest).
    repeat split; try assumption. exists item'.
    split; [apply elem_of_cons; now right | exact Hrest]. }
  destruct (eagerItemCommission db item) as [[r a]|] eqn:He; [| apply IH'].
  constructor; [| apply IH'].
  repeat split. exists item. split; [apply elem_of_cons; now left |].
  split; [| now split].
  unfold eagerItemCommission in He.
  destruct (sellers db !! OrderItem.seller item); [eauto | discriminate He].
Qed.

Lemma eagerCredits_sellers (db : DB) (items : list OrderItem.t) :
  Forall (λ tx, WalletTransaction.type tx = Credit ∧
                WalletTransaction.userType tx = SELLER)
         (eagerCredits db items).
Proof.
  unfold eagerCredits. generalize (fold_left (earningsStep db) items []).
  intros entries. induction entries as [|entry entries IH]; [constructor |].
  cbn [omap list_omap]. unfold earningsTx at 1.
  destruct (sellers db !! entry.1); [| exact IH].
  destruct items; [exact IH |]. constructor; [now split | exact IH].
Qed.

Lemma createCommissions_ledger_facts (db : DB) (items : list OrderItem.t) :
  let db' := createCommissions db items in
  commissions db'
    = commissions db ++ eagerRecords db (length (commissions db)) items ∧
  Forall (λ c, Commission.status c = Pending ∧ Commission.type c = None ∧
               Commission.paidAt c = None ∧
               ∃ item, item ∈ items ∧
                       is_Some (sellers db !! OrderItem.seller item) ∧
                       Commission.order c = OrderItem.order item ∧
                       Commission.seller c = Some (OrderItem.seller item))
         (eagerRecords db (length (commissions db)) items) ∧
  walletTransactions db' = walletTransactions db ++ eagerCredits db items ∧
  Forall (λ tx, WalletTransaction.type tx = Credit ∧
                WalletTransaction.userType tx = SELLER)
         (eagerCredits db items) ∧
  balanceMoved db db' (eagerCredits db items) ∧
  sameUpToSellerBalances db db'.
Proof.
  cbv zeta. rewrite createCommissions_unfold.
  set (db1 := set_commissions _ db).
  assert (sameUpToSellerBalances db db1) as H1.
  { split; [repeat split |]. split; [reflexivity |].
    intros s. cbn. now destruct (sellers db !! s). }
  destruct (creditEarnings_fold items (fold_left (earningsStep db) items []) db1)
    as (Hc & Hs & Hw & Hb).
  assert (omap (earningsTx db1 items) (fold_left (earningsStep db) items [])
          = eagerCredits db items) as E.
  { unfold eagerCredits. generalize (fold_left (earningsStep db) items []).
    intros entries. induction entries as [|e entries IHe]; [reflexivity |].
    cbn [omap list_omap]. now rewrite (earningsTx_ext _ _ _ _ H1), IHe. }
  rewrite E in Hw, Hb.
  split; [exact Hc |]. split; [apply eagerRecords_pending |].
  split; [exact Hw |]. split; [apply eagerCredits_sellers |].
  split; [| exact (sameUpToSellerBalances_trans _ _ _ H1 Hs)].
  intros u t. specialize (Hb u t).
  now replace (balanceOf u t db) with (balanceOf u t db1) by (now destruct t).
Qed.

(** X9. One run of [createCommissions] appends one Pending record (without
    type and paidAt) for every item whose seller has a record, appends
    Credit transactions to sellers only, and moves every balance by exactly
    what these transactions say; orders, items, products, categories,
    settings, withdrawal requests, delivery partners and the sellers'
    override rates are left as they were. *)
Theorem createCommissions_ledger (db : DB) (items : list OrderItem.t) :
  let db' := createCommissions db items in
  commissions db'
    = commissions db ++ eagerRecords db (length (commissions db)) items ∧
  Forall (λ c, Commission.status c = Pending ∧ Commission.type c = None ∧
               Commission.paidAt c = None ∧
               ∃ item, item ∈ items ∧
                       is_Some (sellers db !! OrderItem.seller item) ∧
                       Commission.order c = OrderItem.order item ∧
                       Commission.seller c = Some (OrderItem.seller item))
         (eagerRecords db (length (commissions db)) items) ∧
  walletTransactions db' = walletTransactions db ++ eagerCredits db items ∧
  Forall (λ tx, WalletTransaction.type tx = Credit ∧
                WalletTransaction.userType tx = SELLER)
         (eagerCredits db items) ∧
  balanceMoved db db' (eagerCredits db items) ∧
  sameUpToSellerBalances db db'.
Proof.
  exact (createCommissions_ledger_facts db items).
Qed.

Lemma eagerCredits_ext (db db' : DB) (items : list OrderItem.t) :
  sameUpToSellerBalances db db' →
  eagerCredits db' items = eagerCredits db items.
Proof.
  intros H. unfold eagerCredits. rewrite (earningsStep_ext _ _ H).
  generalize (fold_left (earningsStep db) items []). intros entries.
  induction entries as [|e entries IHe]; [reflexivity |].
  cbn [omap list_omap]. now rewrite (earningsTx_ext _ _ _ _ H), IHe.
Qed.

Lemma eagerRecords_length (db : DB) (items : list OrderItem.t) (n k : nat) :
  length (eagerRecords db n items) = length (eagerRecords db k items).
Proof.
  revert n k. induction items as [|item items IH]; intros n k; [reflexivity |].
  cbn [eagerRecords]. destruct (eagerItemCommission db item) as [[r a]|].
  - cbn [length]. f_equal. apply IH.
  - apply IH.
Qed.

(** X10. [createCommissions] has no guard against a second run: run twice
    on the same items it writes the Pending records twice and credits every
    seller twice, the second run repeating the credits of the first. *)
Theorem createCommissions_twice (db : DB) (items : list OrderItem.t) :
  let db2 := createCommissions (createCommissions db items) items in
  let credits := eagerCredits db items in
  walletTransactions db2 = walletTransactions db ++ credits ++ credits ∧
  balanceMoved db db2 (credits ++ credits) ∧
  length (commissions db2)
    = (length (commissions db)
       + 2 * length (eagerRecords db 0 items))%nat.
Proof.
  cbv zeta.
  destruct (createCommissions_ledger_facts db items) as (Hc1 & _ & Hw1 & _ & Hb1 & Hs1).
  destruct (createCommissions_ledger_facts (createCommissions db items) items)
    as (Hc2 & _ & Hw2 & _ & Hb2 & _).
  cbv zeta in *. rewrite (eagerCredits_ext _ _ _ Hs1) in Hw2, Hb2.
  split; [rewrite Hw2, Hw1; now rewrite app_assoc |].
  split; [exact (balanceMoved_trans _ _ _ _ _ Hb1 Hb2) |].
  rewrite Hc2, Hc1, !length_app.
  rewrite (eagerRecords_length (createCommissions db items) items _ 0).
  rewrite (eagerRecords_ext _ _ _ Hs1).
  rewrite (eagerRecords_length db items _ 0).
  set (k := length (eagerRecords db 0 items)).
  set (n := length (commissions db)). lia.
Qed.

Lemma earningsStep_NoDup (db : DB) (items : list OrderItem.t) :
  ∀ m : list (Id * Earnings.t),
  NoDup m.*1 → NoDup (fold_left (earningsStep db) items m).*1.
Proof.
  induction items as [|item items IH]; intros m H; [exact H |].
  cbn [fold_left]. apply IH. unfold earningsStep.
  destruct (eagerItemCommission db item) as [[r a]|]; [| exact H].
  now apply Map_set_NoDup.
Qed.

Lemma itemsOf_cons (sellerId : Id) (item : OrderItem.t)
    (items : list OrderItem.t) :
  itemsOf sellerId (item :: items)
  = if decide (OrderItem.seller item = sellerId)
    then item :: itemsOf sellerId items
    else itemsOf sellerId items.
Proof.
  unfold itemsOf. rewrite filter_cons. now destruct (decide _).
Qed.

Lemma eagerCommission_cons (db : DB) (item : OrderItem.t)
    (items : list OrderItem.t) :
  eagerCommission db (item :: items)
  = (default 0 (snd <$> eagerItemCommission db item)
     + eagerCommission db items)%Q.
Proof. reflexivity. Qed.

(** What the first pass leaves in the map for a seller that has a record. *)
Lemma earningsStep_fold (db : DB) (sellerId : Id) (s : Seller.t)
    (items : list OrderItem.t) :
  sellers db !! sellerId = Some s →
  ∀ m : list (Id * Earnings.t),
  let zero := Earnings.mk 0 0 0 [] in
  let before := default zero (Map_get sellerId m) in
  let after :=
    default zero (Map_get sellerId (fold_left (earningsStep db) items m)) in
  let its := itemsOf sellerId items in
  (Earnings.totalAmount after
   == Earnings.totalAmount before + sumTotals its)%Q ∧
  (Earnings.commissionAmount after
   == Earnings.commissionAmount before + eagerCommission db its)%Q ∧
  (Earnings.netEarning after
   == Earnings.netEarning before + (sumTotals its - eagerCommission db its))%Q ∧
  (its ≠ [] →
   is_Some (Map_get sellerId (fold_left (earningsStep db) items m))).
Proof.
  intros Hs. induction items as [|item items IH]; intros m; cbv zeta.
  - cbn [fold_left]. change (itemsOf sellerId []) with (@nil OrderItem.t).
    unfold sumTotals, eagerCommission, Qsum. cbn [fmap list_fmap fold_right].
    repeat split; try ring. intros H; now contradiction H.
  - cbn [fold_left]. specialize (IH (earningsStep db m item)). cbv zeta in IH.
    rewrite itemsOf_cons.
    destruct (decide (OrderItem.seller item = sellerId)) as [He|Hne].
    + destruct IH as (Ht & Hc & Hn & Hsome).
      assert (is_Some (Map_get sellerId (earningsStep db m item))
              ∧ ∃ r a, eagerItemCommission db item = Some (r, a) ∧
                  default (Earnings.mk 0 0 0 [])
                          (Map_get sellerId (earningsStep db m item))
                  = let e := default (Earnings.mk 0 0 0 []) (Map_get sellerId m) in
                    Earnings.mk (Earnings.totalAmount e + OrderItem.total item)%Q
                      (Earnings.commissionAmount e + a)%Q
                      (Earnings.netEarning e + (OrderItem.total item - a))%Q
                      (Earnings.items e ++ [item])) as (Hone & r & a & Hi & Hstep).
      { unfold earningsStep, eagerItemCommission. rewrite He, Hs.
        rewrite Map_get_set. split; [eauto |]. eexists _, _.
        split; reflexivity. }
      cbv zeta in Hstep. rewrite Hstep in Ht, Hc, Hn.
      cbn [Earnings.totalAmount Earnings.commissionAmount
           Earnings.netEarning] in Ht, Hc, Hn.
      rewrite sumTotals_cons, eagerCommission_cons, Hi.
      cbn [fmap option_fmap option_map snd default from_option].
      unfold Datatypes.id in *.
      split; [rewrite Ht; ring |]. split; [rewrite Hc; ring |].
      split; [rewrite Hn; ring |]. intros _.
      destruct (decide (itemsOf sellerId items = [])) as [Hnil|Hnn];
        [| exact (Hsome Hnn)].
      clear -Hone Hs. revert Hone.
      generalize (earningsStep db m item). intros m1 Hone.
      revert m1 Hone. induction items as [|i items IHi]; intros m1 Hone;
        [exact Hone |].
      cbn [fold_left]. apply IHi. unfold earningsStep.
      destruct (eagerItemCommission db i) as [[r' a']|]; [| exact Hone].
      destruct (decide (OrderItem.seller i = sellerId)) as [->|Hn'].
      * rewrite Map_get_set. eauto.
      * now rewrite Map_get_set_other.
    + assert (Map_get sellerId (earningsStep db m item) = Map_get sellerId m)
        as Hsame.
      { unfold earningsStep.
        destruct (eagerItemCommission db item) as [[r a]|]; [| reflexivity].
        now rewrite Map_get_set_other. }
      rewrite Hsame in IH. exact IH.
Qed.

(** X11. On the eager path the credit of a seller plus the commission
    taken on the seller's items equals the sum of the totals of these
    items, and every seller that has a record and an item among those
    delivered receives a credit. *)
Theorem createCommissions_net_earning (db : DB) (items : list OrderItem.t) :
  (∀ tx, tx ∈ eagerCredits db items →
     let its := itemsOf (WalletTransaction.userId tx) items in
     (WalletTransaction.amount tx + eagerCommission db its == sumTotals its)%Q) ∧
  (∀ item, item ∈ items → is_Some (sellers db !! OrderItem.seller item) →
     ∃ tx, tx ∈ eagerCredits db items ∧
           WalletTransaction.userId tx = OrderItem.seller item).
Proof.
  split.
  - intros tx Hin. cbv zeta. unfold eagerCredits in Hin.
    apply list_elem_of_omap in Hin as ([sellerId e] & Hentry & Htx).
    unfold earningsTx in Htx. cbn [fst snd] in Htx.
    destruct (sellers db !! sellerId) as [s|] eqn:Hs; [| discriminate Htx].
    destruct items as [|item0 rest] eqn:Hitems; [discriminate Htx |].
    injection Htx as <-. cbn [WalletTransaction.userId WalletTransaction.amount].
    rewrite <- Hitems in *. clear Hitems.
    apply Map_get_elem in Hentry;
      [| apply earningsStep_NoDup; cbn; apply NoDup_nil_2].
    destruct (earningsStep_fold db sellerId s items Hs []) as (_ & _ & Hn & _).
    cbv zeta in Hn. rewrite Hentry in Hn.
    cbn [default Earnings.netEarning Map_get] in Hn. rewrite Hn. ring.
  - intros item Hin [s Hs].
    destruct (earningsStep_fold db (OrderItem.seller item) s items Hs [])
      as (_ & _ & _ & Hsome).
    destruct Hsome as [e He].
    { intros Hnil.
      assert (item ∈ itemsOf (OrderItem.seller item) items) as H
        by (apply list_elem_of_filter; auto).
      rewrite Hnil in H. now apply elem_of_nil in H. }
    apply Map_get_Some_elem in He.
    destruct items as [|item0 rest] eqn:Hitems; [now apply elem_of_nil in Hin |].
    rewrite <- Hitems in *.
    eexists. split.
    + unfold eagerCredits. apply list_elem_of_omap.
      exists (OrderItem.seller item, e). split; [exact He |].
      unfold earningsTx. cbn [fst snd]. rewrite Hs, Hitems. reflexivity.
    + reflexivity.
Qed.

Lemma createCommissions_net_earning_witness :
  ∃ tx, tx ∈ eagerCredits db_priority [item_priority] ∧
        WalletTransaction.userId tx = "s1" ∧
        (WalletTransaction.amount tx
         + eagerCommission db_priority (itemsOf "s1" [item_priority])
         == sumTotals (itemsOf "s1" [item_priority]))%Q.
Proof.
  destruct (createCommissions_net_earning db_priority [item_priority])
    as [Hnet Hall].
  destruct (Hall item_priority) as (tx & Hin & Hu).
  - now apply list_elem_of_singleton.
  - vm_compute. eauto.
  - exists tx. split; [exact Hin |]. split; [exact Hu |].
    pose proof (Hnet tx Hin) as H. cbv zeta in H. rewrite Hu in H. exact H.
Defined.

(** ** The status-transition hook *)

Lemma eagerRecords_complete (db : DB) (items : list OrderItem.t)
    (item : OrderItem.t) :
  item ∈ items → is_Some (sellers db !! OrderItem.seller item) →
  ∀ n, ∃ c, c ∈ eagerRecords db n items ∧
            Commission.order c = OrderItem.order item.
Proof.
  intros Hin [s Hs]. induction items as [|item' items IH]; intros n;
    [now apply elem_of_nil in Hin |].
  cbn [eagerRecords]. apply elem_of_cons in Hin as [<-|Hin].
  - unfold eagerItemCommission at 1. rewrite Hs.
    eexists. split; [apply elem_of_cons; now left | reflexivity].
  - destruct (eagerItemCommission db item') as [[r a]|].
    + destruct (IH Hin (S n)) as (c & Hc & Ho).
      exists c. split; [apply elem_of_cons; now right | exact Ho].
    + exact (IH Hin n).
Qed.

Lemma processOrderStatusTransition_frame_facts (w : World) (orderId : Id)
    (newStatus previousStatus : string) :
  match processOrderStatusTransition w orderId newStatus previousStatus with
  | Throw m => m = "Order not found" ∧ orders (database w) !! orderId = None
  | Ok (w', order) =>
      orders (database w) !! orderId = Some order ∧
      orders (database w') = orders (database w) ∧
      quantityOf w' = quantityOf w ∧
      (newStatus ≠ "Cancelled" →
         ∀ previousStatus',
           processOrderStatusTransition w orderId newStatus previousStatus'
           = Ok (w', order)) ∧
      (newStatus ∉ ["Cancelled"; "Processed"; "Delivered"] →
         database w' = database w ∧ inventory w' = inventory w) ∧
      clearedOrders w'
        = (if decide (newStatus ∈ ["Delivered"; "Cancelled"; "Returned";
                                   "Failed"; "Rejected"])
           then clearedOrders w ++ [orderId] else clearedOrders w)
  end.
Proof.
  unfold processOrderStatusTransition.
  destruct (orders (database w) !! orderId) as [order|] eqn:Ho; [| now split].
  split; [reflexivity |].
  destruct (decide (newStatus = "Cancelled")) as [Hc|Hc].
  - destruct (decide (previousStatus ∈ ["Processed"; "Shipped"]));
      cbn [database inventory quantityOf clearedOrders];
      (split; [reflexivity |]); (split; [reflexivity |]);
      (split; [intros N; contradiction |]);
      (split; [| reflexivity]); intros N; exfalso; apply N;
      rewrite Hc; compute_done.
  - destruct (decide (newStatus = "Processed")) as [Hp|Hp];
      [| destruct (decide (newStatus = "Delivered")) as [Hd|Hd]];
      cbn [database inventory quantityOf clearedOrders].
    + split; [reflexivity |]. split; [reflexivity |]. split; [reflexivity |].
      split; [| reflexivity]. intros N. exfalso. apply N. rewrite Hp.
      compute_done.
    + destruct (createCommissions_ledger_facts (database w)
                  (foundItems (database w) (Order.items order)))
        as (_ & _ & _ & _ & _ & (Hord & _) & _).
      split; [exact Hord |]. split; [reflexivity |]. split; [reflexivity |].
      split; [| reflexivity]. intros N. exfalso. apply N. rewrite Hd.
      compute_done.
    + split; [reflexivity |]. split; [reflexivity |]. split; [reflexivity |].
      split; [| reflexivity]. intros _. split; reflexivity.
Qed.

(** X12. [processOrderStatusTransition] fails only when the order is
    missing.  It returns the stored order and never writes the orders
    collection: the new status is neither validated nor saved.  The previous
    status matters only for a cancellation; a status other than Cancelled,
    Processed and Delivered leaves database and inventory as they were; the
    cache of the order is cleared exactly for Delivered, Cancelled,
    Returned, Failed and Rejected. *)
Theorem processOrderStatusTransition_frame (w : World) (orderId : Id)
    (newStatus previousStatus : string) :
  match processOrderStatusTransition w orderId newStatus previousStatus with
  | Throw m => m = "Order not found" ∧ orders (database w) !! orderId = None
  | Ok (w', order) =>
      orders (database w) !! orderId = Some order ∧
      orders (database w') = orders (database w) ∧
      quantityOf w' = quantityOf w ∧
      (newStatus ≠ "Cancelled" →
         ∀ previousStatus',
           processOrderStatusTransition w orderId newStatus previousStatus'
           = Ok (w', order)) ∧
      (newStatus ∉ ["Cancelled"; "Processed"; "Delivered"] →
         database w' = database w ∧ inventory w' = inventory w) ∧
      clearedOrders w'
        = (if decide (newStatus ∈ ["Delivered"; "Cancelled"; "Returned";
                                   "Failed"; "Rejected"])
           then clearedOrders w ++ [orderId] else clearedOrders w)
  end.
Proof.
  exact (processOrderStatusTransition_frame_facts w orderId newStatus previousStatus).
Qed.

Lemma distributeCommissions_not_delivered (db : DB) (now : Date) (orderId : Id)
    (order : Order.t) :
  orders db !! orderId = Some order → Order.status order ≠ "Delivered" →
  distributeCommissions db now orderId
  = (db, mkResponse false
           "Commissions can only be distributed for delivered orders" None).
Proof.
  intros Ho Hs. unfold distributeCommissions, distributeCommissions_try.
  rewrite Ho.
  now destruct (decide (Order.status order ≠ "Delivered")).
Qed.

(** X13. Once the hook has run for Delivered and has written a record for
    the order (an item of the order that names the order and whose seller
    has a record), [distributeCommissions] refuses the order and changes
    nothing: the batched path never pays an order that the eager path has
    handled.  The hook does not store the new status; when the order is
    stored as Delivered the refusal is the already-distributed one, and
    when it is stored with any other status the refusal is the one for
    orders that are not delivered. *)
Theorem eager_path_blocks_distribution (w w' : World) (orderId : Id)
    (previousStatus : string) (order : Order.t) (itemId : Id)
    (item : OrderItem.t) (now : Date) :
  processOrderStatusTransition w orderId "Delivered" previousStatus
    = Ok (w', order) →
  itemId ∈ Order.items order →
  orderItems (database w) !! itemId = Some item →
  OrderItem.order item = orderId →
  is_Some (sellers (database w) !! OrderItem.seller item) →
  orders (database w') !! orderId = Some order ∧
  distributeCommissions (database w') now orderId
  = (database w',
     mkResponse false
       (if decide (Order.status order = "Delivered")
        then "Commissions already distributed for this order"
        else "Commissions can only be distributed for delivered orders")
       None).
Proof.
  intros Hrun Hin Hitem Hio Hseller.
  pose proof (processOrderStatusTransition_frame_facts w orderId "Delivered"
                previousStatus) as Hf.
  rewrite Hrun in Hf. destruct Hf as (Ho & Hord & _).
  split; [now rewrite Hord |].
  destruct (decide (Order.status order = "Delivered")) as [Hst|Hst].
  2:{ apply (distributeCommissions_not_delivered _ now orderId order);
        [now rewrite Hord | exact Hst]. }
  unfold processOrderStatusTransition in Hrun. rewrite Ho in Hrun.
  cbn in Hrun. injection Hrun as <-. cbn [database] in *.
  destruct (createCommissions_ledger_facts (database w)
              (foundItems (database w) (Order.items order)))
    as (Hc & _).
  assert (item ∈ foundItems (database w) (Order.items order)) as Hfound.
  { unfold foundItems. apply list_elem_of_omap. now exists itemId. }
  destruct (eagerRecords_complete _ _ _ Hfound Hseller
              (length (commissions (database w)))) as (c & Hcin & Hco).
  apply (distributeCommissions_already _ now orderId order c).
  - now rewrite Hord.
  - exact Hst.
  - rewrite Hc. apply elem_of_app. now right.
  - congruence.
Qed.

Lemma eager_path_blocks_distribution_witness :
  distributeCommissions
    (createCommissions db_one_item (foundItems db_one_item ["i1"])) 2%Z "o1"
  = (createCommissions db_one_item (foundItems db_one_item ["i1"]),
     mkResponse false "Commissions already distributed for this order" None) ∧
  distributeCommissions
    (createCommissions db_out_for_delivery
       (foundItems db_out_for_delivery ["i1"])) 2%Z "o1"
  = (createCommissions db_out_for_delivery
       (foundItems db_out_for_delivery ["i1"]),
     mkResponse false
       "Commissions can only be distributed for delivered orders" None).
Proof.
  split.
  - refine (proj2 (eager_path_blocks_distribution
             (mkWorld db_one_item ∅ (λ _, 1%Q) [])
             (mkWorld (createCommissions db_one_item (foundItems db_one_item ["i1"]))
                ∅ (λ _, 1%Q) ["o1"])
             "o1" "Out for Delivery"
             (Order.mk "N1" "Delivered" ["i1"] None 100%Q None)
             "i1" (OrderItem.mk "i1" "o1" "s1" "p1" 100%Q) 2%Z _ _ _ _ _)).
    + reflexivity.
    + now apply list_elem_of_singleton.
    + reflexivity.
    + reflexivity.
    + vm_compute. eauto.
  - refine (proj2 (eager_path_blocks_distribution
             (mkWorld db_out_for_delivery ∅ (λ _, 1%Q) [])
             (mkWorld (createCommissions db_out_for_delivery
                         (foundItems db_out_for_delivery ["i1"]))
                ∅ (λ _, 1%Q) ["o1"])
             "o1" "Out for Delivery"
             (Order.mk "N1" "Out for Delivery" ["i1"] None 100%Q None)
             "i1" (OrderItem.mk "i1" "o1" "s1" "p1" 100%Q) 2%Z _ _ _ _ _)).
    + reflexivity.
    + now apply list_elem_of_singleton.
    + reflexivity.
    + reflexivity.
    + vm_compute. eauto.
Defined.

(** ** Reversal *)

Lemma debitWallet_Ok (userId : Id) (userType : UserType) (amount : Q)
    (description : Description) (relatedOrder : option Id) (db db' : DB) :
  debitWallet userId userType amount description relatedOrder db = Ok db' →
  let tx := WalletTransaction.mk userId userType amount Debit description
              relatedOrder None in
  commissions db' = commissions db ∧
  sameCatalogue db db' ∧
  walletTransactions db' = walletTransactions db ++ [tx] ∧
  balanceMoved db db' [tx].
Proof.
  unfold debitWallet. intros H. cbv zeta.
  destruct (balanceOf userId userType db) as [b|] eqn:Hb; [| discriminate H].
  destruct (Qlt_le_dec b amount); [discriminate H |]. injection H as <-.
  split; [now destruct userType |]. split; [destruct userType; repeat split |].
  split; [now destruct userType |].
  apply (balanceMoved_single _ _ _ b (b - amount)%Q).
  - exact Hb.
  - cbn [WalletTransaction.userId WalletTransaction.userType].
    rewrite <- (balanceOf_setBalance _ _ b (b - amount)%Q _ Hb).
    now destruct userType.
  - unfold signed. cbn. ring.
  - intros u t Hne. cbn [WalletTransaction.userId WalletTransaction.userType] in Hne.
    rewrite <- (balanceOf_setBalance_other _ _ _ _ (b - amount)%Q db Hne).
    now destruct t, userType.
Qed.

Lemma saveCommission_frame (c : Commission.t) (db : DB) :
  sameCatalogue db (saveCommission c db) ∧
  walletTransactions (saveCommission c db) = walletTransactions db ∧
  (∀ userId userType,
     balanceOf userId userType (saveCommission c db)
     = balanceOf userId userType db) ∧
  length (commissions (saveCommission c db)) = length (commissions db).
Proof.
  split; [repeat split |]. split; [reflexivity |].
  split; [intros u t; now destruct t |].
  unfold saveCommission. cbn [commissions set_commissions].
  apply length_map.
Qed.

(** One turn of the loop of the reversal. *)
Lemma reverseOne_Ok (orderId : Id) (db db' : DB) (c : Commission.t) :
  reverseOne orderId db c = Ok db' →
  let txs := omap (debitOf orderId) [c] in
  commissions db'
    = (if decide (Commission.status c = Paid)
       then commissions (saveCommission (Commission.with_status Cancelled c) db)
       else commissions db) ∧
  sameCatalogue db db' ∧
  walletTransactions db' = walletTransactions db ++ txs ∧
  balanceMoved db db' txs.
Proof.
  unfold reverseOne, debitOf. cbn [omap list_omap]. intros H.
  destruct (decide (Commission.status c = Paid)) as [Hp|Hp].
  2:{ injection H as <-. rewrite app_nil_r.
      split; [reflexivity |]. split; [apply sameCatalogue_refl |].
      split; [reflexivity | apply balanceMoved_refl]. }
  set (db1 := saveCommission (Commission.with_status Cancelled c) db) in *.
  destruct (saveCommission_frame (Commission.with_status Cancelled c) db)
    as (Hcat & Hw & Hbal & _). fold db1 in Hcat, Hw, Hbal.
  destruct (if decide (Commission.type c = Some SELLER)
            then Commission.seller c else Commission.deliveryBoy c)
    as [userId|].
  - destruct (Commission.type c) as [userType|]; [| discriminate H].
    apply debitWallet_Ok in H as (Hc2 & Hcat2 & Hw2 & Hb2).
    split; [exact Hc2 |].
    split; [exact (sameCatalogue_trans _ _ _ Hcat Hcat2) |].
    split; [now rewrite Hw2, Hw |].
    intros u t. specialize (Hb2 u t). now rewrite Hbal in Hb2.
  - assert (db' = db1) as -> by (destruct (Commission.type c); congruence).
    replace (match Commission.type c with
             | Some _ | _ => None
             end) with (@None WalletTransaction.t)
      by (now destruct (Commission.type c)).
    rewrite app_nil_r.
    split; [reflexivity |]. split; [exact Hcat |]. split; [exact Hw |].
    now apply balanceMoved_same.
Qed.

Lemma reverseAll_Ok (orderId : Id) (cs : list Commission.t) :
  ∀ db db' : DB,
  reverseAll orderId cs db = Ok db' →
  let txs := omap (debitOf orderId) cs in
  sameCatalogue db db' ∧
  walletTransactions db' = walletTransactions db ++ txs ∧
  balanceMoved db db' txs ∧
  length (commissions db') = length (commissions db).
Proof.
  induction cs as [|c cs IH]; intros db db' H; cbv zeta.
  - injection H as <-. cbn. rewrite app_nil_r.
    split; [apply sameCatalogue_refl |]. split; [reflexivity |].
    split; [apply balanceMoved_refl | reflexivity].
  - cbn [reverseAll] in H.
    destruct (reverseOne orderId db c) as [db1|] eqn:H1; [| discriminate H].
    cbn in H. apply IH in H as (Hcat2 & Hw2 & Hb2 & Hlen2).
    pose proof (reverseOne_Ok _ _ _ _ H1) as (Hc1 & Hcat1 & Hw1 & Hb1).
    change (c :: cs) with ([c] ++ cs). rewrite omap_app.
    split; [exact (sameCatalogue_trans _ _ _ Hcat1 Hcat2) |].
    split; [rewrite Hw2, Hw1; now rewrite app_assoc |].
    split; [exact (balanceMoved_trans _ _ _ _ _ Hb1 Hb2) |].
    rewrite Hlen2, Hc1. destruct (decide _); [| reflexivity].
    apply saveCommission_frame.
Qed.

Lemma reverseAll_no_paid (orderId : Id) (cs : list Commission.t) :
  ∀ db db' : DB,
  reverseAll orderId cs db = Ok db' →
  (∀ c, c ∈ commissions db → Commission.order c = orderId →
        Commission.status c = Paid →
        ∃ c0, c0 ∈ cs ∧ Commission._id c0 = Commission._id c ∧
              Commission.status c0 = Paid) →
  ∀ c, c ∈ commissions db' → Commission.order c = orderId →
       Commission.status c ≠ Paid.
Proof.
  induction cs as [|c1 cs IH]; intros db db' H Hinv c Hin Ho Hp.
  - injection H as <-. destruct (Hinv c Hin Ho Hp) as (c0 & Hc0 & _).
    now apply elem_of_nil in Hc0.
  - cbn [reverseAll] in H.
    destruct (reverseOne orderId db c1) as [db1|] eqn:H1; [| discriminate H].
    cbn in H. refine (IH db1 db' H _ c Hin Ho Hp).
    clear c Hin Ho Hp. intros c Hin Ho Hp.
    pose proof (reverseOne_Ok _ _ _ _ H1) as (Hc1 & _).
    rewrite Hc1 in Hin.
    destruct (decide (Commission.status c1 = Paid)) as [Hp1|Hp1].
    + unfold saveCommission in Hin. cbn [commissions set_commissions] in Hin.
      apply list_elem_of_fmap in Hin as (c' & -> & Hin).
      destruct (decide (Commission._id c'
                        = Commission._id (Commission.with_status Cancelled c1)))
        as [He|Hne]; [discriminate Hp |].
      destruct (Hinv c' Hin Ho Hp) as (c0 & Hc0 & Hid & Hp0).
      apply elem_of_cons in Hc0 as [->|Hc0]; [| eauto].
      exfalso. apply Hne. now rewrite <- Hid.
    + destruct (Hinv c Hin Ho Hp) as (c0 & Hc0 & Hid & Hp0).
      apply elem_of_cons in Hc0 as [->|Hc0]; [contradiction | eauto].
Qed.

Lemma reverseAll_unpaid (orderId : Id) (cs : list Commission.t) (db : DB) :
  Forall (λ c, Commission.status c ≠ Paid) cs →
  reverseAll orderId cs db = Ok db.
Proof.
  induction 1 as [|c cs Hc _ IH]; [reflexivity |].
  cbn [reverseAll]. unfold reverseOne.
  destruct (decide (Commission.status c = Paid)); [contradiction |].
  exact IH.
Qed.

(** A call that finds no Paid record of the order writes nothing. *)
Lemma reverseCommissions_unpaid (db : DB) (orderId : Id) :
  (∀ c, c ∈ commissions db → Commission.order c = orderId →
        Commission.status c ≠ Paid) →
  ∃ response,
    reverseCommissions db orderId = (db, response) ∧ success response = true.
Proof.
  intros H. unfold reverseCommissions.
  destruct (decide (length (findCommissions orderId db) = 0)%nat);
    [eexists; split; reflexivity |].
  rewrite reverseAll_unpaid; [eexists; split; reflexivity |].
  apply Forall_forall. intros c Hin.
  apply list_elem_of_filter in Hin as [Ho Hin]. now apply H.
Qed.

Lemma reverseCommissions_effect_facts (db : DB) (orderId : Id) :
  let '(db', response) := reverseCommissions db orderId in
  let debits := omap (debitOf orderId) (findCommissions orderId db) in
  (success response = false → db' = db) ∧
  (success response = true →
     walletTransactions db' = walletTransactions db ++ debits ∧
     balanceMoved db db' debits ∧
     sameCatalogue db db' ∧
     length (commissions db') = length (commissions db) ∧
     (∀ c, c ∈ commissions db' → Commission.order c = orderId →
           Commission.status c ≠ Paid)) ∧
  Forall (λ tx, WalletTransaction.type tx = Debit ∧
                ∃ c, c ∈ commissions db ∧ Commission.order c = orderId ∧
                     Commission.status c = Paid ∧
                     WalletTransaction.amount tx = Commission.commissionAmount c)
         debits.
Proof.
  unfold reverseCommissions.
  assert (Forall (λ tx, WalletTransaction.type tx = Debit ∧
                ∃ c, c ∈ commissions db ∧ Commission.order c = orderId ∧
                     Commission.status c = Paid ∧
                     WalletTransaction.amount tx = Commission.commissionAmount c)
            (omap (debitOf orderId) (findCommissions orderId db))) as Hdebits.
  { apply Forall_forall. intros tx Hin.
    apply list_elem_of_omap in Hin as (c & Hc & Hd).
    apply list_elem_of_filter in Hc as [Ho Hc]. unfold debitOf in Hd.
    destruct (decide (Commission.status c = Paid)) as [Hp|]; [| discriminate Hd].
    destruct (if decide (Commission.type c = Some SELLER)
              then Commission.seller c else Commission.deliveryBoy c);
      [| discriminate Hd].
    destruct (Commission.type c); [| discriminate Hd]. injection Hd as <-.
    split; [reflexivity |]. exists c. auto. }
  destruct (decide (length (findCommissions orderId db) = 0)%nat) as [Hz|Hnz].
  - cbv zeta. split; [reflexivity |]. split; [| exact Hdebits]. intros _.
    assert (findCommissions orderId db = []) as Hnil
      by (destruct (findCommissions orderId db); [reflexivity | discriminate Hz]).
    rewrite Hnil. cbn [omap list_omap]. rewrite app_nil_r.
    split; [reflexivity |]. split; [apply balanceMoved_refl |].
    split; [apply sameCatalogue_refl |]. split; [reflexivity |].
    intros c Hin Ho Hp.
    assert (c ∈ findCommissions orderId db) as Hf
      by (apply list_elem_of_filter; auto).
    rewrite Hnil in Hf. now apply elem_of_nil in Hf.
  - destruct (reverseAll orderId (findCommissions orderId db) db)
      as [db'|] eqn:Hall; cbv zeta.
    + split; [discriminate |]. split; [| exact Hdebits]. intros _.
      destruct (reverseAll_Ok _ _ _ _ Hall) as (Hcat & Hw & Hb & Hlen).
      split; [exact Hw |]. split; [exact Hb |]. split; [exact Hcat |].
      split; [exact Hlen |].
      apply (reverseAll_no_paid _ _ _ _ Hall).
      intros c Hin Ho Hp. exists c.
      split; [apply list_elem_of_filter; auto | auto].
    + split; [reflexivity |]. split; [discriminate | exact Hdebits].
Qed.

(** X14. A reversal that does not succeed leaves the database as it was.
    One that succeeds appends, for the Paid records of the order that name
    their subject, one Debit each of the record's commissionAmount and
    nothing else to the ledger, moves every balance by exactly these debits,
    keeps the number of Commission records, leaves orders, items, products,
    categories, settings and withdrawal requests alone, and leaves no record
    of the order Paid. *)
Theorem reverseCommissions_effect (db : DB) (orderId : Id) :
  let '(db', response) := reverseCommissions db orderId in
  let debits := omap (debitOf orderId) (findCommissions orderId db) in
  (success response = false → db' = db) ∧
  (success response = true →
     walletTransactions db' = walletTransactions db ++ debits ∧
     balanceMoved db db' debits ∧
     sameCatalogue db db' ∧
     length (commissions db') = length (commissions db) ∧
     (∀ c, c ∈ commissions db' → Commission.order c = orderId →
           Commission.status c ≠ Paid)) ∧
  Forall (λ tx, WalletTransaction.type tx = Debit ∧
                ∃ c, c ∈ commissions db ∧ Commission.order c = orderId ∧
                     Commission.status c = Paid ∧
                     WalletTransaction.amount tx = Commission.commissionAmount c)
         debits.
Proof.
  exact (reverseCommissions_effect_facts db orderId).
Qed.

(** X15. Reversal is idempotent: after a reversal that succeeded, a second
    one for the same order succeeds and changes nothing, so no subject is
    debited twice for one record. *)
Theorem reverseCommissions_idempotent (db db' : DB) (orderId : Id)
    (response : Response) :
  reverseCommissions db orderId = (db', response) →
  success response = true →
  ∃ response',
    reverseCommissions db' orderId = (db', response') ∧
    success response' = true.
Proof.
  intros Hrun Hs.
  pose proof (reverseCommissions_effect_facts db orderId) as H.
  rewrite Hrun in H. cbv zeta in H.
  destruct H as (_ & H & _). destruct (H Hs) as (_ & _ & _ & _ & Hnp).
  now apply reverseCommissions_unpaid.
Qed.

Lemma reverseCommissions_idempotent_witness :
  ∃ response',
    reverseCommissions
      (reverseCommissions (distributeCommissions db_delivered 1%Z "o1").1 "o1").1
      "o1"
    = ((reverseCommissions (distributeCommissions db_delivered 1%Z "o1").1 "o1").1,
       response') ∧
    success response' = true.
Proof.
  apply (reverseCommissions_idempotent
           (distributeCommissions db_delivered 1%Z "o1").1 _ "o1"
           (mkResponse true "Commissions reversed successfully" None)).
  - vm_compute. reflexivity.
  - reflexivity.
Defined.

(** X16. The reversal never touches what the eager path wrote: the records
    of [createCommissions] are Pending, so when the order had no Paid record
    before, reversing after the eager path succeeds and leaves every record,
    balance and transaction in place; the sellers keep their credits. *)
Theorem reverseCommissions_keeps_eager_credits (db : DB)
    (items : list OrderItem.t) (orderId : Id) :
  (∀ c, c ∈ commissions db → Commission.order c = orderId →
        Commission.status c ≠ Paid) →
  ∃ response,
    reverseCommissions (createCommissions db items) orderId
      = (createCommissions db items, response) ∧
    success response = true.
Proof.
  intros H. apply reverseCommissions_unpaid. intros c Hin Ho.
  destruct (createCommissions_ledger_facts db items) as (Hc & Hp & _).
  cbv zeta in Hc. rewrite Hc in Hin. apply elem_of_app in Hin as [Hin|Hin].
  - now apply H.
  - destruct (proj1 (Forall_forall _ _) Hp c Hin) as (Hst & _).
    rewrite Hst. discriminate.
Qed.

Lemma reverseCommissions_keeps_eager_credits_witness :
  ∃ response,
    reverseCommissions (createCommissions db_one_item [item_priority]) "o1"
      = (createCommissions db_one_item [item_priority], response) ∧
    success response = true.
Proof.
  apply reverseCommissions_keeps_eager_credits.
  intros c Hin. now apply elem_of_nil in Hin.
Defined.

(** ** Distribution followed by reversal *)

Lemma filter_all {A} (P : A → Prop) `{∀ x, Decision (P x)} (l : list A) :
  Forall P l → filter P l = l.
Proof.
  induction 1 as [|x l Hx _ IH]; [reflexivity |].
  rewrite filter_cons. destruct (decide (P x)); [now rewrite IH | contradiction].
Qed.

Lemma movement_records (order : Order.t) (orderId userId : Id)
    (userType : UserType) (cs : list Commission.t) :
  (movement userId userType
     (omap (creditOf order) cs ++ omap (debitOf orderId) cs)
   == Qsum (recordNet order orderId userId userType <$> cs))%Q.
Proof.
  rewrite movement_app. induction cs as [|c cs IH].
  - unfold movement, Qsum. cbn. ring.
  - change (c :: cs) with ([c] ++ cs). rewrite !omap_app, !movement_app.
    rewrite fmap_app, Qsum_app. rewrite <- IH. unfold recordNet, Qsum.
    cbn [fmap list_fmap fold_right]. ring.
Qed.

Lemma Qsum_zero {A} (f : A → Q) (l : list A) :
  Forall (λ x, (f x == 0)%Q) l → (Qsum (f <$> l) == 0)%Q.
Proof.
  induction 1 as [|x l Hx _ IH]; [reflexivity |].
  rewrite fmap_cons. unfold Qsum in *. cbn [fold_right]. rewrite Hx, IH. ring.
Qed.

Lemma Qsum_single {A B} (key : A → B) (f : A → Q) (l : list A) (c : A) :
  NoDup (key <$> l) → c ∈ l →
  (∀ x, x ∈ l → key x ≠ key c → (f x == 0)%Q) →
  (Qsum (f <$> l) == f c)%Q.
Proof.
  induction l as [|x l IH]; intros Hnd Hin Hz; [now apply elem_of_nil in Hin |].
  rewrite fmap_cons in Hnd. apply NoDup_cons in Hnd as [Hx Hnd].
  rewrite fmap_cons. unfold Qsum in *. cbn [fold_right].
  apply elem_of_cons in Hin as [->|Hin].
  - rewrite (Qsum_zero f l); [ring |]. apply Forall_forall. intros y Hy.
    apply Hz; [apply elem_of_cons; now right |].
    intros E. apply Hx. rewrite <- E. now apply list_elem_of_fmap_2.
  - rewrite IH; [| exact Hnd | exact Hin
                 | intros y Hy; apply Hz; apply elem_of_cons; now right].
    rewrite (Hz x); [ring | apply elem_of_cons; now left |].
    intros E. apply Hx. rewrite E. now apply list_elem_of_fmap_2.
Qed.

Lemma movement_single (userId : Id) (userType : UserType)
    (tx : WalletTransaction.t) :
  movement userId userType [tx]
  = if decide (WalletTransaction.userId tx = userId ∧
               WalletTransaction.userType tx = userType)
    then (signed tx + 0)%Q else 0%Q.
Proof.
  unfold movement. rewrite filter_cons.
  destruct (decide _); now rewrite filter_nil.
Qed.

Lemma recordNet_unfold (order : Order.t) (orderId userId : Id)
    (userType : UserType) (c : Commission.t) (credit debit : WalletTransaction.t) :
  creditOf order c = Some credit → debitOf orderId c = Some debit →
  recordNet order orderId userId userType c
  = (movement userId userType [credit] + movement userId userType [debit])%Q.
Proof.
  intros Hc Hd. unfold recordNet. cbn [omap list_omap]. now rewrite Hc, Hd.
Qed.

Lemma recordNet_seller (order : Order.t) (orderId userId : Id)
    (userType : UserType) (now : Date) (n : nat) (entry : Id * Share) :
  (recordNet order orderId userId userType (sellerRecord orderId now n entry)
   == if decide (entry.1 = userId ∧ SELLER = userType)
      then orderAmount entry.2 - 2 * amount entry.2 else 0)%Q.
Proof.
  erewrite recordNet_unfold; [| reflexivity | reflexivity].
  rewrite !movement_single.
  cbn [WalletTransaction.userId WalletTransaction.userType].
  destruct (decide (entry.1 = userId ∧ SELLER = userType));
    unfold signed, sellerRecord;
    cbn [WalletTransaction.type WalletTransaction.amount
         Commission.orderAmount Commission.commissionAmount]; ring.
Qed.

Lemma recordNet_delivery (order : Order.t) (orderId userId : Id)
    (userType : UserType) (now : Date) (n : nat) (entry : Id * Share) :
  (recordNet order orderId userId userType (deliveryRecord orderId now n entry)
   == 0)%Q.
Proof.
  erewrite recordNet_unfold; [| reflexivity | reflexivity].
  rewrite !movement_single.
  cbn [WalletTransaction.userId WalletTransaction.userType].
  destruct (decide (entry.1 = userId ∧ DELIVERY_BOY = userType));
    unfold signed, deliveryRecord;
    cbn [WalletTransaction.type WalletTransaction.amount
         Commission.orderAmount Commission.commissionAmount]; ring.
Qed.

Lemma sellerRecords_subjects (orderId : Id) (now : Date)
    (news : list Commission.t) (entries : list (Id * Share)) :
  Forall2 (λ c entry, ∃ n, c = sellerRecord orderId now n entry) news entries →
  subjectOf <$> news = (λ entry, (Some SELLER, Some entry.1, None)) <$> entries.
Proof.
  induction 1 as [|c entry news entries [n ->] _ IH]; [reflexivity |].
  rewrite !fmap_cons, IH. reflexivity.
Qed.

(** X17. What a reversal gives back after a distribution, for every order:
    each delivery partner's balance returns to its value before the
    distribution, but a seller with a record [c] in the distribution ends
    at the old balance plus orderAmount - 2 * commissionAmount of [c]: the
    distribution credited orderAmount - commissionAmount and the reversal
    debits commissionAmount only. *)
Theorem reversal_after_distribution (db db1 db2 : DB) (now : Date)
    (orderId : Id) (m : string) (created : list Commission.t)
    (response : Response) :
  distributeCommissions db now orderId
    = (db1, mkResponse true m (Some created)) →
  reverseCommissions db1 orderId = (db2, response) →
  success response = true →
  (∀ deliveryBoyId b,
     balanceOf deliveryBoyId DELIVERY_BOY db = Some b →
     ∃ b2, balanceOf deliveryBoyId DELIVERY_BOY db2 = Some b2 ∧ (b2 == b)%Q) ∧
  (∀ c sellerId b,
     c ∈ created → Commission.type c = Some SELLER →
     Commission.seller c = Some sellerId →
     balanceOf sellerId SELLER db = Some b →
     ∃ b2, balanceOf sellerId SELLER db2 = Some b2 ∧
           (b2 == b + (Commission.orderAmount c
                       - 2 * Commission.commissionAmount c))%Q).
Proof.
  intros Hdist Hrev Hsucc.
  unfold distributeCommissions in Hdist.
  destruct (distributeCommissions_try orderId now db) as [[db1' created']|] eqn:Ht;
    [| discriminate Hdist].
  injection Hdist as -> _ ->.
  apply distributeCommissions_try_Ok in Ht
    as (order & data & sellerNews & deliveryNews
        & Ho & _ & Hnone & Hcalc & -> & [Hc _ _ Hb1] & Hf & Hdel).
  unfold calculateOrderCommissions in Hcalc. rewrite Ho in Hcalc.
  injection Hcalc as <-. cbn [seller deliveryBoy] in Hf, Hdel.
  set (entries := fold_left (accumulate db) (Order.items order) []) in *.
  assert (∃ deliveryEntries,
            Forall2 (λ c entry, ∃ n, c = deliveryRecord orderId now n entry)
                    deliveryNews deliveryEntries) as [deliveryEntries Hfd].
  { destruct (deliveryBoyCommission db order) as [entry|].
    - destruct Hdel as [n ->]. exists [entry]. repeat constructor. eauto.
    - subst deliveryNews. exists []. constructor. }
  clear Hdel.
  assert (findCommissions orderId db1 = sellerNews ++ deliveryNews) as Hfind.
  { unfold findCommissions in *. rewrite Hc, filter_app, Hnone. cbn [app].
    apply filter_all. apply Forall_app. split.
    - eapply Forall2_Forall_l; [exact Hf |].
      apply Forall_forall. now intros entry _ c [n ->].
    - eapply Forall2_Forall_l; [exact Hfd |].
      apply Forall_forall. now intros entry _ c [n ->]. }
  pose proof (reverseCommissions_effect_facts db1 orderId) as Heff.
  rewrite Hrev in Heff. cbv zeta in Heff. destruct Heff as (_ & Heff & _).
  destruct (Heff Hsucc) as (_ & Hb2 & _). rewrite Hfind in Hb2.
  pose proof (balanceMoved_trans _ _ _ _ _ Hb1 Hb2) as Hb.
  assert (∀ u t, Forall (λ c, (recordNet order orderId u t c == 0)%Q)
                        deliveryNews) as Hdz.
  { intros u t. eapply Forall2_Forall_l; [exact Hfd |].
    apply Forall_forall. intros entry _ c [n ->]. apply recordNet_delivery. }
  assert (∀ u t b,
            balanceOf u t db = Some b →
            ∃ b2, balanceOf u t db2 = Some b2 ∧
                  (b2 == b + Qsum (recordNet order orderId u t <$> sellerNews))%Q)
    as Hsum.
  { intros u t b Hbal. specialize (Hb u t). rewrite Hbal in Hb.
    destruct (balanceOf u t db2) as [b2|]; [| contradiction].
    exists b2. split; [reflexivity |].
    rewrite Hb, movement_records, fmap_app, Qsum_app.
    rewrite (Qsum_zero _ deliveryNews (Hdz u t)). ring. }
  split.
  - intros d b Hbal. destruct (Hsum _ _ _ Hbal) as (b2 & Hb2' & Heq).
    exists b2. split; [exact Hb2' |]. rewrite Heq.
    rewrite (Qsum_zero _ sellerNews); [ring |].
    eapply Forall2_Forall_l; [exact Hf |].
    apply Forall_forall. intros entry _ c [n ->].
    rewrite recordNet_seller.
    destruct (decide _) as [[_ N]|_]; [discriminate N | reflexivity].
  - intros c s b Hin Hty Hsel Hbal.
    destruct (Hsum _ _ _ Hbal) as (b2 & Hb2' & Heq).
    exists b2. split; [exact Hb2' |]. rewrite Heq.
    assert (c ∈ sellerNews) as Hcs.
    { apply elem_of_app in Hin as [Hin|Hin]; [exact Hin |].
      apply list_elem_of_lookup_1 in Hin as [i Hi].
      destruct (Forall2_lookup_l _ _ _ _ _ Hfd Hi) as (entry & _ & n & ->).
      discriminate Hty. }
    assert (NoDup (subjectOf <$> sellerNews)) as Hnd.
    { rewrite (sellerRecords_subjects _ _ _ _ Hf).
      assert (((λ entry : Id * Share, (Some SELLER, Some entry.1, @None Id))
                 <$> entries)
              = (λ k : Id, (Some SELLER, Some k, @None Id)) <$> entries.*1) as ->
        by (now rewrite <- list_fmap_compose).
      apply NoDup_fmap_2.
      - intros k1 k2 E. now injection E.
      - apply accumulate_fold_NoDup. cbn. apply NoDup_nil_2. }
    rewrite (Qsum_single subjectOf _ sellerNews c Hnd Hcs).
    + apply list_elem_of_lookup_1 in Hcs as [i Hi].
      destruct (Forall2_lookup_l _ _ _ _ _ Hf Hi) as (entry & _ & n & ->).
      rewrite recordNet_seller. cbn in Hsel. injection Hsel as Hs.
      destruct (decide _) as [_|N]; [| exfalso; apply N; now split].
      unfold sellerRecord.
      cbn [Commission.orderAmount Commission.commissionAmount]. ring.
    + intros x Hx Hne.
      apply list_elem_of_lookup_1 in Hx as [i Hi].
      destruct (Forall2_lookup_l _ _ _ _ _ Hf Hi) as (entry & _ & n & ->).
      rewrite recordNet_seller.
      destruct (decide _) as [[E _]|_]; [| reflexivity].
      exfalso. apply Hne.
      apply list_elem_of_lookup_1 in Hcs as [j Hj].
      destruct (Forall2_lookup_l _ _ _ _ _ Hf Hj) as (entry' & _ & n' & ->).
      cbn in Hsel. injection Hsel as Hs.
      unfold subjectOf, sellerRecord. cbn. congruence.
Qed.

Lemma reversal_after_distribution_witness :
  (∃ b2, balanceOf "d1" DELIVERY_BOY
           (reverseCommissions (distributeCommissions db_delivered 1%Z "o1").1
              "o1").1 = Some b2 ∧ (b2 == 0)%Q) ∧
  (∃ b2, balanceOf "s1" SELLER
           (reverseCommissions (distributeCommissions db_delivered 1%Z "o1").1
              "o1").1 = Some b2 ∧
         (b2 == 0 + (100 - 2 * (100 * 10 / 100)))%Q).
Proof.
  destruct (reversal_after_distribution db_delivered
              (distributeCommissions db_delivered 1%Z "o1").1
              (reverseCommissions (distributeCommissions db_delivered 1%Z "o1").1
                 "o1").1
              1%Z "o1" "Commissions distributed successfully"
              [sellerRecord "o1" 1%Z 0 ("s1", mkShare (100 * 10 / 100) 10 100);
               deliveryRecord "o1" 1%Z 1
                 ("d1", mkShare (Math_round (100 * 5 / 100 * 100) / 100) 5 100)]
              (mkResponse true "Commissions reversed successfully" None))
    as [Hd Hs].
  - vm_compute. reflexivity.
  - vm_compute. reflexivity.
  - reflexivity.
  - split.
    + apply (Hd "d1" 0%Q). reflexivity.
    + apply (Hs (sellerRecord "o1" 1%Z 0 ("s1", mkShare (100 * 10 / 100) 10 100))
                "s1" 0%Q); [apply elem_of_cons; now left | reflexivity ..].
Defined.

(** ** Withdrawals, continued *)

Lemma creditWallet_frame (userId : Id) (userType : UserType) (amount : Q)
    (description : Description) (relatedOrder : option Id)
    (relatedCommission : option nat) (db db' : DB) :
  creditWallet userId userType amount description relatedOrder
    relatedCommission db = Ok db' →
  sameCatalogue db db' ∧ commissions db' = commissions db ∧
  ∃ tx, walletTransactions db' = walletTransactions db ++ [tx] ∧
        WalletTransaction.type tx = Credit ∧
        WalletTransaction.amount tx = amount.
Proof.
  unfold creditWallet. intros H.
  destruct (balanceOf userId userType db) as [b|]; [| discriminate H].
  injection H as <-.
  split; [destruct userType; repeat split |].
  split; [now destruct userType |].
  eexists. split; [destruct userType; reflexivity |]. split; reflexivity.
Qed.

(** X18. [processWithdrawal] writes only when it answers 200: with any
    other answer (400, 404 or 500) the database is left as it was. *)
Theorem processWithdrawal_writes_only_on_200 (db : DB) (now : Date)
    (body : Body) :
  let '(db', reply) := processWithdrawal db now body in
  (statusCode reply ≠ 200 → db' = db) ∧
  (statusCode reply = 200 ↔ success (json reply) = true).
Proof.
  unfold processWithdrawal, processWithdrawal_check.
  destruct (idToProcess body) as [i|]; [| split; [reflexivity | now split]].
  destruct (truthyS (action body)) as [a|]; [| split; [reflexivity | now split]].
  destruct (withdrawRequests db !! i) as [request|];
    [| split; [reflexivity | now split]].
  destruct (decide (WithdrawRequest.status request ≠ WPending));
    [split; [reflexivity | now split] |].
  unfold processWithdrawal_txn.
  destruct (processWithdrawal_try i a (remark body) now request db);
    cbn [statusCode json success]; split; try reflexivity; try (now split).
  intros N. now contradiction N.
Qed.

(** X19. Approving a Pending request moves no money: the request becomes
    Approved with the time of processing, its remarks stay as they were
    (the remark of the call is not stored), and sellers, delivery partners,
    ledger, Commission records and all other requests are unchanged. *)
Theorem processWithdrawal_approve (db : DB) (now : Date) (body : Body) (i : Id)
    (request : WithdrawRequest.t) :
  idToProcess body = Some i →
  action body = Some "Approve" →
  withdrawRequests db !! i = Some request →
  WithdrawRequest.status request = WPending →
  let '(db', reply) := processWithdrawal db now body in
  reply = mkReply 200 (mkResponse true "Withdrawal Approveed successfully" None) ∧
  withdrawRequests db' !! i
    = Some (WithdrawRequest.mk (WithdrawRequest.userId request)
              (WithdrawRequest.userType request) (WithdrawRequest.amount request)
              WApproved (WithdrawRequest.remarks request) (Some now)) ∧
  (∀ j, j ≠ i → withdrawRequests db' !! j = withdrawRequests db !! j) ∧
  sellers db' = sellers db ∧ deliveries db' = deliveries db ∧
  walletTransactions db' = walletTransactions db ∧
  commissions db' = commissions db.
Proof.
  intros Hi Ha Hr Hs. unfold processWithdrawal.
  rewrite (processWithdrawal_check_pending _ _ _ _ _ Hi Ha ltac:(discriminate) Hr Hs).
  unfold processWithdrawal_txn, processWithdrawal_try.
  destruct (decide ("Approve" = "Approve")) as [_|N]; [| contradiction].
  split; [reflexivity |]. cbn. split.
  - now rewrite lookup_alter_eq, Hr.
  - split; [intros j Hj; now rewrite lookup_alter_ne |]. auto.
Qed.

Lemma processWithdrawal_approve_witness :
  let '(db', reply) := processWithdrawal db_withdraw 7%Z body_approve in
  withdrawRequests db' !! "w1"
    = Some (WithdrawRequest.mk "s1" SELLER 500%Q WApproved None (Some 7%Z)) ∧
  sellers db' = sellers db_withdraw.
Proof.
  pose proof (processWithdrawal_approve db_withdraw 7%Z body_approve "w1"
                request_500 eq_refl eq_refl eq_refl eq_refl) as H.
  destruct (processWithdrawal db_withdraw 7%Z body_approve) as [db' reply].
  destruct H as (_ & Hw & _ & Hs & _). split; [exact Hw | exact Hs].
Defined.

Lemma processWithdrawal_settled (db : DB) (now : Date) (body : Body) (i : Id)
    (request : WithdrawRequest.t) :
  idToProcess body = Some i →
  withdrawRequests db !! i = Some request →
  WithdrawRequest.status request ≠ WPending →
  processWithdrawal db now body
  = (db,
     mkReply 400
       (mkResponse false
          match truthyS (action body) with
          | Some _ => "Request is already processed"
          | None => "Request ID and Action are required"
          end None)).
Proof.
  intros Hi Hr Hs. unfold processWithdrawal, processWithdrawal_check.
  rewrite Hi. destruct (truthyS (action body)); [| reflexivity].
  rewrite Hr.
  now destruct (decide (WithdrawRequest.status request ≠ WPending)).
Qed.

(** X20. A request is processed once when the calls follow one another:
    after a call that answered 200 with Approve or Reject, every later call
    that names the same request is answered 400 and changes nothing.  The
    answer is "Request is already processed" when the later call carries an
    action, whatever it is, and "Request ID and Action are required" when
    its action is missing or empty. *)
Theorem processWithdrawal_once_in_sequence (db db' : DB) (now now' : Date)
    (body body' : Body) (i : Id) (reply : Reply) :
  processWithdrawal db now body = (db', reply) →
  statusCode reply = 200 →
  idToProcess body = Some i →
  action body = Some "Approve" ∨ action body = Some "Reject" →
  idToProcess body' = Some i →
  processWithdrawal db' now' body'
  = (db',
     mkReply 400
       (mkResponse false
          match truthyS (action body') with
          | Some _ => "Request is already processed"
          | None => "Request ID and Action are required"
          end None)).
Proof.
  intros Hrun H200 Hi Hact Hi'.
  unfold processWithdrawal, processWithdrawal_check in Hrun. rewrite Hi in Hrun.
  assert (∃ act, truthyS (action body) = Some act ∧
                 (act = "Approve" ∨ act = "Reject")) as (act & Hta & Hact').
  { destruct Hact as [->| ->]; eexists; split; eauto. }
  rewrite Hta in Hrun.
  destruct (withdrawRequests db !! i) as [request|] eqn:Hr;
    [| injection Hrun as <- <-; discriminate H200].
  destruct (decide (WithdrawRequest.status request ≠ WPending));
    [injection Hrun as <- <-; discriminate H200 |].
  unfold processWithdrawal_txn in Hrun.
  destruct (processWithdrawal_try i act (remark body) now request db)
    as [db1|] eqn:Htry; injection Hrun as <- <-; [| discriminate H200].
  assert (∃ request', withdrawRequests db1 !! i = Some request' ∧
                      WithdrawRequest.status request' ≠ WPending)
    as (request' & Hr' & Hs').
  { unfold processWithdrawal_try in Htry. destruct Hact' as [->| ->].
    - destruct (decide ("Approve" = "Approve")) as [_|N]; [| contradiction].
      injection Htry as <-. eexists. split.
      + cbn. rewrite lookup_alter_eq, Hr. reflexivity.
      + discriminate.
    - destruct (decide ("Reject" = "Approve")) as [E|_]; [discriminate E |].
      destruct (decide ("Reject" = "Reject")) as [_|N]; [| contradiction].
      destruct (creditWallet _ _ _ _ _ _ db) as [db2|] eqn:Hw;
        [| discriminate Htry].
      injection Htry as <-.
      apply creditWallet_frame in Hw as ((_ & _ & _ & _ & _ & _ & Hwr) & _).
      eexists. split.
      + cbn. rewrite lookup_alter_eq, Hwr, Hr. reflexivity.
      + discriminate. }
  exact (processWithdrawal_settled _ _ _ _ _ Hi' Hr' Hs').
Qed.

Lemma processWithdrawal_once_in_sequence_witness :
  processWithdrawal (processWithdrawal db_withdraw 1%Z body_reject).1 2%Z
    body_approve
  = ((processWithdrawal db_withdraw 1%Z body_reject).1,
     mkReply 400 (mkResponse false "Request is already processed" None)) ∧
  processWithdrawal (processWithdrawal db_withdraw 1%Z body_reject).1 2%Z
    (mkBody None None (Some "w1") None)
  = ((processWithdrawal db_withdraw 1%Z body_reject).1,
     mkReply 400 (mkResponse false "Request ID and Action are required" None)).
Proof.
  split.
  - refine (processWithdrawal_once_in_sequence db_withdraw _ 1%Z 2%Z body_reject
              body_approve "w1"
              (processWithdrawal db_withdraw 1%Z body_reject).2 _ _ _ _ _).
    + now destruct (processWithdrawal db_withdraw 1%Z body_reject).
    + vm_compute. reflexivity.
    + reflexivity.
    + now right.
    + reflexivity.
  - refine (processWithdrawal_once_in_sequence db_withdraw _ 1%Z 2%Z body_reject
              (mkBody None None (Some "w1") None) "w1"
              (processWithdrawal db_withdraw 1%Z body_reject).2 _ _ _ _ _).
    + now destruct (processWithdrawal db_withdraw 1%Z body_reject).
    + vm_compute. reflexivity.
    + reflexivity.
    + now right.
    + reflexivity.
Defined.

(** X21. Whatever the call, [processWithdrawal] creates and deletes no
    request, never changes the subject or the amount of a request, writes
    no Commission and touches no order; to the ledger it adds nothing or
    one Credit, never a Debit. *)
Theorem processWithdrawal_frame (db : DB) (now : Date) (body : Body) :
  let '(db', reply) := processWithdrawal db now body in
  orders db' = orders db ∧ orderItems db' = orderItems db ∧
  commissions db' = commissions db ∧ settings db' = settings db ∧
  (∀ j,
     match withdrawRequests db !! j, withdrawRequests db' !! j with
     | Some r, Some r' =>
         WithdrawRequest.userId r' = WithdrawRequest.userId r ∧
         WithdrawRequest.userType r' = WithdrawRequest.userType r ∧
         WithdrawRequest.amount r' = WithdrawRequest.amount r
     | None, None => True
     | _, _ => False
     end) ∧
  (walletTransactions db' = walletTransactions db ∨
   ∃ tx, walletTransactions db' = walletTransactions db ++ [tx] ∧
         WalletTransaction.type tx = Credit).
Proof.
  assert (∀ j, match withdrawRequests db !! j, withdrawRequests db !! j with
               | Some r, Some r' =>
                   WithdrawRequest.userId r' = WithdrawRequest.userId r ∧
                   WithdrawRequest.userType r' = WithdrawRequest.userType r ∧
                   WithdrawRequest.amount r' = WithdrawRequest.amount r
               | None, None => True
               | _, _ => False
               end) as Hsame
    by (intros j; now destruct (withdrawRequests db !! j)).
  assert (∀ (f : WithdrawRequest.t → WithdrawRequest.t) i (m m' : gmap Id _),
            m' = m →
            (∀ r, WithdrawRequest.userId (f r) = WithdrawRequest.userId r ∧
                  WithdrawRequest.userType (f r) = WithdrawRequest.userType r ∧
                  WithdrawRequest.amount (f r) = WithdrawRequest.amount r) →
            ∀ j, match m !! j, alter f i m' !! j with
                 | Some r, Some r' =>
                     WithdrawRequest.userId r' = WithdrawRequest.userId r ∧
                     WithdrawRequest.userType r' = WithdrawRequest.userType r ∧
                     WithdrawRequest.amount r' = WithdrawRequest.amount r
                 | None, None => True
                 | _, _ => False
                 end) as Halter.
  { intros f i m m' -> Hf j. destruct (decide (i = j)) as [<-|Hne].
    - rewrite lookup_alter_eq. destruct (m !! i); cbn; [apply Hf | exact I].
    - rewrite lookup_alter_ne by exact Hne. now destruct (m !! j). }
  unfold processWithdrawal.
  destruct (processWithdrawal_check db body) as [r|i a request];
    [repeat split; auto |].
  unfold processWithdrawal_txn, processWithdrawal_try.
  destruct (decide (a = "Approve")).
  - cbn. repeat split; auto. apply Halter; [reflexivity | now intros r].
  - destruct (decide (a = "Reject")).
    + destruct (creditWallet _ _ _ _ _ _ db) as [db1|] eqn:Hw; cbn.
      * apply creditWallet_frame in Hw
          as ((Ho & Hoi & _ & _ & _ & Hse & Hwr) & Hc & tx & Htx & Hty & _).
        split; [exact Ho |]. split; [exact Hoi |]. split; [exact Hc |].
        split; [exact Hse |].
        split; [apply Halter; [exact Hwr | now intros r] | right; eauto].
      * repeat split; auto.
    + cbn. repeat split; auto. apply Halter; [reflexivity | now intros r].
Qed.

(** ** Commission settings *)

Lemma lessThan_true (x y : Q) : lessThan x y = true ↔ (x < y)%Q.
Proof.
  unfold lessThan. rewrite negb_true_iff, <- not_true_iff_false, Qle_bool_iff.
  split; [apply Qnot_le_lt | apply Qlt_not_le].
Qed.

Lemma lessThan_false (x y : Q) : lessThan x y = false ↔ (y <= x)%Q.
Proof. unfold lessThan. now rewrite negb_false_iff, Qle_bool_iff. Qed.

Lemma rate_check (r : Q) :
  lessThan r 0 || lessThan 100 r = false ↔ (0 <= r)%Q ∧ (r <= 100)%Q.
Proof. now rewrite orb_false_iff, !lessThan_false. Qed.

Lemma supplied_ok (supplied : option Q) (outOfRange : Q → bool) (P : Q → Prop) :
  (∀ r, outOfRange r = false ↔ P r) →
  suppliedBad supplied outOfRange = false ↔ (∀ r, supplied = Some r → P r).
Proof.
  intros H. destruct supplied as [x|]; cbn.
  - rewrite H. split; [now intros Hx r [= <-] | auto].
  - split; [discriminate | reflexivity].
Qed.

Lemma updateCommissionRates_cases (created : RateSettings.t)
    (stored : option RateSettings.t) (body : RateSettings.t) :
  updateCommissionRates created stored body
  = let previous := default created stored in
    let bad m := (Some previous, mkSettingsReply 400 false (Some m) None) in
    if suppliedBad (RateSettings.sellerCommissionRate body)
         (λ r, lessThan r 0 || lessThan 100 r)
    then bad "Seller commission rate must be between 0 and 100"
    else if suppliedBad (RateSettings.deliveryBoyCommissionRate body)
              (λ r, lessThan r 0 || lessThan 100 r)
    then bad "Delivery boy commission rate must be between 0 and 100"
    else if suppliedBad (RateSettings.minimumWithdrawalAmount body)
              (λ r, lessThan r 0)
    then bad "Minimum withdrawal amount cannot be negative"
    else
      let saved :=
        RateSettings.mk
          (from_option Some (RateSettings.sellerCommissionRate previous)
             (RateSettings.sellerCommissionRate body))
          (from_option Some (RateSettings.deliveryBoyCommissionRate previous)
             (RateSettings.deliveryBoyCommissionRate body))
          (from_option Some (RateSettings.minimumWithdrawalAmount previous)
             (RateSettings.minimumWithdrawalAmount body)) in
      (Some saved,
       mkSettingsReply 200 true (Some "Commission rates updated successfully")
         (Some saved)).
Proof.
  unfold updateCommissionRates, findOrCreateSettings, suppliedBad.
  destruct stored, body as [[rs|] [rd|] [rm|]]; cbn;
    repeat (match goal with |- context [if ?b then _ else _] =>
              destruct b end); reflexivity.
Qed.

Lemma updateCommissionRates_validation_facts (created : RateSettings.t)
    (stored : option RateSettings.t) (body : RateSettings.t) :
  let '(stored', reply) := updateCommissionRates created stored body in
  let previous := default created stored in
  (settingsStatus reply = 200 ∨ settingsStatus reply = 400) ∧
  (settingsStatus reply = 200 ↔ ratesInRange body) ∧
  (settingsStatus reply = 400 →
     stored' = Some previous ∧ settingsData reply = None) ∧
  (settingsStatus reply = 200 →
     ∃ saved,
       stored' = Some saved ∧ settingsData reply = Some saved ∧
       RateSettings.sellerCommissionRate saved
         = from_option Some (RateSettings.sellerCommissionRate previous)
             (RateSettings.sellerCommissionRate body) ∧
       RateSettings.deliveryBoyCommissionRate saved
         = from_option Some (RateSettings.deliveryBoyCommissionRate previous)
             (RateSettings.deliveryBoyCommissionRate body) ∧
       RateSettings.minimumWithdrawalAmount saved
         = from_option Some (RateSettings.minimumWithdrawalAmount previous)
             (RateSettings.minimumWithdrawalAmount body)).
Proof.
  rewrite updateCommissionRates_cases. cbv zeta. unfold ratesInRange.
  pose proof (supplied_ok (RateSettings.sellerCommissionRate body) _
                (λ r, (0 <= r)%Q ∧ (r <= 100)%Q) rate_check) as Hs.
  pose proof (supplied_ok (RateSettings.deliveryBoyCommissionRate body) _
                (λ r, (0 <= r)%Q ∧ (r <= 100)%Q) rate_check) as Hd.
  pose proof (supplied_ok (RateSettings.minimumWithdrawalAmount body) _
                (λ r, (0 <= r)%Q) (λ r, lessThan_false r 0)) as Hm.
  destruct (suppliedBad _ _) eqn:Es;
    [| destruct (suppliedBad (RateSettings.deliveryBoyCommissionRate body) _)
         eqn:Ed;
       [| destruct (suppliedBad (RateSettings.minimumWithdrawalAmount body) _)
            eqn:Em]];
    cbn [settingsStatus settingsData].
  - split; [now right |]. split; [| split; [auto | discriminate]].
    split; [discriminate |]. intros (H & _). apply Hs in H. discriminate H.
  - split; [now right |]. split; [| split; [auto | discriminate]].
    split; [discriminate |]. intros (_ & H & _). apply Hd in H. discriminate H.
  - split; [now right |]. split; [| split; [auto | discriminate]].
    split; [discriminate |]. intros (_ & _ & H). apply Hm in H. discriminate H.
  - split; [now left |]. split.
    + split; [intros _ | reflexivity].
      split; [now apply Hs |]. split; [now apply Hd | now apply Hm].
    + split; [discriminate |]. intros _. eexists. repeat split.
Qed.

(** X22. [updateCommissionRates] answers 200 exactly when every supplied
    value is in range (rates in [0, 100], minimum not negative).  When it
    answers 400 nothing of the body is stored, not even the fields that
    passed before the failing one: the collection holds the document it had,
    or the freshly created one.  When it answers 200 every supplied field
    is stored as given, every other field keeps its value, and the reply
    carries the stored document. *)
Theorem updateCommissionRates_validation (created : RateSettings.t)
    (stored : option RateSettings.t) (body : RateSettings.t) :
  let '(stored', reply) := updateCommissionRates created stored body in
  let previous := default created stored in
  (settingsStatus reply = 200 ∨ settingsStatus reply = 400) ∧
  (settingsStatus reply = 200 ↔ ratesInRange body) ∧
  (settingsStatus reply = 400 →
     stored' = Some previous ∧ settingsData reply = None) ∧
  (settingsStatus reply = 200 →
     ∃ saved,
       stored' = Some saved ∧ settingsData reply = Some saved ∧
       RateSettings.sellerCommissionRate saved
         = from_option Some (RateSettings.sellerCommissionRate previous)
             (RateSettings.sellerCommissionRate body) ∧
       RateSettings.deliveryBoyCommissionRate saved
         = from_option Some (RateSettings.deliveryBoyCommissionRate previous)
             (RateSettings.deliveryBoyCommissionRate body) ∧
       RateSettings.minimumWithdrawalAmount saved
         = from_option Some (RateSettings.minimumWithdrawalAmount previous)
             (RateSettings.minimumWithdrawalAmount body)).
Proof.
  exact (updateCommissionRates_validation_facts created stored body).
Qed.


(** X24. A rate of 0 can be stored but not read back: after an update that
    was accepted with seller rate [r], [getCommissionSettings] reports [r]
    when [r] is not zero and the default 10 when it is; likewise 5 for the
    delivery rate and 100 for the minimum withdrawal amount. *)
Theorem getCommissionSettings_after_update (created : RateSettings.t)
    (stored stored' : option RateSettings.t) (body : RateSettings.t)
    (reply : SettingsReply) (rs rd rm : Q) :
  updateCommissionRates created stored body = (stored', reply) →
  settingsStatus reply = 200 →
  body = RateSettings.mk (Some rs) (Some rd) (Some rm) →
  getCommissionSettings created stored'
  = (stored',
     mkSettingsReply 200 true None
       (Some (RateSettings.mk
                (Some (if Qeq_bool rs 0 then 10%Q else rs))
                (Some (if Qeq_bool rd 0 then 5%Q else rd))
                (Some (if Qeq_bool rm 0 then 100%Q else rm))))).
Proof.
  intros Hrun H200 ->.
  pose proof (updateCommissionRates_validation_facts created stored
                (RateSettings.mk (Some rs) (Some rd) (Some rm))) as H.
  rewrite Hrun in H. cbv zeta in H. destruct H as (_ & _ & _ & H).
  destruct (H H200) as (saved & -> & _ & Es & Ed & Em).
  cbn in Es, Ed, Em. destruct saved as [ss sd sm]. cbn in Es, Ed, Em. subst.
  unfold getCommissionSettings, findOrCreateSettings, orNumber, truthy. cbn.
  now destruct (Qeq_bool rs 0), (Qeq_bool rd 0), (Qeq_bool rm 0).
Qed.

Lemma getCommissionSettings_after_update_witness :
  getCommissionSettings (RateSettings.mk None None None)
    (updateCommissionRates (RateSettings.mk None None None) None
       (RateSettings.mk (Some 0%Q) (Some 7%Q) (Some 250%Q))).1
  = ((updateCommissionRates (RateSettings.mk None None None) None
        (RateSettings.mk (Some 0%Q) (Some 7%Q) (Some 250%Q))).1,
     mkSettingsReply 200 true None
       (Some (RateSettings.mk (Some 10%Q) (Some 7%Q) (Some 250%Q)))).
Proof.
  apply (getCommissionSettings_after_update (RateSettings.mk None None None)
           None _ (RateSettings.mk (Some 0%Q) (Some 7%Q) (Some 250%Q))
           (updateCommissionRates (RateSettings.mk None None None) None
              (RateSettings.mk (Some 0%Q) (Some 7%Q) (Some 250%Q))).2
           0%Q 7%Q 250%Q).
  - now destruct (updateCommissionRates _ _ _).
  - reflexivity.
  - reflexivity.
Defined.

(** ** Reports *)

Lemma amountWhere_cons (P : Commission.t → Prop) `{∀ c, Decision (P c)}
    (c : Commission.t) (cs : list Commission.t) :
  amountWhere P (c :: cs)
  = if decide (P c)
    then (Commission.commissionAmount c + amountWhere P cs)%Q
    else amountWhere P cs.
Proof.
  unfold amountWhere. rewrite filter_cons. now destruct (decide (P c)).
Qed.

Lemma amountWhere_nil (P : Commission.t → Prop) `{∀ c, Decision (P c)} :
  amountWhere P [] = 0%Q.
Proof. reflexivity. Qed.

Lemma amountWhere_reverse (P : Commission.t → Prop) `{∀ c, Decision (P c)}
    (cs : list Commission.t) :
  (amountWhere P (reverse cs) == amountWhere P cs)%Q.
Proof.
  induction cs as [|c cs IH]; [reflexivity |].
  rewrite reverse_cons. unfold amountWhere in *.
  rewrite filter_app, fmap_app, Qsum_app, IH, !filter_cons, filter_nil.
  destruct (decide (P c)); unfold Qsum; cbn [fmap list_fmap fold_right]; ring.
Qed.

Lemma commissionReportSummary_fold (cs : list Commission.t) :
  ∀ init : ReportSummary.t,
  let step := λ (summary : ReportSummary.t) (c : Commission.t),
    let amount := Commission.commissionAmount c in
    let isSeller := bool_decide (Commission.type c = Some SELLER) in
    ReportSummary.mk
      (ReportSummary.totalCommissions summary + amount)%Q
      (if isSeller then (ReportSummary.sellerCommissions summary + amount)%Q
       else ReportSummary.sellerCommissions summary)
      (if isSeller then ReportSummary.deliveryBoyCommissions summary
       else (ReportSummary.deliveryBoyCommissions summary + amount)%Q)
      (match Commission.status c with
       | Paid => (ReportSummary.paidCommissions summary + amount)%Q
       | _ => ReportSummary.paidCommissions summary
       end)
      (match Commission.status c with
       | Pending => (ReportSummary.pendingCommissions summary + amount)%Q
       | _ => ReportSummary.pendingCommissions summary
       end)
      (ReportSummary.count summary) in
  let result := fold_left step cs init in
  (ReportSummary.totalCommissions result
   == ReportSummary.totalCommissions init + amountWhere (λ _, True) cs)%Q ∧
  (ReportSummary.sellerCommissions result
   == ReportSummary.sellerCommissions init
      + amountWhere (λ c, Commission.type c = Some SELLER) cs)%Q ∧
  (ReportSummary.deliveryBoyCommissions result
   == ReportSummary.deliveryBoyCommissions init
      + amountWhere (λ c, Commission.type c ≠ Some SELLER) cs)%Q ∧
  (ReportSummary.paidCommissions result
   == ReportSummary.paidCommissions init
      + amountWhere (λ c, Commission.status c = Paid) cs)%Q ∧
  (ReportSummary.pendingCommissions result
   == ReportSummary.pendingCommissions init
      + amountWhere (λ c, Commission.status c = Pending) cs)%Q ∧
  ReportSummary.count result = ReportSummary.count init.
Proof.
  induction cs as [|c cs IH]; intros init; cbv zeta.
  - cbn [fold_left]. rewrite !amountWhere_nil. repeat split; ring.
  - cbn [fold_left]. cbv zeta in IH.
    destruct (IH (ReportSummary.mk
                    (ReportSummary.totalCommissions init
                     + Commission.commissionAmount c)%Q
                    (if bool_decide (Commission.type c = Some SELLER)
                     then (ReportSummary.sellerCommissions init
                           + Commission.commissionAmount c)%Q
                     else ReportSummary.sellerCommissions init)
                    (if bool_decide (Commission.type c = Some SELLER)
                     then ReportSummary.deliveryBoyCommissions init
                     else (ReportSummary.deliveryBoyCommissions init
                           + Commission.commissionAmount c)%Q)
                    (match Commission.status c with
                     | Paid => (ReportSummary.paidCommissions init
                                + Commission.commissionAmount c)%Q
                     | _ => ReportSummary.paidCommissions init
                     end)
                    (match Commission.status c with
                     | Pending => (ReportSummary.pendingCommissions init
                                   + Commission.commissionAmount c)%Q
                     | _ => ReportSummary.pendingCommissions init
                     end)
                    (ReportSummary.count init)))
      as (Ht & Hs & Hd & Hp & Hn & Hc).
    cbn [ReportSummary.totalCommissions ReportSummary.sellerCommissions
         ReportSummary.deliveryBoyCommissions ReportSummary.paidCommissions
         ReportSummary.pendingCommissions ReportSummary.count] in *.
    rewrite !amountWhere_cons.
    split; [rewrite Ht; destruct (decide True); [ring | tauto] |].
    split; [rewrite Hs; case_bool_decide;
            destruct (decide (Commission.type c = Some SELLER));
            try contradiction; ring |].
    split; [rewrite Hd; case_bool_decide;
            destruct (decide (Commission.type c ≠ Some SELLER));
            try contradiction; ring |].
    split; [rewrite Hp; destruct (decide (Commission.status c = Paid)) as [E|E];
            destruct (Commission.status c); try discriminate E;
            try (now contradiction E); ring |].
    split; [rewrite Hn; destruct (decide (Commission.status c = Pending)) as [E|E];
            destruct (Commission.status c); try discriminate E;
            try (now contradiction E); ring |].
    exact Hc.
Qed.

Lemma amountWhere_split (P : Commission.t → Prop) `{∀ c, Decision (P c)}
    (cs : list Commission.t) :
  (amountWhere (λ _, True) cs
   == amountWhere P cs + amountWhere (λ c, ¬ P c) cs)%Q.
Proof.
  induction cs as [|c cs IH]; [reflexivity |].
  rewrite !amountWhere_cons.
  destruct (decide True) as [_|N]; [| tauto].
  destruct (decide (P c)), (decide (¬ P c)); try tauto; rewrite IH; ring.
Qed.

Lemma amountWhere_by_status (cs : list Commission.t) :
  (amountWhere (λ _, True) cs
   == amountWhere (λ c, Commission.status c = Paid) cs
      + amountWhere (λ c, Commission.status c = Pending) cs
      + amountWhere (λ c, Commission.status c = Cancelled) cs)%Q.
Proof.
  induction cs as [|c cs IH]; [reflexivity |].
  rewrite !amountWhere_cons.
  destruct (decide True) as [_|N]; [| tauto].
  destruct (Commission.status c); repeat case_decide; try congruence;
    rewrite IH; ring.
Qed.

(** X25. In the summary of a commission report the total is the sum of
    the seller and the delivery-partner figures, a record without type
    (such as those of the eager path) being counted under delivery
    partners; the total is also the Paid plus the Pending plus the
    Cancelled amounts, so Cancelled records stay in the total. *)
Theorem commissionReportSummary_totals (cs : list Commission.t) :
  let summary := commissionReportSummary cs in
  (ReportSummary.totalCommissions summary
   == ReportSummary.sellerCommissions summary
      + ReportSummary.deliveryBoyCommissions summary)%Q ∧
  (ReportSummary.deliveryBoyCommissions summary
   == amountWhere (λ c, Commission.type c ≠ Some SELLER) cs)%Q ∧
  (ReportSummary.totalCommissions summary
   == ReportSummary.paidCommissions summary
      + ReportSummary.pendingCommissions summary
      + amountWhere (λ c, Commission.status c = Cancelled) cs)%Q ∧
  ReportSummary.count summary = length cs.
Proof.
  cbv zeta. unfold commissionReportSummary.
  destruct (commissionReportSummary_fold cs
              (ReportSummary.mk 0 0 0 0 0 (length cs)))
    as (Ht & Hs & Hd & Hp & Hn & Hc).
  cbv zeta in *.
  cbn [ReportSummary.totalCommissions ReportSummary.sellerCommissions
       ReportSummary.deliveryBoyCommissions ReportSummary.paidCommissions
       ReportSummary.pendingCommissions ReportSummary.count] in *.
  split; [| split; [| split]].
  - rewrite Ht, Hs, Hd.
    rewrite (amountWhere_split (λ c, Commission.type c = Some SELLER)). ring.
  - rewrite Hd. ring.
  - rewrite Ht, Hp, Hn, (amountWhere_by_status cs). ring.
  - exact Hc.
Qed.

Lemma getCommissionSummary_fold (cs : list Commission.t) :
  ∀ init : CommissionSummary.t,
  let step := λ (summary : CommissionSummary.t) (c : Commission.t),
    let amount := Commission.commissionAmount c in
    CommissionSummary.mk
      (CommissionSummary.total summary + amount)%Q
      (match Commission.status c with
       | Paid => (CommissionSummary.paid summary + amount)%Q
       | _ => CommissionSummary.paid summary
       end)
      (match Commission.status c with
       | Pending => (CommissionSummary.pending summary + amount)%Q
       | _ => CommissionSummary.pending summary
       end)
      (CommissionSummary.count summary)
      (CommissionSummary.commissions summary) in
  let result := fold_left step cs init in
  (CommissionSummary.total result
   == CommissionSummary.total init + amountWhere (λ _, True) cs)%Q ∧
  (CommissionSummary.paid result
   == CommissionSummary.paid init
      + amountWhere (λ c, Commission.status c = Paid) cs)%Q ∧
  (CommissionSummary.pending result
   == CommissionSummary.pending init
      + amountWhere (λ c, Commission.status c = Pending) cs)%Q ∧
  CommissionSummary.count result = CommissionSummary.count init ∧
  CommissionSummary.commissions result = CommissionSummary.commissions init.
Proof.
  induction cs as [|c cs IH]; intros init; cbv zeta.
  - cbn [fold_left]. rewrite !amountWhere_nil. repeat split; ring.
  - cbn [fold_left]. cbv zeta in IH.
    destruct (IH (CommissionSummary.mk
                    (CommissionSummary.total init
                     + Commission.commissionAmount c)%Q
                    (match Commission.status c with
                     | Paid => (CommissionSummary.paid init
                                + Commission.commissionAmount c)%Q
                     | _ => CommissionSummary.paid init
                     end)
                    (match Commission.status c with
                     | Pending => (CommissionSummary.pending init
                                   + Commission.commissionAmount c)%Q
                     | _ => CommissionSummary.pending init
                     end)
                    (CommissionSummary.count init)
                    (CommissionSummary.commissions init)))
      as (Ht & Hp & Hn & Hc & He).
    cbn [CommissionSummary.total CommissionSummary.paid
         CommissionSummary.pending CommissionSummary.count
         CommissionSummary.commissions] in *.
    rewrite !amountWhere_cons.
    split; [rewrite Ht; destruct (decide True); [ring | tauto] |].
    split; [rewrite Hp; destruct (Commission.status c); case_decide;
            try congruence; ring |].
    split; [rewrite Hn; destruct (Commission.status c); case_decide;
            try congruence; ring |].
    split; [exact Hc | exact He].
Qed.

(** X26. The commission summary of a user covers exactly the records
    stored under that user in the field of the asked type: [count] is their
    number and the number of listed entries, [paid] and [pending] are the
    sums of their Paid and Pending amounts, and [total] is the sum of all
    of them, so it exceeds [paid + pending] by the Cancelled amounts. *)
Theorem getCommissionSummary_totals (db : DB) (userId : Id)
    (userType : UserType) :
  let summary := getCommissionSummary db userId userType in
  let mine :=
    filter (λ c, match userType with
                 | SELLER => Commission.seller c
                 | DELIVERY_BOY => Commission.deliveryBoy c
                 end = Some userId) (commissions db) in
  CommissionSummary.count summary = length mine ∧
  length (CommissionSummary.commissions summary)
  = CommissionSummary.count summary ∧
  (CommissionSummary.paid summary
   == amountWhere (λ c, Commission.status c = Paid) mine)%Q ∧
  (CommissionSummary.pending summary
   == amountWhere (λ c, Commission.status c = Pending) mine)%Q ∧
  (CommissionSummary.total summary
   == CommissionSummary.paid summary + CommissionSummary.pending summary
      + amountWhere (λ c, Commission.status c = Cancelled) mine)%Q.
Proof.
  cbv zeta. unfold getCommissionSummary. cbv zeta.
  destruct (getCommissionSummary_fold (commissionsOf db userId userType)
    (CommissionSummary.mk 0 0 0 (length (commissionsOf db userId userType))
       ((λ c, CommissionSummary.mkEntry (Commission._id c) (Commission.order c)
                (Commission.commissionAmount c) (Commission.commissionRate c)
                (Commission.orderAmount c) (Commission.status c)
                (Commission.paidAt c)) <$> commissionsOf db userId userType)))
    as (Ht & Hp & Hn & Hc & He).
  cbv zeta in *.
  cbn [CommissionSummary.total CommissionSummary.paid
       CommissionSummary.pending CommissionSummary.count
       CommissionSummary.commissions] in *.
  unfold commissionsOf in *.
  split; [rewrite Hc; apply length_reverse |].
  split; [rewrite He, Hc; apply length_fmap |].
  split; [rewrite Hp, amountWhere_reverse; ring |].
  split; [rewrite Hn, amountWhere_reverse; ring |].
  rewrite Ht, Hp, Hn, !amountWhere_reverse.
  rewrite (amountWhere_by_status (filter _ (commissions db))). ring.
Qed.

(** ** Grouping the items of an order by seller *)

Lemma sumOver_set (f : Share → Q) (k : Id) (v : Share) (m : list (Id * Share)) :
  (sumOver f (Map_set k v m)
   == sumOver f m + f v
      - match Map_get k m with Some e => f e | None => 0 end)%Q.
Proof.
  unfold sumOver, Qsum.
  induction m as [|[k' v'] m IH]; cbn [Map_set Map_get].
  - cbn [fmap list_fmap fold_right snd]. ring.
  - destruct (decide (k' = k)) as [->|Hne];
      rewrite !fmap_cons; cbn [fold_right snd].
    + ring.
    + rewrite IH. ring.
Qed.

Lemma accumulate_sums (db : DB) (m : list (Id * Share)) (itemId : Id) :
  (sumOver orderAmount (accumulate db m itemId)
   == sumOver orderAmount m + sumTotals (foundItems db [itemId]))%Q ∧
  (sumOver amount (accumulate db m itemId)
   == sumOver amount m + platformCut db (foundItems db [itemId]))%Q.
Proof.
  unfold accumulate, foundItems, sumTotals, platformCut, itemCommission.
  cbn [omap list_omap].
  destruct (orderItems db !! itemId) as [item|].
  - unfold Qsum. cbn [fmap list_fmap fold_right].
    destruct (Map_get (OrderItem.seller item) m) as [e|] eqn:He;
      rewrite !sumOver_set, He; cbn [orderAmount amount]; split; ring.
  - unfold Qsum. cbn [fmap list_fmap fold_right]. split; ring.
Qed.

Lemma foundItems_cons (db : DB) (itemId : Id) (ids : list Id) :
  foundItems db (itemId :: ids) = foundItems db [itemId] ++ foundItems db ids.
Proof.
  unfold foundItems. change (itemId :: ids) with ([itemId] ++ ids).
  now rewrite omap_app.
Qed.

Lemma accumulate_fold_sums (db : DB) (ids : list Id) :
  ∀ m : list (Id * Share),
  (sumOver orderAmount (fold_left (accumulate db) ids m)
   == sumOver orderAmount m + sumTotals (foundItems db ids))%Q ∧
  (sumOver amount (fold_left (accumulate db) ids m)
   == sumOver amount m + platformCut db (foundItems db ids))%Q.
Proof.
  induction ids as [|itemId ids IH]; intros m.
  - cbn [fold_left]. unfold sumTotals, platformCut, foundItems, Qsum.
    cbn [omap list_omap fmap list_fmap fold_right]. split; ring.
  - cbn [fold_left]. destruct (IH (accumulate db m itemId)) as [H1 H2].
    destruct (accumulate_sums db m itemId) as [A1 A2].
    rewrite foundItems_cons. unfold sumTotals, platformCut in *.
    rewrite !fmap_app, !Qsum_app, H1, H2, A1, A2. split; ring.
Qed.

(** X27. Grouping the items of an order by seller loses and duplicates
    nothing: [calculateOrderCommissions] yields at most one share per
    seller, the order amounts of the shares add up to the totals of the
    items of the order that exist, and their commission amounts add up to
    each such item's total at the rate of its seller; an item id with no
    document is skipped.  There is a delivery share exactly when the order
    names a delivery partner. *)
Theorem calculateOrderCommissions_conserves (db : DB) (orderId : Id)
    (data : Commissions) :
  calculateOrderCommissions db orderId = Ok data →
  ∃ order,
    orders db !! orderId = Some order ∧
    NoDup (seller data).*1 ∧
    (sumOver orderAmount (seller data)
     == sumTotals (foundItems db (Order.items order)))%Q ∧
    (sumOver amount (seller data)
     == platformCut db (foundItems db (Order.items order)))%Q ∧
    fst <$> deliveryBoy data = Order.deliveryBoy order.
Proof.
  unfold calculateOrderCommissions. intros H.
  destruct (orders db !! orderId) as [order|]; [| discriminate H].
  injection H as <-. exists order. cbn [seller deliveryBoy].
  split; [reflexivity |].
  split; [apply accumulate_fold_NoDup; cbn; apply NoDup_nil_2 |].
  destruct (accumulate_fold_sums db (Order.items order) []) as [H1 H2].
  split; [rewrite H1; unfold sumOver, Qsum; cbn [fmap list_fmap fold_right]; ring |].
  split; [rewrite H2; unfold sumOver, Qsum; cbn [fmap list_fmap fold_right]; ring |].
  unfold deliveryBoyCommission.
  destruct (Order.deliveryBoy order) as [deliveryBoyId|]; [| reflexivity].
  now destruct (distanceCommission db order) as [[]|].
Qed.

Lemma calculateOrderCommissions_conserves_witness :
  ∃ order,
    orders db_one_item !! "o1" = Some order ∧
    (sumOver orderAmount [("s1", mkShare (100 * 10 / 100) 10 100)]
     == sumTotals (foundItems db_one_item (Order.items order)))%Q.
Proof.
  destruct (calculateOrderCommissions_conserves db_one_item "o1"
              (mkCommissions [("s1", mkShare (100 * 10 / 100) 10 100)] None))
    as (order & Ho & _ & Hs & _).
  - vm_compute. reflexivity.
  - exists order. auto.
Defined.
